(** * Particle choreography and mode state machine of the holiday scene

    A shallow embedding of [Particle] and [Experience] (src/App.tsx, the part
    that was components/Experience.ts) and of the [ExperienceMode] / [State]
    declarations (types.ts).

    Conventions of the embedding.
    - A JavaScript [number] is read in three ways.  In the definitions of
      the program proper it is a real number and arithmetic is exact;
      [Math.cos], [Math.sin], [Math.acos], [Math.hypot] and [Math.floor] are
      the functions of the same name on the reals.  What is proved there
      does not depend on rounding: the branch taken, the field written, the
      expression evaluated, bounds that rounding respects.  In the module
      [Rounded] the same code runs on a [Machine] that rounds the result of
      every operation; the laws of the numbers (how far a particle is from
      its target after k calls, how far a target is from the origin) are
      proved there, for every machine that is [Standard], and carry the
      rounding error.  In the module [Binary64] a number is a binary64
      value and closed terms compute.  There is no NaN and no overflow: the
      numbers of the scene stay far from both.
    - [Math.random()] is an oracle.  An operation that draws random numbers
      takes a tape [rnd : nat -> R]; [rnd k] is the value returned by the
      k-th call of [Math.random()] made while the operation runs.  The
      contract of [Math.random] is [in_unit rnd]: every draw is in [0,1).
    - A particle id is the text of [Math.random().toString(36).substring(7)].
      The rendering of a number in base 36 is not modelled: the constructor
      takes the resulting string as an input.
    - An uncaught [TypeError] (reading a property of [undefined]) is [None].
    - Objects of three.js are records of the fields the program reads and
      writes; [Vector3.lerp], [Vector3.multiplyScalar], [Vector3.set] and
      [MathUtils.lerp] are transcribed from three.js. *)

From Stdlib Require Import Reals Lra Lia List String Bool Arith ZArith.
From Stdlib Require PrimFloat FloatOps SpecFloat.
Import ListNotations.

Open Scope R_scope.

(** ** Numbers *)

Definition Rltb (x y : R) : bool := if Rlt_dec x y then true else false.
Definition Reqb (x y : R) : bool := if Req_dec_T x y then true else false.

(** [Math.hypot(a, b)] *)
Definition hypot (a b : R) : R := sqrt (a * a + b * b).

(** [Math.floor] *)
Definition floor (x : R) : Z := Int_part x.

(** The contract of [Math.random]. *)
Definition in_unit (rnd : nat -> R) : Prop := forall k, 0 <= rnd k < 1.

(** The tape seen by code that runs after [n] draws were made. *)
Definition skip (n : nat) (rnd : nat -> R) : nat -> R := fun k => rnd (n + k)%nat.

(** [a[i]] for an array and an integral index: [undefined] out of range. *)
Definition arrayGet {A : Type} (a : list A) (i : Z) : option A :=
  if (i <? 0)%Z then None else nth_error a (Z.to_nat i).

(** ** three.js values *)

Record Vector3 : Type := mkVector3 { x : R; y : R; z : R }.

Module Vector3Ops.

(** [new THREE.Vector3()] *)
Definition zero : Vector3 := mkVector3 0 0 0.

(** [this.x += (v.x - this.x) * alpha], and so on for y and z. *)
Definition lerp (self v : Vector3) (alpha : R) : Vector3 :=
  mkVector3 (x self + (x v - x self) * alpha)
            (y self + (y v - y self) * alpha)
            (z self + (z v - z self) * alpha).

Definition multiplyScalar (self : Vector3) (s : R) : Vector3 :=
  mkVector3 (x self * s) (y self * s) (z self * s).

(** [this.distanceTo(v)] *)
Definition distanceTo (self v : Vector3) : R :=
  sqrt ((x self - x v) * (x self - x v)
        + (y self - y v) * (y self - y v)
        + (z self - z v) * (z self - z v)).

(** [this.length()]: the Euclidean distance from the origin. *)
Definition length (self : Vector3) : R :=
  sqrt (x self * x self + y self * y self + z self * z self).

End Vector3Ops.

Module MathUtils.
(** [THREE.MathUtils.lerp(x, y, t)] *)
Definition lerp (a b t : R) : R := (1 - t) * a + t * b.
End MathUtils.

(** The part of a [THREE.Object3D] the program touches; [rotation] is the
    Euler triple (x, y, z). *)
Record Object3D : Type := mkObject3D {
  position : Vector3;
  rotation : Vector3;
  scale : Vector3
}.

(** ** types.ts *)

Inductive ExperienceMode : Type := TREE | SCATTER | FOCUS.

Definition ExperienceMode_eqb (a b : ExperienceMode) : bool :=
  match a, b with
  | TREE, TREE | SCATTER, SCATTER | FOCUS, FOCUS => true
  | _, _ => false
  end.

Record State : Type := mkState {
  mode : ExperienceMode;
  handX : R;
  handY : R;
  pinchDetected : bool;
  fistDetected : bool;
  openHandDetected : bool;
  controlsVisible : bool
}.

(** ** Particle *)

Inductive ParticleType : Type := BOX | SPHERE | CANDY | PHOTO.

Definition isPHOTO (t : ParticleType) : bool :=
  match t with PHOTO => true | _ => false end.

Record Particle : Type := mkParticle {
  mesh : Object3D;
  type : ParticleType;
  targetPos : Vector3;
  randomVelocity : Vector3;
  initialScale : Vector3;
  id : string
}.

(** [focusTargetId === p.id] for [focusTargetId : string | null]. *)
Definition idIs (focusTargetId : option string) (pid : string) : bool :=
  match focusTargetId with
  | Some s => String.eqb s pid
  | None => false
  end.

(** Truthiness of a [string | null]: [null] and the empty string are falsy. *)
Definition truthy (s : option string) : bool :=
  match s with
  | Some s => negb (String.eqb s EmptyString)
  | None => false
  end.

Module ParticleOps.

(** The constructor.  [rnd 0], [rnd 1], [rnd 2] are the three draws of the
    [randomVelocity] initialiser; the fourth draw is rendered by
    [Math.random().toString(36).substring(7)], and [idText] is the string
    that results (digits 0-9 and letters a-z, possibly none, and not
    necessarily different from the id of another particle). *)
Definition new (rnd : nat -> R) (idText : string)
    (m : Object3D) (t : ParticleType) : Particle :=
  {| mesh := m;
     type := t;
     targetPos := Vector3Ops.zero;
     randomVelocity := mkVector3 ((rnd 0%nat - 0.5) * 0.04)
                                 ((rnd 1%nat - 0.5) * 0.04)
                                 ((rnd 2%nat - 0.5) * 0.04);
     initialScale := scale m;
     id := idText |}.

Definition tiny : Vector3 := mkVector3 0.001 0.001 0.001.

(** [update(mode, focusTargetId)] *)
Definition update (md : ExperienceMode) (focusTargetId : option string)
    (p : Particle) : Particle :=
  let isFocusTarget := idIs focusTargetId (id p) in
  let m := mesh p in
  (* Position LERP *)
  let pos := Vector3Ops.lerp (position m) (targetPos p) 0.08 in
  (* Scale Logic for modes *)
  let '(scl, rot) :=
    match md with
    | FOCUS =>
        match type p with
        | PHOTO =>
            if isFocusTarget then
              let focusScale := Vector3Ops.multiplyScalar (initialScale p) 4.5 in
              (Vector3Ops.lerp (scale m) focusScale 0.1,
               mkVector3 (x (rotation m))
                         (MathUtils.lerp (y (rotation m)) 0 0.1)
                         (z (rotation m)))
            else (Vector3Ops.lerp (scale m) tiny 0.1, rotation m)
        | _ => (Vector3Ops.lerp (scale m) tiny 0.1, rotation m)
        end
    | _ => (Vector3Ops.lerp (scale m) (initialScale p) 0.1, rotation m)
    end in
  (* Rotation Logic *)
  let rot' :=
    match md with
    | SCATTER =>
        mkVector3 (x rot + x (randomVelocity p))
                  (y rot + y (randomVelocity p))
                  (z rot + z (randomVelocity p))
    | _ => mkVector3 (x rot * 0.92) (y rot) (z rot * 0.92)
    end in
  {| mesh := {| position := pos; rotation := rot'; scale := scl |};
     type := type p;
     targetPos := targetPos p;
     randomVelocity := randomVelocity p;
     initialScale := initialScale p;
     id := id p |}.

(** [p.targetPos.set(x, y, z)] *)
Definition setTarget (v : Vector3) (p : Particle) : Particle :=
  {| mesh := mesh p;
     type := type p;
     targetPos := v;
     randomVelocity := randomVelocity p;
     initialScale := initialScale p;
     id := id p |}.

End ParticleOps.

(** ** Experience *)

(** The fields of [Experience] that the choreography reads or writes.
    [handLandmarker] and [video] record whether the field is non-null;
    [mainGroupRotation] and [dustRotationY] are the rotations of [mainGroup]
    and [dustPoints]. *)
Record Experience : Type := mkExperience {
  particles : list Particle;
  handLandmarker : bool;
  video : bool;
  lastVideoTime : R;
  state : State;
  focusTargetId : option string;
  mainGroupRotation : Vector3;
  dustRotationY : R
}.

Definition withParticles (ps : list Particle) (e : Experience) : Experience :=
  {| particles := ps;
     handLandmarker := handLandmarker e;
     video := video e;
     lastVideoTime := lastVideoTime e;
     state := state e;
     focusTargetId := focusTargetId e;
     mainGroupRotation := mainGroupRotation e;
     dustRotationY := dustRotationY e |}.

Definition withFocusTargetId (f : option string) (e : Experience) : Experience :=
  {| particles := particles e;
     handLandmarker := handLandmarker e;
     video := video e;
     lastVideoTime := lastVideoTime e;
     state := state e;
     focusTargetId := f;
     mainGroupRotation := mainGroupRotation e;
     dustRotationY := dustRotationY e |}.

Definition withLastVideoTime (t : R) (e : Experience) : Experience :=
  {| particles := particles e;
     handLandmarker := handLandmarker e;
     video := video e;
     lastVideoTime := t;
     state := state e;
     focusTargetId := focusTargetId e;
     mainGroupRotation := mainGroupRotation e;
     dustRotationY := dustRotationY e |}.

Definition withState (s : State) (e : Experience) : Experience :=
  {| particles := particles e;
     handLandmarker := handLandmarker e;
     video := video e;
     lastVideoTime := lastVideoTime e;
     state := s;
     focusTargetId := focusTargetId e;
     mainGroupRotation := mainGroupRotation e;
     dustRotationY := dustRotationY e |}.

Definition withMode (m : ExperienceMode) (s : State) : State :=
  {| mode := m;
     handX := handX s;
     handY := handY s;
     pinchDetected := pinchDetected s;
     fistDetected := fistDetected s;
     openHandDetected := openHandDetected s;
     controlsVisible := controlsVisible s |}.

Definition withHand (hx hy : R) (s : State) : State :=
  {| mode := mode s;
     handX := hx;
     handY := hy;
     pinchDetected := pinchDetected s;
     fistDetected := fistDetected s;
     openHandDetected := openHandDetected s;
     controlsVisible := controlsVisible s |}.

(** The field initialisers of the class. *)
Definition initial : Experience :=
  {| particles := [];
     handLandmarker := false;
     video := false;
     lastVideoTime := -1;
     state := {| mode := TREE; handX := 0; handY := 0;
                 pinchDetected := false; fistDetected := false;
                 openHandDetected := false; controlsVisible := true |};
     focusTargetId := None;
     mainGroupRotation := Vector3Ops.zero;
     dustRotationY := 0 |}.

(** *** calculateTargets *)

Definition maxRadius : R := 14.
Definition height : R := 28.

(** The point directly in front of the camera. *)
Definition front : Vector3 := mkVector3 0 2 35.

(** The first statement of [calculateTargets]: the new [focusTargetId] and
    the number of draws made ([None] when [photos[...]] is [undefined]). *)
Definition selectFocus (rnd : nat -> R) (md : ExperienceMode)
    (cur : option string) (photos : list Particle) : option (option string * nat) :=
  match md with
  | FOCUS =>
      if negb (truthy cur) && (0 <? List.length photos)%nat then
        match arrayGet photos (floor (rnd 0%nat * INR (List.length photos))) with
        | Some p => Some (Some (id p), 1%nat)
        | None => None
        end
      else Some (cur, 0%nat)
  | _ => Some (None, 0%nat)
  end.

(** The body of the [forEach] callback for the particle [p] at index [i]:
    the new target and the number of draws made, reading the tape from
    position [k].  [n] is [this.particles.length]. *)
Definition layoutTarget (rnd : nat -> R) (md : ExperienceMode)
    (fid : option string) (n : nat) (i k : nat) (p : Particle) : Vector3 * nat :=
  match md with
  | TREE =>
      let t := INR i / INR n in
      let radius := maxRadius * (1 - t) in
      let angle := t * 50 * PI in
      (mkVector3 (cos angle * radius) (t * height - height / 2) (sin angle * radius),
       0%nat)
  | SCATTER =>
      let theta := rnd k * PI * 2 in
      let phi := acos (2 * rnd (k + 1)%nat - 1) in
      let r := 10 + rnd (k + 2)%nat * 15 in
      (mkVector3 (r * sin phi * cos theta) (r * sin phi * sin theta) (r * cos phi),
       3%nat)
  | FOCUS =>
      if idIs fid (id p) then (front, 0%nat)
      else
        (* Push others far away *)
        let angle := rnd k * PI * 2 in
        let r := 40 + rnd (k + 1)%nat * 20 in
        (mkVector3 (cos angle * r) ((rnd (k + 2)%nat - 0.5) * 40) (sin angle * r),
         3%nat)
  end.

(** [this.particles.forEach((p, i) => ...)], from index [i] and tape
    position [k]. *)
Fixpoint forEachTarget (rnd : nat -> R) (md : ExperienceMode)
    (fid : option string) (n : nat) (i k : nat) (ps : list Particle) : list Particle :=
  match ps with
  | [] => []
  | p :: ps' =>
      let '(v, d) := layoutTarget rnd md fid n i k p in
      ParticleOps.setTarget v p :: forEachTarget rnd md fid n (S i) (k + d) ps'
  end.

(** [this.particles.filter(p => p.type === 'PHOTO')] *)
Definition photosOf (ps : list Particle) : list Particle :=
  filter (fun p => isPHOTO (type p)) ps.

Definition calculateTargets (rnd : nat -> R) (e : Experience) : option Experience :=
  let md := mode (state e) in
  let photos := photosOf (particles e) in
  match selectFocus rnd md (focusTargetId e) photos with
  | None => None
  | Some (fid, d) =>
      Some (withParticles
              (forEachTarget rnd md fid (List.length (particles e)) 0 d (particles e))
              (withFocusTargetId fid e))
  end.

(** *** addPhotoToScene and the loop body of initContent *)

(** A fresh [THREE.Group] or [THREE.Mesh]: at the origin, unrotated, unit scale. *)
Definition freshObject : Object3D :=
  {| position := Vector3Ops.zero;
     rotation := Vector3Ops.zero;
     scale := mkVector3 1 1 1 |}.

(** [addPhotoToScene(texture)]: the texture only reaches the material.  The
    first four draws belong to the [Particle] constructor. *)
Definition addPhotoToScene (rnd : nat -> R) (idText : string) (e : Experience)
    : option Experience :=
  let p := ParticleOps.new rnd idText freshObject PHOTO in
  calculateTargets (skip 4 rnd) (withParticles (particles e ++ [p]) e).

(** One iteration of the loop "1500 Main Particles" of [initContent]. *)
Definition addDecoration (rnd : nat -> R) (idText : string) (e : Experience)
    : Experience :=
  let rand := rnd 0%nat in
  let '(t, d) :=
    if Rltb rand 0.5 then (BOX, 2%nat)
    else if Rltb rand 0.85 then (SPHERE, 2%nat)
    else (CANDY, 1%nat) in
  let m :=
    {| position := mkVector3 ((rnd d - 0.5) * 60)
                             ((rnd (d + 1)%nat - 0.5) * 60)
                             ((rnd (d + 2)%nat - 0.5) * 60);
       rotation := Vector3Ops.zero;
       scale := mkVector3 1 1 1 |} in
  withParticles (particles e ++ [ParticleOps.new (skip (d + 3) rnd) idText m t]) e.

(** *** processGestures *)

Record NormalizedLandmark : Type := mkLandmark { lx : R; ly : R; lz : R }.

(** What one call of [processGestures] observes outside the object:
    [video.readyState], [video.currentTime], and [results.landmarks] of
    [detectForVideo] for the current frame ([None] when the property is
    missing; otherwise one list of landmarks per detected hand). *)
Record Frame : Type := mkFrame {
  readyState : nat;
  currentTime : R;
  landmarks : option (list (list NormalizedLandmark))
}.

(** The mode requested by a gesture: the three tests on [pinchDist] and
    [avgTipDist], starting from [newMode = this.state.mode]. *)
Definition gestureMode (cur : ExperienceMode) (pinchDist avgTipDist : R)
    : ExperienceMode :=
  if Rltb pinchDist 0.05 then FOCUS
  else if Rltb avgTipDist 0.25 then TREE
  else if Rltb 0.4 avgTipDist then SCATTER
  else cur.

(** [if (newMode !== this.state.mode) { this.state.mode = newMode;
    this.calculateTargets(); }] *)
Definition requestMode (rnd : nat -> R) (newMode : ExperienceMode)
    (e : Experience) : option Experience :=
  if negb (ExperienceMode_eqb newMode (mode (state e))) then
    calculateTargets rnd (withState (withMode newMode (state e)) e)
  else Some e.

(** The readiness guard at the head of [processGestures]. *)
Definition ready (f : Frame) (e : Experience) : bool :=
  handLandmarker e && video e && negb (readyState f <? 2)%nat.

Definition pinchDistOf (thumb index : NormalizedLandmark) : R :=
  hypot (lx thumb - lx index) (ly thumb - ly index).

Definition avgTipDistOf (wrist : NormalizedLandmark) (tips : list NormalizedLandmark) : R :=
  fold_left (fun acc t => acc + hypot (lx t - lx wrist) (ly t - ly wrist)) tips 0 / 4.

(** The landmarks read from the first hand: [lms[4]], [lms[8]], [lms[0]],
    [lms[12]], [lms[16]], [lms[20]] and [lms[9]]. *)
Record HandPoints : Type := mkHandPoints {
  thumb : NormalizedLandmark;
  index : NormalizedLandmark;
  wrist : NormalizedLandmark;
  tip12 : NormalizedLandmark;
  tip16 : NormalizedLandmark;
  tip20 : NormalizedLandmark;
  center : NormalizedLandmark
}.

(** [None] when one of them is [undefined]: reading its [x] throws. *)
Definition handPoints (lms : list NormalizedLandmark) : option HandPoints :=
  match nth_error lms 4, nth_error lms 8, nth_error lms 0,
        nth_error lms 12, nth_error lms 16, nth_error lms 20,
        nth_error lms 9 with
  | Some a, Some b, Some c, Some d, Some e, Some f, Some g =>
      Some (mkHandPoints a b c d e f g)
  | _, _, _, _, _, _, _ => None
  end.

(** Center landmark 9 for mapping: the assignments to [handX] and [handY]. *)
Definition pointed (h : HandPoints) (e : Experience) : Experience :=
  withState (withHand ((lx (center h) - 0.5) * 2) ((ly (center h) - 0.5) * 2) (state e)) e.

(** [pinchDist] and [avgTipDist] of a hand; the tips are
    [[lms[12], lms[16], lms[20], index]]. *)
Definition pinchOf (h : HandPoints) : R := pinchDistOf (thumb h) (index h).

Definition extensionOf (h : HandPoints) : R :=
  avgTipDistOf (wrist h) [tip12 h; tip16 h; tip20 h; index h].

(** [newMode] for the hand [h] when the current mode is [cur]. *)
Definition requested (cur : ExperienceMode) (h : HandPoints) : ExperienceMode :=
  gestureMode cur (pinchOf h) (extensionOf h).

(** The block that handles the landmarks [lms] of the first hand. *)
Definition handleHand (rnd : nat -> R) (lms : list NormalizedLandmark)
    (e : Experience) : option Experience :=
  match handPoints lms with
  | Some h =>
      let e1 := pointed h e in
      requestMode rnd (requested (mode (state e1)) h) e1
  | None => None
  end.

Definition processGestures (rnd : nat -> R) (f : Frame) (e : Experience)
    : option Experience :=
  if negb (ready f e) then Some e
  else if negb (Reqb (currentTime f) (lastVideoTime e)) then
    let e1 := withLastVideoTime (currentTime f) e in
    match landmarks f with
    | Some (lms :: _) => handleHand rnd lms e1
    | _ => Some e1
    end
  else Some e.

(** [numHands: 1] in the options with which [setupMediaPipe] creates the
    tracker: a result never holds more hands than that. *)
Definition numHands : nat := 1.

(** The frame is one the tracker can deliver. *)
Definition delivered (f : Frame) : Prop :=
  forall hands, landmarks f = Some hands -> (List.length hands <= numHands)%nat.

(** The number of hands in the result; a missing [results.landmarks] holds
    none. *)
Definition handCount (f : Frame) : nat :=
  match landmarks f with
  | Some hands => List.length hands
  | None => 0%nat
  end.

(** The first hand of the frame [f] has the landmarks [h]. *)
Definition sees (f : Frame) (h : HandPoints) : Prop :=
  exists lms rest, landmarks f = Some (lms :: rest) /\ handPoints lms = Some h.

(** The state on which [calculateTargets] runs when the frame [f] with the
    hand [h] changes the mode to [m]: time recorded, pointer moved, mode
    committed. *)
Definition committed (m : ExperienceMode) (h : HandPoints) (f : Frame)
    (e : Experience) : Experience :=
  let e1 := pointed h (withLastVideoTime (currentTime f) e) in
  withState (withMode m (state e1)) e1.

(** *** animate *)

(** One frame: gestures, rotation of the main group, update of every
    particle, drift of the dust. *)
Definition animate (rnd : nat -> R) (f : Frame) (e : Experience) : option Experience :=
  match processGestures rnd f e with
  | None => None
  | Some e1 =>
      let r := mainGroupRotation e1 in
      let ry := MathUtils.lerp (y r) (handX (state e1) * 1.5) 0.05 in
      let rx := MathUtils.lerp (x r) (handY (state e1) * 0.8) 0.05 in
      Some {| particles := map (ParticleOps.update (mode (state e1)) (focusTargetId e1))
                               (particles e1);
              handLandmarker := handLandmarker e1;
              video := video e1;
              lastVideoTime := lastVideoTime e1;
              state := state e1;
              focusTargetId := focusTargetId e1;
              mainGroupRotation := mkVector3 rx ry (z r);
              dustRotationY := dustRotationY e1 + 0.001 |}
  end.

(** [setupMediaPipe] after its awaits: the tracker is bound, then the video
    element. *)
Definition bindHandLandmarker (e : Experience) : Experience :=
  {| particles := particles e;
     handLandmarker := true;
     video := video e;
     lastVideoTime := lastVideoTime e;
     state := state e;
     focusTargetId := focusTargetId e;
     mainGroupRotation := mainGroupRotation e;
     dustRotationY := dustRotationY e |}.

Definition bindVideo (e : Experience) : Experience :=
  {| particles := particles e;
     handLandmarker := handLandmarker e;
     video := true;
     lastVideoTime := lastVideoTime e;
     state := state e;
     focusTargetId := focusTargetId e;
     mainGroupRotation := mainGroupRotation e;
     dustRotationY := dustRotationY e |}.

(** ** Consecutive updates of one particle *)

(** [update] called once per element of [calls], each call with its own
    mode and focus id; nothing else touches the particle in between. *)
Definition updates (calls : list (ExperienceMode * option string)) (p : Particle)
    : Particle :=
  fold_left (fun q c => ParticleOps.update (fst c) (snd c) q) calls p.

(** The layout of TREE mode as the specification words it. *)
Module TreeSpec.
Definition t (i n : nat) : R := INR i / INR n.
Definition radius (i n : nat) : R := 14 * (1 - t i n).
Definition angle (i n : nat) : R := t i n * (50 * PI).
Definition height (i n : nat) : R := t i n * 28 - 14.
Definition position (i n : nat) : Vector3 :=
  mkVector3 (radius i n * cos (angle i n)) (height i n) (radius i n * sin (angle i n)).
End TreeSpec.

(** Distance of a point from the vertical axis. *)
Definition radial (v : Vector3) : R := hypot (x v) (z v).

(** ** The focus target *)

(** Some PHOTO particle of [ps] has the id [s]. *)
Definition hasPhoto (s : string) (ps : list Particle) : Prop :=
  exists p, In p ps /\ type p = PHOTO /\ id p = s.

(** The focus target, when set, is the id of a PHOTO particle of the scene. *)
Definition focusValid (e : Experience) : Prop :=
  forall s, focusTargetId e = Some s -> hasPhoto s (particles e).

(** The focus target is null outside FOCUS mode, and valid. *)
Definition focusInv (e : Experience) : Prop :=
  (mode (state e) <> FOCUS -> focusTargetId e = None) /\ focusValid e.

(** ** Reachable states *)

(** The states the object passes through, and possibly more: the field
    initialisers, then any sequence of loop iterations of [initContent],
    photo insertions ([initContent] inserts the default photo, the upload
    handler any other), layout computations, bindings made by
    [setupMediaPipe], and frames.  The program runs the 1500 loop iterations
    first; the relation leaves their number and place free, so what holds of
    every reachable state holds of every state of a run.  Every draw of
    [Math.random] is in [0,1). *)
Inductive reachable : Experience -> Prop :=
| reach_initial : reachable initial
| reach_decoration rnd idText e :
    reachable e -> in_unit rnd -> reachable (addDecoration rnd idText e)
| reach_photo rnd idText e e' :
    reachable e -> in_unit rnd -> addPhotoToScene rnd idText e = Some e' ->
    reachable e'
| reach_layout rnd e e' :
    reachable e -> in_unit rnd -> calculateTargets rnd e = Some e' -> reachable e'
| reach_tracker e : reachable e -> reachable (bindHandLandmarker e)
| reach_video e : reachable e -> reachable (bindVideo e)
| reach_frame rnd f e e' :
    reachable e -> in_unit rnd -> animate rnd f e = Some e' -> reachable e'.

(** ** Sample scenes *)

(** A tape on which every draw is 0. *)
Definition zeroTape : nat -> R := fun _ => 0.

(** A tape on which every draw is 0.5. *)
Definition halfTape : nat -> R := fun _ => 0.5.

Definition photo (idText : string) : Particle :=
  ParticleOps.new zeroTape idText freshObject PHOTO.

Definition box (idText : string) : Particle :=
  ParticleOps.new zeroTape idText freshObject BOX.

(** A scene with tracker and video bound, in mode [md]. *)
Definition scene (md : ExperienceMode) (fid : option string) (ps : list Particle)
    : Experience :=
  {| particles := ps;
     handLandmarker := true;
     video := true;
     lastVideoTime := -1;
     state := withMode md (state initial);
     focusTargetId := fid;
     mainGroupRotation := Vector3Ops.zero;
     dustRotationY := 0 |}.

(** A hand of 21 landmarks that all sit at (cx, cy): thumb and index tips
    touch, so the pinch distance is 0. *)
Definition flatHand (cx cy : R) : list NormalizedLandmark :=
  repeat (mkLandmark cx cy 0) 21.

(** The landmarks read from [flatHand cx cy]. *)
Definition flatPoints (cx cy : R) : HandPoints :=
  let l := mkLandmark cx cy 0 in mkHandPoints l l l l l l l.

(** An open hand of 21 landmarks: wrist and thumb tip at the origin, every
    other landmark at (d, 0).  Pinch distance and average extension are
    both d. *)
Definition spreadHand (d : R) : list NormalizedLandmark :=
  map (fun k => if (k =? 0)%nat || (k =? 4)%nat then mkLandmark 0 0 0
                else mkLandmark d 0 0)
      (seq 0 21).

Definition spreadPoints (d : R) : HandPoints :=
  let o := mkLandmark 0 0 0 in
  let a := mkLandmark d 0 0 in
  mkHandPoints o a o a a a a.


(** A decoration and a photo whose ids came out equal. *)
Definition twins : Experience :=
  scene FOCUS None [box "7k2p9x"; photo "7k2p9x"].

(** Two photos, the second with the empty id, which is the focus target. *)
Definition emptyIdScene : Experience :=
  scene FOCUS (Some EmptyString) [photo "k3v1"; photo EmptyString].

(** The state after a photo with the id [idText] was added, all draws 0. *)
Definition afterPhoto (idText : string) (e : Experience) : Experience :=
  match addPhotoToScene zeroTape idText e with
  | Some e' => e'
  | None => e
  end.

(** One photo added to the initial state, then tracker and video bound. *)
Definition startScene : Experience :=
  bindVideo (bindHandLandmarker (afterPhoto "c3" initial)).

(** Two photos whose ids came out equal, tracker and video bound. *)
Definition twinPhotos : Experience :=
  bindVideo (bindHandLandmarker (afterPhoto "7k2p9x" (afterPhoto "7k2p9x" initial))).

(** Two decorations and a photo, in each of the three modes. *)
Definition treeScene : Experience :=
  scene TREE None [box "a1"; box "b2"; photo "c3"].

Definition scatterScene : Experience :=
  scene SCATTER None [box "a1"; box "b2"; photo "c3"].

Definition focusScene : Experience :=
  scene FOCUS None [box "a1"; box "b2"; photo "c3"].

(** FOCUS mode without any photo. *)
Definition boxesInFocus : Experience :=
  scene FOCUS None [box "a1"; box "b2"].

(** A frame whose video is not ready yet, and frames at the same timestamp
    with one and with two hands. *)
Definition loadingFrame : Frame :=
  {| readyState := 1; currentTime := 0; landmarks := None |}.

Definition pinchFrame : Frame :=
  {| readyState := 4; currentTime := 0; landmarks := Some [flatHand 1 1] |}.

Definition twoHandsFrame : Frame :=
  {| readyState := 4; currentTime := 0;
     landmarks := Some [flatHand 1 1; flatHand 0.5 0.5] |}.

Definition noHandFrame : Frame :=
  {| readyState := 4; currentTime := 0; landmarks := Some [] |}.

(** ** initContent and the events of a session *)

(** The number of draws one iteration of the loop "1500 Main Particles"
    makes: the type, the material of a box or a sphere, three for the
    position, three for [randomVelocity], one for the id. *)
Definition decorationDraws (rnd : nat -> R) : nat :=
  if Rltb (rnd 0%nat) 0.5 then 9%nat
  else if Rltb (rnd 0%nat) 0.85 then 9%nat
  else 8%nat.

(** [n] iterations of the loop, first iteration first; [ids k] is the id
    text of the k-th particle made.  The result comes with the number of
    draws made. *)
Fixpoint decorate (n : nat) (rnd : nat -> R) (ids : nat -> string) (e : Experience)
    : Experience * nat :=
  match n with
  | O => (e, O)
  | S n' =>
      let d := decorationDraws rnd in
      let '(e', d') :=
        decorate n' (skip d rnd) (fun k => ids (S k)) (addDecoration rnd (ids O) e) in
      (e', (d + d')%nat)
  end.

(** "2500 Dust": [dustPositions[i] = (Math.random() - 0.5) * 100]. *)
Definition dustPositions (rnd : nat -> R) : list R :=
  map (fun i => (rnd i - 0.5) * 100) (seq 0 (2500 * 3)).

(** [initContent()], which the constructor runs on the freshly initialised
    object: the decorations, the default photo, the dust, the layout.  The
    mode is TREE throughout, so neither call of [calculateTargets] draws a
    number: the dust starts four draws (those of the photo's constructor)
    after the decorations.  The result is the scene and the dust positions;
    the call of [onReady] is left to the host. *)
Definition initContent (rnd : nat -> R) (ids : nat -> string)
    : option (Experience * list R) :=
  let '(e1, d) := decorate 1500 rnd ids initial in
  match addPhotoToScene (skip d rnd) (ids 1500%nat) e1 with
  | None => None
  | Some e2 =>
      match calculateTargets (skip (d + 4 + 2500 * 3) rnd) e2 with
      | None => None
      | Some e3 => Some (e3, dustPositions (skip (d + 4) rnd))
      end
  end.

(** What happens to the object after [initContent]: a photo is uploaded, a
    frame is animated (the constructor animates the first one), or
    [setupMediaPipe] binds the tracker or the video. *)
Inductive Event : Type :=
| Upload (rnd : nat -> R) (idText : string)
| Tick (rnd : nat -> R) (f : Frame)
| TrackerLoaded
| VideoBound.

Definition fire (ev : Event) (e : Experience) : option Experience :=
  match ev with
  | Upload rnd idText => addPhotoToScene rnd idText e
  | Tick rnd f => animate rnd f e
  | TrackerLoaded => Some (bindHandLandmarker e)
  | VideoBound => Some (bindVideo e)
  end.

(** The events in order; [None] as soon as one throws. *)
Fixpoint run (evs : list Event) (e : Experience) : option Experience :=
  match evs with
  | [] => Some e
  | ev :: evs' =>
      match fire ev e with
      | Some e' => run evs' e'
      | None => None
      end
  end.

(** Every draw of every event is in [0,1). *)
Definition tapeOk (ev : Event) : Prop :=
  match ev with
  | Upload rnd _ | Tick rnd _ => in_unit rnd
  | _ => True
  end.

(** The palm centre of the first hand, when the frame has one, is inside
    the image. *)
Definition pointerInView (ev : Event) : Prop :=
  match ev with
  | Tick _ f =>
      forall h, sees f h -> 0 <= lx (center h) <= 1 /\ 0 <= ly (center h) <= 1
  | _ => True
  end.


(** ** Bounds and layouts *)

(** Every coordinate of [v] is in [lo, hi]. *)
Definition between (lo hi : R) (v : Vector3) : Prop :=
  lo <= x v <= hi /\ lo <= y v <= hi /\ lo <= z v <= hi.

(** The particle was made with unit scale; its scale is between 0.001 and
    4.5, its position and its target are in the cube of half-side 60, and
    its drift is at most 0.02 per axis. *)
Definition saneParticle (p : Particle) : Prop :=
  initialScale p = mkVector3 1 1 1
  /\ between 0.001 4.5 (scale (mesh p))
  /\ between (-60) 60 (position (mesh p))
  /\ between (-60) 60 (targetPos p)
  /\ between (-0.02) 0.02 (randomVelocity p).

Definition saneScene (e : Experience) : Prop :=
  forall p, In p (particles e) -> saneParticle p.

(** The targets are those of the layout of the current mode. *)
Definition laidOut (e : Experience) : Prop :=
  match mode (state e) with
  | TREE =>
      forall i p, nth_error (particles e) i = Some p ->
        targetPos p = TreeSpec.position i (List.length (particles e))
  | SCATTER =>
      forall p, In p (particles e) -> 10 <= Vector3Ops.length (targetPos p) <= 25
  | FOCUS =>
      forall p, In p (particles e) ->
        (focusTargetId e = Some (id p) -> targetPos p = front)
        /\ (focusTargetId e <> Some (id p) ->
            targetPos p <> front /\ 40 <= radial (targetPos p) <= 60)
  end.





(** What identifies a particle and never changes. *)
Definition identity (p : Particle) : string * ParticleType * Vector3 * Vector3 :=
  (id p, type p, initialScale p, randomVelocity p).

(** ** The scale a particle is heading for *)

(** In FOCUS mode the focus photo grows to 4.5 times its initial scale and
    every other particle shrinks to 0.001; in the other modes a particle
    returns to its initial scale. *)
Definition scaleGoal (md : ExperienceMode) (fid : option string) (p : Particle)
    : Vector3 :=
  match md with
  | FOCUS =>
      if isPHOTO (type p) && idIs fid (id p)
      then Vector3Ops.multiplyScalar (initialScale p) 4.5
      else ParticleOps.tiny
  | _ => initialScale p
  end.

(** [k] consecutive calls of [update] with the same mode and focus id. *)
Definition updateTimes (k : nat) (md : ExperienceMode) (fid : option string)
    (p : Particle) : Particle :=
  updates (repeat (md, fid) k) p.

(** ** Sessions *)

(** The id texts of the photos the events upload, in order. *)
Definition uploadIds (evs : list Event) : list string :=
  flat_map (fun ev => match ev with Upload _ s => [s] | _ => [] end) evs.

(** Every hand the tracker reports has the 21 landmarks of its model. *)
Definition handsOk (ev : Event) : Prop :=
  match ev with
  | Tick _ f => forall lms rest, landmarks f = Some (lms :: rest) ->
                  (21 <= List.length lms)%nat
  | _ => True
  end.

(** The pointer is in [-1,1] on both axes and the main group is turned by
    at most 1.5 about the vertical and 0.8 about the horizontal axis. *)
Definition steady (e : Experience) : Prop :=
  -1 <= handX (state e) <= 1
  /\ -1 <= handY (state e) <= 1
  /\ -1.5 <= y (mainGroupRotation e) <= 1.5
  /\ -0.8 <= x (mainGroupRotation e) <= 0.8.


(** The four flags of the [State] record. *)
Definition flags (s : State) : bool * bool * bool * bool :=
  (pinchDetected s, fistDetected s, openHandDetected s, controlsVisible s).

(** The events of a short session: a pinch, then an upload, then a frame
    without a hand. *)
Definition shortSession : list Event :=
  [Tick zeroTape pinchFrame; Upload zeroTape "d4"; Tick halfTape noHandFrame].

(** The hand tracker never gets to see a frame of the events: it is not
    loaded and does not load, or the video element is not bound and does not
    get bound, or no frame has data ([readyState] below 2, as when the
    camera is refused). *)
Definition blind (e : Experience) (evs : list Event) : Prop :=
  (handLandmarker e = false /\ ~ In TrackerLoaded evs)
  \/ (video e = false /\ ~ In VideoBound evs)
  \/ (forall rnd f, In (Tick rnd f) evs -> (readyState f < 2)%nat).





(** What [calculateTargets] and the bindings never touch: the identity of
    a particle and its object. *)
Definition body (p : Particle) : string * ParticleType * Vector3 * Vector3 * Object3D :=
  (identity p, mesh p).

(** A decoration as the loop of [initContent] makes it. *)
Definition decoration (p : Particle) : Prop :=
  type p <> PHOTO
  /\ rotation (mesh p) = Vector3Ops.zero
  /\ scale (mesh p) = mkVector3 1 1 1
  /\ between (-30) 30 (position (mesh p)).

(** ** App: the key handler *)

(** [String.prototype.toLowerCase] on a string of one-byte characters: the
    letters A to Z are mapped to a to z, every other character is left as
    it is.  On characters outside ASCII the JavaScript function may change
    the character, but it maps no character other than H and h to h, so the
    comparison with ['h'] in [handleKeyDown] comes out the same. *)
Definition lowerAscii (c : Ascii.ascii) : Ascii.ascii :=
  let n := Ascii.nat_of_ascii c in
  if (65 <=? n)%nat && (n <=? 90)%nat then Ascii.ascii_of_nat (n + 32) else c.

Fixpoint toLowerCase (s : string) : string :=
  match s with
  | EmptyString => EmptyString
  | String c s' => String (lowerAscii c) (toLowerCase s')
  end.

(** [handleKeyDown] of the [App] component, as the function from the key
    of the event and the current [controlsVisible] to the next one:
    [if (e.key.toLowerCase() === 'h') setControlsVisible(prev => !prev)]. *)
Definition handleKeyDown (key : string) (controlsVisible : bool) : bool :=
  if String.eqb (toLowerCase key) "h" then negb controlsVisible else controlsVisible.

(** The key events of a session, in order. *)
Definition keyPresses (keys : list string) (controlsVisible : bool) : bool :=
  fold_left (fun v k => handleKeyDown k v) keys controlsVisible.

(** The overlay carries the class [ui-hidden] when the controls are not
    visible. *)
Definition uiHidden (controlsVisible : bool) : bool := negb controlsVisible.

(** The key is [h] or [H]. *)
Definition isH (key : string) : bool := String.eqb key "h" || String.eqb key "H".

(** ** The arithmetic of the program *)

(** The numbers of the program are binary64 values: every arithmetic
    operation returns the double nearest to its exact result, and
    [Math.sin], [Math.cos] and [Math.acos] return a double near the value of
    the function.  A [Machine] is such an arithmetic: [fl] sends a real to
    the double it is rounded to.  The definitions above are the program read
    on the machine [exact], which does not round; they carry what does not
    depend on rounding (which branch is taken, which field is written, which
    formula is evaluated, bounds that rounding respects).  The module
    [Rounded] below is the same code on any machine; laws of the numbers are
    proved there, for every machine that is [Standard]. *)
Record Machine : Type := mkMachine {
  fl : R -> R;
  Math_sin : R -> R;
  Math_cos : R -> R;
  Math_acos : R -> R
}.

(** The machine that does not round. *)
Definition exact : Machine :=
  {| fl := fun a => a; Math_sin := sin; Math_cos := cos; Math_acos := acos |}.

(** What is used of binary64 arithmetic with rounding to nearest, on
    values of magnitude up to a million (far from overflow).  [u] is the
    unit roundoff (2^-53 for binary64), [eta] the largest error of a result
    in the subnormal range (2^-1075), [eps] the accuracy of [Math.sin] and
    [Math.cos] (one unit in the last place of a result in [-1,1], 2^-52).
    Rounding is monotone, leaves a double as it is, commutes with negation,
    and errs by at most [u] times the magnitude plus [eta]; the integers up
    to 2^53 and their halves are doubles; two different doubles are at
    least [2 * eta] apart. *)
Record Standard (M : Machine) (u eta eps : R) : Prop := mkStandard {
  unit_roundoff : 0 <= u <= 1 / 1000000;
  underflow_unit : 0 <= eta <= 1 / 1000000;
  trig_accuracy : 0 <= eps <= 1 / 1000000;
  fl_monotone : forall a b, a <= b -> fl M a <= fl M b;
  fl_idempotent : forall a, fl M (fl M a) = fl M a;
  fl_odd : forall a, fl M (- a) = - fl M a;
  fl_integer : forall n : Z, (Z.abs n <= 9007199254740992)%Z -> fl M (IZR n) = IZR n;
  fl_halves : forall n : Z, (Z.abs n <= 9007199254740992)%Z ->
                fl M (IZR n / 2) = IZR n / 2;
  fl_error : forall a, Rabs a <= 1000000 -> Rabs (fl M a - a) <= u * Rabs a + eta;
  fl_spacing : forall a b, fl M a = a -> fl M b = b -> a < b -> 2 * eta <= b - a;
  sin_range : forall a, -1 <= Math_sin M a <= 1;
  cos_range : forall a, -1 <= Math_cos M a <= 1;
  sin_accurate : forall a, Rabs (Math_sin M a - sin a) <= eps;
  cos_accurate : forall a, Rabs (Math_cos M a - cos a) <= eps
}.

(** A machine that rounds: fixed point with twenty binary digits, every
    result rounded to the nearest multiple of 2^-20, ties away from zero.
    It has no relative error and its absolute error is 2^-21. *)
Definition nearest (t : R) : Z :=
  if Rle_dec 0 t then floor (t + / 2) else (- floor (- t + / 2))%Z.

Definition grid : R := 1048576.

Definition onGrid (a : R) : R := IZR (nearest (a * grid)) / grid.

Definition fixedPoint : Machine :=
  {| fl := onGrid;
     Math_sin := fun a => onGrid (sin a);
     Math_cos := fun a => onGrid (cos a);
     Math_acos := fun a => onGrid (acos a) |}.

(** The value is a double of the machine. *)
Definition isDouble (M : Machine) (a : R) : Prop := fl M a = a.

Definition doubles (M : Machine) (v : Vector3) : Prop :=
  isDouble M (x v) /\ isDouble M (y v) /\ isDouble M (z v).

Module Rounded.

Section Ops.

Variable M : Machine.

(** The four operations, and a decimal literal of the source: each is the
    exact result, rounded.  Integer literals, 0.5 and 4.5 are doubles and
    are written as they are. *)
Definition add (a b : R) : R := fl M (a + b).
Definition sub (a b : R) : R := fl M (a - b).
Definition mul (a b : R) : R := fl M (a * b).
Definition div (a b : R) : R := fl M (a / b).
Definition lit (d : R) : R := fl M d.

(** [Math.PI] *)
Definition Math_PI : R := fl M PI.

(** One coordinate of [Vector3.lerp]: [this.x += (v.x - this.x) * alpha]. *)
Definition lerp1 (self v alpha : R) : R := add self (mul (sub v self) alpha).

Definition lerp (self v : Vector3) (alpha : R) : Vector3 :=
  mkVector3 (lerp1 (x self) (x v) alpha)
            (lerp1 (y self) (y v) alpha)
            (lerp1 (z self) (z v) alpha).

Definition multiplyScalar (self : Vector3) (s : R) : Vector3 :=
  mkVector3 (mul (x self) s) (mul (y self) s) (mul (z self) s).

(** [THREE.MathUtils.lerp(x, y, t)]: [(1 - t) * x + t * y]. *)
Definition mathLerp (a b t : R) : R := add (mul (sub 1 t) a) (mul t b).

(** [new THREE.Vector3(0.001, 0.001, 0.001)] *)
Definition tiny : Vector3 := mkVector3 (lit 0.001) (lit 0.001) (lit 0.001).

(** [Particle.update(mode, focusTargetId)] *)
Definition update (md : ExperienceMode) (focusTargetId : option string)
    (p : Particle) : Particle :=
  let isFocusTarget := idIs focusTargetId (id p) in
  let m := mesh p in
  (* Position LERP *)
  let pos := lerp (position m) (targetPos p) (lit 0.08) in
  (* Scale Logic for modes *)
  let '(scl, rot) :=
    match md with
    | FOCUS =>
        match type p with
        | PHOTO =>
            if isFocusTarget then
              let focusScale := multiplyScalar (initialScale p) 4.5 in
              (lerp (scale m) focusScale (lit 0.1),
               mkVector3 (x (rotation m))
                         (mathLerp (y (rotation m)) 0 (lit 0.1))
                         (z (rotation m)))
            else (lerp (scale m) tiny (lit 0.1), rotation m)
        | _ => (lerp (scale m) tiny (lit 0.1), rotation m)
        end
    | _ => (lerp (scale m) (initialScale p) (lit 0.1), rotation m)
    end in
  (* Rotation Logic *)
  let rot' :=
    match md with
    | SCATTER =>
        mkVector3 (add (x rot) (x (randomVelocity p)))
                  (add (y rot) (y (randomVelocity p)))
                  (add (z rot) (z (randomVelocity p)))
    | _ => mkVector3 (mul (x rot) (lit 0.92)) (y rot) (mul (z rot) (lit 0.92))
    end in
  {| mesh := {| position := pos; rotation := rot'; scale := scl |};
     type := type p;
     targetPos := targetPos p;
     randomVelocity := randomVelocity p;
     initialScale := initialScale p;
     id := id p |}.

(** [update] called once per element of [calls], each call with its own
    mode and focus id, and [k] calls with the same mode and focus id. *)
Definition updates (calls : list (ExperienceMode * option string)) (p : Particle)
    : Particle :=
  fold_left (fun q c => update (fst c) (snd c) q) calls p.

Definition updateTimes (k : nat) (md : ExperienceMode) (fid : option string)
    (p : Particle) : Particle :=
  updates (repeat (md, fid) k) p.

(** The scale [update] steers to: the clone of the initial scale times 4.5
    for the focus photo in FOCUS mode, the vector of 0.001 for the others
    in FOCUS mode, the initial scale otherwise. *)
Definition scaleGoal (md : ExperienceMode) (fid : option string) (p : Particle)
    : Vector3 :=
  match md with
  | FOCUS =>
      if isPHOTO (type p) && idIs fid (id p)
      then multiplyScalar (initialScale p) 4.5
      else tiny
  | _ => initialScale p
  end.

(** The first statement of [calculateTargets]. *)
Definition selectFocus (rnd : nat -> R) (md : ExperienceMode)
    (cur : option string) (photos : list Particle) : option (option string * nat) :=
  match md with
  | FOCUS =>
      if negb (truthy cur) && (0 <? List.length photos)%nat then
        match arrayGet photos (floor (mul (rnd 0%nat) (INR (List.length photos)))) with
        | Some p => Some (Some (id p), 1%nat)
        | None => None
        end
      else Some (cur, 0%nat)
  | _ => Some (None, 0%nat)
  end.

(** The body of the [forEach] callback of [calculateTargets]. *)
Definition layoutTarget (rnd : nat -> R) (md : ExperienceMode)
    (fid : option string) (n : nat) (i k : nat) (p : Particle) : Vector3 * nat :=
  match md with
  | TREE =>
      let t := div (INR i) (INR n) in
      let radius := mul maxRadius (sub 1 t) in
      let angle := mul (mul t 50) Math_PI in
      (mkVector3 (mul (Math_cos M angle) radius)
                 (sub (mul t height) (div height 2))
                 (mul (Math_sin M angle) radius),
       0%nat)
  | SCATTER =>
      let theta := mul (mul (rnd k) Math_PI) 2 in
      let phi := Math_acos M (sub (mul 2 (rnd (k + 1)%nat)) 1) in
      let r := add 10 (mul (rnd (k + 2)%nat) 15) in
      (mkVector3 (mul (mul r (Math_sin M phi)) (Math_cos M theta))
                 (mul (mul r (Math_sin M phi)) (Math_sin M theta))
                 (mul r (Math_cos M phi)),
       3%nat)
  | FOCUS =>
      if idIs fid (id p) then (front, 0%nat)
      else
        (* Push others far away *)
        let angle := mul (mul (rnd k) Math_PI) 2 in
        let r := add 40 (mul (rnd (k + 1)%nat) 20) in
        (mkVector3 (mul (Math_cos M angle) r)
                   (mul (sub (rnd (k + 2)%nat) 0.5) 40)
                   (mul (Math_sin M angle) r),
         3%nat)
  end.

Fixpoint forEachTarget (rnd : nat -> R) (md : ExperienceMode)
    (fid : option string) (n : nat) (i k : nat) (ps : list Particle) : list Particle :=
  match ps with
  | [] => []
  | p :: ps' =>
      let '(v, d) := layoutTarget rnd md fid n i k p in
      ParticleOps.setTarget v p :: forEachTarget rnd md fid n (S i) (k + d) ps'
  end.

Definition calculateTargets (rnd : nat -> R) (e : Experience) : option Experience :=
  let md := mode (state e) in
  let photos := photosOf (particles e) in
  match selectFocus rnd md (focusTargetId e) photos with
  | None => None
  | Some (fid, d) =>
      Some (withParticles
              (forEachTarget rnd md fid (List.length (particles e)) 0 d (particles e))
              (withFocusTargetId fid e))
  end.

End Ops.

End Rounded.

(** [Vector3.lerp] on the binary64 numbers themselves, the primitive
    floating-point numbers of Rocq: [+], [-] and [*] are the IEEE 754
    operations with rounding to nearest, and a decimal literal is the
    nearest double, as in JavaScript.  Closed terms compute. *)
Module Binary64.

Import PrimFloat FloatOps SpecFloat.

#[local] Set Warnings "-inexact-float".

Definition Vector3 : Type := float * float * float.

(** One coordinate: [this.x += (v.x - this.x) * alpha]. *)
Definition lerp1 (self v alpha : float) : float := (self + (v - self) * alpha)%float.

Definition lerp (self v : Vector3) (alpha : float) : Vector3 :=
  let '(sx, sy, sz) := self in
  let '(vx, vy, vz) := v in
  (lerp1 sx vx alpha, lerp1 sy vy alpha, lerp1 sz vz alpha).

(** The position after [k] calls of [update] with the target [v]:
    [this.mesh.position.lerp(this.targetPos, 0.08)] each time. *)
Definition positionAfter (k : nat) (self v : Vector3) : Vector3 :=
  Nat.iter k (fun s => lerp s v 0.08%float) self.

(** Where a photo starts, the point in front of the camera, and the place
    where the photo comes to rest. *)
Definition origin : Vector3 := (0, 0, 0)%float.
Definition front : Vector3 := (0, 2, 35)%float.
Definition rest : Vector3 := (0, 1.9999999999999987, 34.99999999999996)%float.

(** The coordinates in which [a] is below [b]. *)
Definition below (a b : Vector3) : bool * bool * bool :=
  let '(a1, a2, a3) := a in
  let '(b1, b2, b3) := b in
  (ltb a1 b1, ltb a2 b2, ltb a3 b3).

(** [Math.PI], and [Math.acos], [Math.sin] and [Math.cos] at the arguments
    at which the example below evaluates them: the doubles nearest to the
    values of the functions there (the exact values are within 0.16 of a
    unit in the last place of them), which is what the engines return;
    [Math.sin(0)] is 0 and [Math.cos(0)] is 1 by the language standard.
    The tables have no other entry. *)
Definition Math_PI : float := 3.141592653589793%float.

Definition Math_acos (v : float) : float :=
  if eqb v 0.4921875 then 1.056195399217514%float else nan.

Definition Math_sin (v : float) : float :=
  if eqb v 0 then 0%float
  else if eqb v 1.056195399217514 then 0.8704892100673908%float else nan.

Definition Math_cos (v : float) : float :=
  if eqb v 0 then 1%float
  else if eqb v 1.056195399217514 then 0.4921875%float else nan.

(** The SCATTER branch of [calculateTargets] for the draws [a], [b], [c]. *)
Definition scatterTarget (a b c : float) : Vector3 :=
  let theta := (a * Math_PI * 2)%float in
  let phi := Math_acos (2 * b - 1)%float in
  let r := (10 + c * 15)%float in
  (r * Math_sin phi * Math_cos theta,
   r * Math_sin phi * Math_sin theta,
   r * Math_cos phi)%float.

(** The draws of the example, and the target they give. *)
Definition scattered : Vector3 := scatterTarget 0 0.74609375 0.
Definition inside : Vector3 := (8.704892100673908, 0, 4.921875)%float.

(** The inner radius of the shell. *)
Definition inner : float := 10%float.

(** The value of a double times 2^104, when that is an integer. *)
Definition fixed (f : float) : option Z :=
  match Prim2SF f with
  | S754_zero _ => Some 0%Z
  | S754_finite s m e =>
      if (0 <=? e + 104)%Z
      then Some ((if s then Z.neg m else Z.pos m) * 2 ^ (e + 104))%Z
      else None
  | _ => None
  end.

(** The square of the distance from the origin, times 2^208, without
    rounding. *)
Definition squaredLength (v : Vector3) : option Z :=
  let '(v1, v2, v3) := v in
  match fixed v1, fixed v2, fixed v3 with
  | Some n1, Some n2, Some n3 => Some (n1 * n1 + n2 * n2 + n3 * n3)%Z
  | _, _, _ => None
  end.

End Binary64.

(** How far rounding can take one step of a lerp inside the stage (every
    coordinate within 60 of the origin) from the exact step, and how far it
    can take a target of a layout from the sphere or the ring it is drawn
    on. *)
Definition slack (u eta : R) : R := 120 * u + 123 * eta.

(** [v] lies between [a] and [b], whichever is the larger. *)
Definition betwixt (a b v : R) : Prop := Rmin a b <= v <= Rmax a b.

Definition betwixt3 (a b v : Vector3) : Prop :=
  betwixt (x a) (x b) (x v) /\ betwixt (y a) (y b) (y v) /\ betwixt (z a) (z b) (z v).

Definition tolerance (u eta eps : R) : R := 150 * (u + eps) + 6 * eta.

(** The Euclidean norm of three reals. *)
Definition norm3 (a b c : R) : R := sqrt (a * a + b * b + c * c).

(** [xk] is where [k] steps of a lerp by the factor [a0] towards [t] can
    have taken the coordinate [x0] on the machine: a double between [x0]
    and [t] whose gap to [t] is [(1 - a0)^k] times the first gap, up to
    [c * slack]; [c] is [1 / a0]. *)
Definition tracks (M : Machine) (u eta a0 c t x0 : R) (k : nat) (xk : R) : Prop :=
  isDouble M xk
  /\ betwixt x0 t xk
  /\ - (c * slack u eta * (1 - (1 - a0) ^ k))
     <= (t - xk) - (1 - a0) ^ k * (t - x0)
     <= c * slack u eta * (1 - (1 - a0) ^ k).

Definition tracks3 (M : Machine) (u eta a0 c : R) (t v0 : Vector3) (k : nat)
    (vk : Vector3) : Prop :=
  tracks M u eta a0 c (x t) (x v0) k (x vk)
  /\ tracks M u eta a0 c (y t) (y v0) k (y vk)
  /\ tracks M u eta a0 c (z t) (z v0) k (z vk).

(** A photo at the origin on its way to the point in front of the
    camera, and one that has been turned and is being scaled down. *)
Definition traveller : Particle := ParticleOps.setTarget front (photo "c3").

Definition tilted : Particle :=
  {| mesh := {| position := Vector3Ops.zero;
                rotation := mkVector3 1 2 (-1);
                scale := mkVector3 4 4 4 |};
     type := PHOTO;
     targetPos := front;
     randomVelocity := mkVector3 0.02 0 (-0.02);
     initialScale := mkVector3 1 1 1;
     id := "c3" |}.

(** * Proofs *)

(** ** Arithmetic *)

Lemma Rltb_true (a b : R) : a < b -> Rltb a b = true.
Proof. intros H. unfold Rltb. destruct (Rlt_dec a b); [reflexivity | contradiction]. Qed.

Lemma Rltb_false (a b : R) : ~ a < b -> Rltb a b = false.
Proof. intros H. unfold Rltb. destruct (Rlt_dec a b); [contradiction | reflexivity]. Qed.

Lemma Reqb_refl (a : R) : Reqb a a = true.
Proof. unfold Reqb. destruct (Req_dec_T a a); congruence. Qed.

Lemma Reqb_eq (a b : R) : Reqb a b = true <-> a = b.
Proof. unfold Reqb. destruct (Req_dec_T a b); split; congruence. Qed.

Lemma sqrt_scaled (c s : R) : 0 <= c -> sqrt (c * c * s) = c * sqrt s.
Proof.
  intros Hc.
  rewrite sqrt_mult_alt by nra.
  now rewrite sqrt_square.
Qed.

Lemma hypot_circle (a r : R) : 0 <= r -> hypot (cos a * r) (sin a * r) = r.
Proof.
  intros Hr. unfold hypot.
  replace (cos a * r * (cos a * r) + sin a * r * (sin a * r))
    with (r * r * ((sin a)² + (cos a)²)) by (unfold Rsqr; ring).
  rewrite sin2_cos2, Rmult_1_r.
  now apply sqrt_square.
Qed.

Lemma length_sphere (r phi theta : R) :
  0 <= r ->
  Vector3Ops.length
    (mkVector3 (r * sin phi * cos theta) (r * sin phi * sin theta) (r * cos phi)) = r.
Proof.
  intros Hr. unfold Vector3Ops.length; cbn [x y z].
  replace (r * sin phi * cos theta * (r * sin phi * cos theta)
           + r * sin phi * sin theta * (r * sin phi * sin theta)
           + r * cos phi * (r * cos phi))
    with (r * r * ((sin phi)² * ((sin theta)² + (cos theta)²) + (cos phi)²))
    by (unfold Rsqr; ring).
  rewrite sin2_cos2, Rmult_1_r, sin2_cos2, Rmult_1_r.
  now apply sqrt_square.
Qed.

Lemma floor_index (r : R) (n : nat) :
  0 <= r < 1 -> (0 < n)%nat ->
  (0 <= floor (r * INR n))%Z /\ (Z.to_nat (floor (r * INR n)) < n)%nat.
Proof.
  intros [H0 H1] Hn. unfold floor.
  assert (Hpos : 0 < INR n) by (apply lt_0_INR; exact Hn).
  destruct (base_Int_part (r * INR n)) as [Hle Hgt].
  assert (Hlo : (0 <= Int_part (r * INR n))%Z).
  { apply Z.lt_succ_r. apply lt_IZR. rewrite succ_IZR. nra. }
  split; [exact Hlo |].
  apply Nat2Z.inj_lt. rewrite Z2Nat.id by exact Hlo.
  apply lt_IZR. rewrite <- INR_IZR_INZ. nra.
Qed.

Lemma floor_0 : floor 0 = 0%Z.
Proof. unfold floor. symmetry. apply Int_part_spec. simpl. lra. Qed.

(** ** Particle.update *)

Lemma update_targetPos md fid p :
  targetPos (ParticleOps.update md fid p) = targetPos p.
Proof. unfold ParticleOps.update. destruct md, (type p), (idIs fid (id p)); reflexivity. Qed.

Lemma update_id md fid p : id (ParticleOps.update md fid p) = id p.
Proof. unfold ParticleOps.update. destruct md, (type p), (idIs fid (id p)); reflexivity. Qed.

Lemma update_type md fid p : type (ParticleOps.update md fid p) = type p.
Proof. unfold ParticleOps.update. destruct md, (type p), (idIs fid (id p)); reflexivity. Qed.

Lemma update_position md fid p :
  position (mesh (ParticleOps.update md fid p))
  = Vector3Ops.lerp (position (mesh p)) (targetPos p) 0.08.
Proof. unfold ParticleOps.update. destruct md, (type p), (idIs fid (id p)); reflexivity. Qed.


Lemma pow_092_range k : 0 < 0.92 ^ k <= 1.
Proof.
  split; [apply pow_lt; lra |].
  rewrite <- (pow1 k). apply pow_incr. lra.
Qed.

Lemma distanceTo_nonneg a b : 0 <= Vector3Ops.distanceTo a b.
Proof. unfold Vector3Ops.distanceTo. apply sqrt_pos. Qed.

(** ** The forEach of calculateTargets *)

Section ForEachTarget.

Variable rnd : nat -> R.
Variable md : ExperienceMode.
Variable fid : option string.
Variable n : nat.

(** The loop only writes targets: any reading [f] of a particle that does
    not look at the target is the same before and after. *)
Lemma forEachTarget_map {A : Type} (f : Particle -> A) :
  (forall v p, f (ParticleOps.setTarget v p) = f p) ->
  forall i k ps, map f (forEachTarget rnd md fid n i k ps) = map f ps.
Proof.
  intros Hf i k ps. revert i k.
  induction ps as [| p ps IH]; intros i k; cbn [forEachTarget]; [reflexivity |].
  destruct (layoutTarget rnd md fid n i k p) as [v d]. cbn [map].
  now rewrite Hf, IH.
Qed.

Lemma forEachTarget_ids i k ps :
  map id (forEachTarget rnd md fid n i k ps) = map id ps.
Proof. now apply forEachTarget_map. Qed.

Lemma forEachTarget_types i k ps :
  map type (forEachTarget rnd md fid n i k ps) = map type ps.
Proof. now apply forEachTarget_map. Qed.

Lemma forEachTarget_meshes i k ps :
  map mesh (forEachTarget rnd md fid n i k ps) = map mesh ps.
Proof. now apply forEachTarget_map. Qed.

(** Every particle that comes out is a particle that went in, with the
    target the callback computed at the particle's index and at some
    position of the tape. *)
Lemma forEachTarget_nth i k ps j q :
  nth_error (forEachTarget rnd md fid n i k ps) j = Some q ->
  exists p k',
    nth_error ps j = Some p
    /\ q = ParticleOps.setTarget (fst (layoutTarget rnd md fid n (i + j) k' p)) p.
Proof.
  revert i k j. induction ps as [| p ps IH]; intros i k j H; cbn [forEachTarget] in H.
  - destruct j; discriminate.
  - destruct (layoutTarget rnd md fid n i k p) as [v d] eqn:E.
    destruct j as [| j]; cbn [nth_error] in *.
    + injection H as <-. exists p, k. rewrite Nat.add_0_r, E. now split.
    + destruct (IH _ _ _ H) as (p' & k' & Hp & Hq).
      exists p', k'. split; [exact Hp |].
      now rewrite <- Nat.add_succ_comm.
Qed.

Lemma forEachTarget_In i k ps q :
  In q (forEachTarget rnd md fid n i k ps) ->
  exists p j k',
    In p ps
    /\ q = ParticleOps.setTarget (fst (layoutTarget rnd md fid n j k' p)) p.
Proof.
  intros H. apply In_nth_error in H. destruct H as [j H].
  destruct (forEachTarget_nth _ _ _ _ _ H) as (p & k' & Hp & Hq).
  exists p, (i + j)%nat, k'. split; [| exact Hq].
  eapply nth_error_In; exact Hp.
Qed.

End ForEachTarget.

(** ** Strings, arrays and photos *)

Lemma idIs_true fid s : idIs fid s = true <-> fid = Some s.
Proof.
  destruct fid as [t |]; cbn.
  - rewrite String.eqb_eq. split; congruence.
  - split; discriminate.
Qed.

Lemma idIs_false fid s : idIs fid s = false <-> fid <> Some s.
Proof.
  rewrite <- idIs_true. destruct (idIs fid s); split; congruence.
Qed.


Lemma arrayGet_In {A : Type} (a : list A) (i : Z) (v : A) :
  arrayGet a i = Some v -> In v a.
Proof.
  unfold arrayGet. destruct (i <? 0)%Z; [discriminate |]. apply nth_error_In.
Qed.

Lemma arrayGet_floor {A : Type} (a : list A) (r : R) :
  0 <= r < 1 -> (0 < List.length a)%nat ->
  exists v, arrayGet a (floor (r * INR (List.length a))) = Some v.
Proof.
  intros Hr Hn. destruct (floor_index r _ Hr Hn) as [Hlo Hhi].
  unfold arrayGet. apply Z.ltb_ge in Hlo. rewrite Hlo.
  destruct (nth_error a (Z.to_nat (floor (r * INR (List.length a))))) as [v |] eqn:E.
  - now exists v.
  - apply nth_error_None in E. lia.
Qed.

Lemma photosOf_In ps p : In p (photosOf ps) <-> In p ps /\ type p = PHOTO.
Proof.
  unfold photosOf. rewrite filter_In.
  destruct (type p); cbn; intuition congruence.
Qed.


(** When no particle is a PHOTO the list of photos is empty. *)
Lemma photosOf_none ps :
  (forall p, In p ps -> type p <> PHOTO) -> photosOf ps = [].
Proof.
  intros H. destruct (photosOf ps) as [| p l] eqn:E; [reflexivity |].
  assert (Hp : In p (photosOf ps)) by (rewrite E; now left).
  apply photosOf_In in Hp. destruct Hp as [Hin Ht]. now apply H in Hin.
Qed.



(** ** calculateTargets on a tape of draws in [0,1) *)

Lemma radial_front : radial front = 35.
Proof.
  unfold radial, hypot, front; cbn [x z].
  replace (0 * 0 + 35 * 35) with (35 * 35) by ring.
  apply sqrt_square. lra.
Qed.

Lemma layoutTarget_TREE rnd fid n i k p :
  fst (layoutTarget rnd TREE fid n i k p) = TreeSpec.position i n.
Proof.
  unfold layoutTarget, TreeSpec.position, TreeSpec.radius, TreeSpec.angle,
    TreeSpec.height, TreeSpec.t, maxRadius, height; cbn [fst].
  replace (INR i / INR n * 50 * PI) with (INR i / INR n * (50 * PI)) by ring.
  f_equal; [ring | lra | ring].
Qed.

Lemma layoutTarget_FOCUS_hit rnd fid n i k p :
  idIs fid (id p) = true ->
  fst (layoutTarget rnd FOCUS fid n i k p) = front.
Proof. intros H. unfold layoutTarget. now rewrite H. Qed.



Lemma calculateTargets_inv rnd e e' :
  calculateTargets rnd e = Some e' ->
  exists fid d,
    selectFocus rnd (mode (state e)) (focusTargetId e) (photosOf (particles e))
    = Some (fid, d)
    /\ e' = withParticles
              (forEachTarget rnd (mode (state e)) fid (List.length (particles e)) 0 d
                 (particles e))
              (withFocusTargetId fid e).
Proof.
  unfold calculateTargets.
  destruct (selectFocus rnd (mode (state e)) (focusTargetId e) (photosOf (particles e)))
    as [[fid d] |]; [| discriminate].
  intros H. injection H as <-. now exists fid, d.
Qed.

(** What [calculateTargets] leaves alone. *)
Lemma calculateTargets_frame rnd e e' :
  calculateTargets rnd e = Some e' ->
  state e' = state e
  /\ lastVideoTime e' = lastVideoTime e
  /\ handLandmarker e' = handLandmarker e
  /\ video e' = video e
  /\ mainGroupRotation e' = mainGroupRotation e
  /\ dustRotationY e' = dustRotationY e
  /\ map id (particles e') = map id (particles e)
  /\ map type (particles e') = map type (particles e)
  /\ map mesh (particles e') = map mesh (particles e).
Proof.
  intros H. destruct (calculateTargets_inv _ _ _ H) as (fid & d & _ & ->).
  cbn. rewrite forEachTarget_ids, forEachTarget_types, forEachTarget_meshes.
  repeat split.
Qed.

Section Tape.

Variable rnd : nat -> R.
Hypothesis rnd_unit : in_unit rnd.

Lemma layoutTarget_SCATTER fid n i k p :
  10 <= Vector3Ops.length (fst (layoutTarget rnd SCATTER fid n i k p)) < 25.
Proof.
  unfold layoutTarget; cbn [fst].
  pose proof (rnd_unit (k + 2)%nat) as H.
  rewrite length_sphere by lra. lra.
Qed.

Lemma layoutTarget_FOCUS_miss fid n i k p :
  idIs fid (id p) = false ->
  40 <= radial (fst (layoutTarget rnd FOCUS fid n i k p)) < 60
  /\ -20 <= y (fst (layoutTarget rnd FOCUS fid n i k p)) < 20
  /\ fst (layoutTarget rnd FOCUS fid n i k p) <> front.
Proof.
  intros Hid. unfold layoutTarget. rewrite Hid; cbn [fst].
  pose proof (rnd_unit (k + 1)%nat) as H1. pose proof (rnd_unit (k + 2)%nat) as H2.
  assert (Hrad : radial (mkVector3 (cos (rnd k * PI * 2) * (40 + rnd (k + 1)%nat * 20))
                                   ((rnd (k + 2)%nat - 0.5) * 40)
                                   (sin (rnd k * PI * 2) * (40 + rnd (k + 1)%nat * 20)))
                 = 40 + rnd (k + 1)%nat * 20).
  { unfold radial; cbn [x z]. apply hypot_circle. lra. }
  split; [rewrite Hrad; lra |].
  split; [cbn [y]; lra |].
  intros E. rewrite E, radial_front in Hrad. lra.
Qed.

(** The index [Math.floor(Math.random() * photos.length)] is in range, so
    the selection never reads [undefined]. *)
Lemma selectFocus_total md cur photos :
  exists fid d, selectFocus rnd md cur photos = Some (fid, d).
Proof.
  unfold selectFocus. destruct md; try (now eexists; eexists).
  destruct (negb (truthy cur) && (0 <? List.length photos)%nat) eqn:E;
    [| now eexists; eexists].
  apply andb_prop in E. destruct E as [_ E]. apply Nat.ltb_lt in E.
  destruct (arrayGet_floor photos (rnd 0%nat) (rnd_unit 0%nat) E) as [v Hv].
  rewrite Hv. now eexists; eexists.
Qed.

Lemma calculateTargets_total e : exists e', calculateTargets rnd e = Some e'.
Proof.
  unfold calculateTargets.
  destruct (selectFocus_total (mode (state e)) (focusTargetId e)
              (photosOf (particles e))) as (fid & d & ->).
  now eexists.
Qed.


(** The three layouts, read off the list the loop returns. *)

Lemma forEachTarget_SCATTER fid n i k ps q :
  In q (forEachTarget rnd SCATTER fid n i k ps) ->
  10 <= Vector3Ops.length (targetPos q) < 25.
Proof.
  intros H. destruct (forEachTarget_In _ _ _ _ _ _ _ _ H) as (p & j & k' & _ & ->).
  cbn [targetPos ParticleOps.setTarget]. apply layoutTarget_SCATTER.
Qed.

Lemma forEachTarget_FOCUS fid n i k ps q :
  In q (forEachTarget rnd FOCUS fid n i k ps) ->
  (fid = Some (id q) -> targetPos q = front)
  /\ (fid <> Some (id q) ->
      targetPos q <> front
      /\ 40 <= radial (targetPos q) < 60
      /\ -20 <= y (targetPos q) < 20).
Proof.
  intros H. destruct (forEachTarget_In _ _ _ _ _ _ _ _ H) as (p & j & k' & _ & ->).
  cbn [id targetPos ParticleOps.setTarget]. split.
  - intros E. apply layoutTarget_FOCUS_hit. now apply idIs_true.
  - intros NE. apply idIs_false in NE.
    destruct (layoutTarget_FOCUS_miss fid n j k' p NE) as (H1 & H2 & H3).
    now repeat split.
Qed.


End Tape.

Lemma forEachTarget_TREE rnd fid n i k ps j q :
  nth_error (forEachTarget rnd TREE fid n i k ps) j = Some q ->
  targetPos q = TreeSpec.position (i + j) n.
Proof.
  intros H. destruct (forEachTarget_nth _ _ _ _ _ _ _ _ _ H) as (p & k' & _ & ->).
  cbn [targetPos ParticleOps.setTarget]. apply layoutTarget_TREE.
Qed.

(** The three layouts, as equations on [calculateTargets]. *)

Lemma calculateTargets_TREE rnd e :
  mode (state e) = TREE ->
  calculateTargets rnd e
  = Some (withParticles
            (forEachTarget rnd TREE None (List.length (particles e)) 0 0 (particles e))
            (withFocusTargetId None e)).
Proof. intros H. unfold calculateTargets. now rewrite H. Qed.



Lemma same_ids_same_length (ps ps' : list Particle) :
  map id ps' = map id ps -> List.length ps' = List.length ps.
Proof. intros H. apply (f_equal (@List.length string)) in H. now rewrite !length_map in H. Qed.

(** ** Layouts *)

Lemma TreeSpec_base n :
  (0 < n)%nat ->
  TreeSpec.radius 0 n = 14 /\ TreeSpec.height 0 n = -14
  /\ TreeSpec.position 0 n = mkVector3 14 (-14) 0.
Proof.
  intros Hn. apply lt_0_INR in Hn.
  assert (Ht : TreeSpec.t 0 n = 0) by (unfold TreeSpec.t; cbn [INR]; field; lra).
  unfold TreeSpec.position, TreeSpec.radius, TreeSpec.height, TreeSpec.angle.
  rewrite Ht, !Rmult_0_l, cos_0, sin_0.
  repeat split; try f_equal; ring.
Qed.

Lemma TreeSpec_apex n :
  (0 < n)%nat ->
  TreeSpec.radius (n - 1) n = 14 / INR n
  /\ TreeSpec.height (n - 1) n = 14 - 28 / INR n.
Proof.
  intros Hn.
  assert (Hpos : 0 < INR n) by (apply lt_0_INR; exact Hn).
  assert (Ht : TreeSpec.t (n - 1) n = 1 - 1 / INR n).
  { unfold TreeSpec.t. rewrite minus_INR by lia. cbn [INR]. field. lra. }
  unfold TreeSpec.radius, TreeSpec.height. rewrite Ht. split; field; lra.
Qed.

Lemma TreeSpec_apex_1501 n :
  (1501 <= n)%nat ->
  0 < TreeSpec.radius (n - 1) n < 0.01
  /\ 0 < 14 - TreeSpec.height (n - 1) n < 0.02.
Proof.
  intros Hn.
  assert (Hbig : 1501 <= INR n).
  { apply le_INR in Hn. rewrite INR_IZR_INZ in Hn. cbn in Hn. exact Hn. }
  destruct (TreeSpec_apex n ltac:(lia)) as [-> ->].
  assert (Hinv : 0 < / INR n < 1 / 1500).
  { split; [apply Rinv_0_lt_compat; lra |].
    unfold Rdiv. rewrite Rmult_1_l. apply Rinv_lt_contravar; nra. }
  unfold Rdiv. lra.
Qed.

(** C4.  In TREE mode [calculateTargets] returns, keeps the particles in
    their order, and gives the particle at index i the position the
    specification words: (radius cos(angle), height, radius sin(angle)) with
    t = i/N, radius = 14(1-t), angle = t 50 pi, height = 28 t - 14.  With
    N > 0, index 0 has radius 14 and height -14 (position (14, -14, 0)) and
    index N-1 has radius 14/N and height 14 - 28/N; from N = 1501 on, the
    size of the collection at the first layout, these are within 0.01 of 0
    and within 0.02 of 14. *)
Theorem tree_layout :
  forall (rnd : nat -> R) (e : Experience),
    mode (state e) = TREE ->
    exists e',
      calculateTargets rnd e = Some e'
      /\ map id (particles e') = map id (particles e)
      /\ (forall i p', nth_error (particles e') i = Some p' ->
            targetPos p' = TreeSpec.position i (List.length (particles e)))
      /\ ((0 < List.length (particles e))%nat ->
            TreeSpec.radius 0 (List.length (particles e)) = 14
            /\ TreeSpec.height 0 (List.length (particles e)) = -14
            /\ TreeSpec.position 0 (List.length (particles e)) = mkVector3 14 (-14) 0
            /\ TreeSpec.radius (List.length (particles e) - 1) (List.length (particles e))
               = 14 / INR (List.length (particles e))
            /\ TreeSpec.height (List.length (particles e) - 1) (List.length (particles e))
               = 14 - 28 / INR (List.length (particles e)))
      /\ ((1501 <= List.length (particles e))%nat ->
            0 < TreeSpec.radius (List.length (particles e) - 1) (List.length (particles e))
              < 0.01
            /\ 0 < 14 - TreeSpec.height (List.length (particles e) - 1)
                                        (List.length (particles e)) < 0.02).
Proof.
  intros rnd e Hmode. rewrite (calculateTargets_TREE rnd e Hmode).
  eexists. split; [reflexivity |]. cbn [particles withParticles].
  split; [apply forEachTarget_ids |].
  split; [| split].
  - intros i p' H. exact (forEachTarget_TREE _ _ _ _ _ _ _ _ H).
  - intros Hn.
    destruct (TreeSpec_base _ Hn) as (H1 & H2 & H3).
    destruct (TreeSpec_apex _ Hn) as (H4 & H5).
    repeat split; assumption.
  - apply TreeSpec_apex_1501.
Qed.

(** ** processGestures *)

Lemma ExperienceMode_eqb_eq a b : ExperienceMode_eqb a b = true <-> a = b.
Proof. destruct a, b; cbn; split; congruence. Qed.

Lemma ExperienceMode_eqb_refl a : ExperienceMode_eqb a a = true.
Proof. now apply ExperienceMode_eqb_eq. Qed.

Lemma requestMode_same rnd e : requestMode rnd (mode (state e)) e = Some e.
Proof. unfold requestMode. now rewrite ExperienceMode_eqb_refl. Qed.

Lemma requestMode_inv rnd m e e' :
  requestMode rnd m e = Some e' ->
  (m = mode (state e) /\ e' = e)
  \/ (m <> mode (state e)
      /\ calculateTargets rnd (withState (withMode m (state e)) e) = Some e').
Proof.
  unfold requestMode. destruct (ExperienceMode_eqb m (mode (state e))) eqn:E; cbn [negb].
  - apply ExperienceMode_eqb_eq in E. intros H. injection H as <-. now left.
  - intros H. right. split; [| exact H].
    intros ->. now rewrite ExperienceMode_eqb_refl in E.
Qed.

Lemma requestMode_total rnd m e :
  in_unit rnd -> exists e', requestMode rnd m e = Some e'.
Proof.
  intros Hr. unfold requestMode.
  destruct (negb (ExperienceMode_eqb m (mode (state e)))).
  - now apply calculateTargets_total.
  - now eexists.
Qed.

Lemma handleHand_points rnd lms e :
  handleHand rnd lms e
  = match handPoints lms with
    | Some h => requestMode rnd (requested (mode (state e)) h) (pointed h e)
    | None => None
    end.
Proof. reflexivity. Qed.

(** A hand with at least 21 landmarks has every landmark that is read. *)
Lemma handPoints_total lms :
  (21 <= List.length lms)%nat -> exists h, handPoints lms = Some h.
Proof.
  intros H. unfold handPoints.
  assert (Hn : forall k, (k < 21)%nat -> exists v, nth_error lms k = Some v).
  { intros k Hk. destruct (nth_error lms k) eqn:E; [now eexists |].
    apply nth_error_None in E. lia. }
  destruct (Hn 4%nat ltac:(lia)) as [? ->]. destruct (Hn 8%nat ltac:(lia)) as [? ->].
  destruct (Hn 0%nat ltac:(lia)) as [? ->]. destruct (Hn 12%nat ltac:(lia)) as [? ->].
  destruct (Hn 16%nat ltac:(lia)) as [? ->]. destruct (Hn 20%nat ltac:(lia)) as [? ->].
  destruct (Hn 9%nat ltac:(lia)) as [? ->]. now eexists.
Qed.

(** What a call of [processGestures] that returns does to the fields other
    than the pointer, the mode, the focus target and the targets. *)
Lemma requestMode_frame rnd m e e' :
  requestMode rnd m e = Some e' ->
  lastVideoTime e' = lastVideoTime e
  /\ handLandmarker e' = handLandmarker e
  /\ video e' = video e
  /\ mainGroupRotation e' = mainGroupRotation e
  /\ dustRotationY e' = dustRotationY e
  /\ map id (particles e') = map id (particles e)
  /\ map type (particles e') = map type (particles e)
  /\ map mesh (particles e') = map mesh (particles e).
Proof.
  intros H. destruct (requestMode_inv _ _ _ _ H) as [[_ ->] | [_ Hc]].
  - repeat split.
  - destruct (calculateTargets_frame _ _ _ Hc) as (_ & H1 & H2 & H3 & H4 & H5 & H6 & H7 & H8).
    repeat split; assumption.
Qed.

Lemma handleHand_frame rnd lms e e' :
  handleHand rnd lms e = Some e' ->
  lastVideoTime e' = lastVideoTime e
  /\ handLandmarker e' = handLandmarker e
  /\ video e' = video e
  /\ mainGroupRotation e' = mainGroupRotation e
  /\ dustRotationY e' = dustRotationY e
  /\ map id (particles e') = map id (particles e)
  /\ map type (particles e') = map type (particles e)
  /\ map mesh (particles e') = map mesh (particles e).
Proof.
  rewrite handleHand_points. destruct (handPoints lms) as [h |]; [| discriminate].
  intros H. exact (requestMode_frame _ _ _ _ H).
Qed.

(** The call returned the state [e'] that the goal describes. *)
Ltac returned :=
  let H := fresh "H" in intros H; injection H as <-; now repeat split.

(** After a call that passed the readiness guard, the recorded time is the
    time of the frame. *)
Lemma processGestures_records_time rnd f e e' :
  ready f e = true ->
  processGestures rnd f e = Some e' ->
  lastVideoTime e' = currentTime f
  /\ handLandmarker e' = handLandmarker e
  /\ video e' = video e.
Proof.
  intros Hready. unfold processGestures. rewrite Hready. cbn [negb].
  destruct (Reqb (currentTime f) (lastVideoTime e)) eqn:E; cbn [negb].
  - apply Reqb_eq in E. returned.
  - destruct (landmarks f) as [[| lms rest] |]; [returned | | returned].
    intros H. apply handleHand_frame in H.
    destruct H as (H1 & H2 & H3 & _). cbn in *. now repeat split.
Qed.

Lemma processGestures_stale rnd f e :
  lastVideoTime e = currentTime f -> processGestures rnd f e = Some e.
Proof.
  intros H. unfold processGestures.
  destruct (negb (ready f e)); [reflexivity |].
  now rewrite H, Reqb_refl.
Qed.

(** C7, as amended.  If a call of the gesture interpreter passes the
    readiness guard (tracker and video bound, readyState at least 2) and
    returns, a second call with the same video timestamp returns the state
    it was given: nothing is mutated, whatever the second frame holds. *)
Theorem duplicate_timestamp_after_sampled_frame :
  forall (rnd1 rnd2 : nat -> R) (f1 f2 : Frame) (e e1 : Experience),
    ready f1 e = true ->
    processGestures rnd1 f1 e = Some e1 ->
    currentTime f2 = currentTime f1 ->
    processGestures rnd2 f2 e1 = Some e1.
Proof.
  intros rnd1 rnd2 f1 f2 e e1 Hready H1 Ht.
  apply processGestures_stale.
  destruct (processGestures_records_time _ _ _ _ Hready H1) as (Hl & _).
  congruence.
Qed.

(** C5.  A request for the current mode returns the state untouched; so a
    hand whose gesture requests the current mode only moves the pointer:
    the mode, the focus target and the particles (targets included) are
    those of before. *)
Theorem same_mode_request_is_noop :
  forall (rnd : nat -> R) (e : Experience),
    requestMode rnd (mode (state e)) e = Some e
    /\ (forall lms h,
          handPoints lms = Some h ->
          requested (mode (state e)) h = mode (state e) ->
          handleHand rnd lms e = Some (pointed h e)
          /\ mode (state (pointed h e)) = mode (state e)
          /\ focusTargetId (pointed h e) = focusTargetId e
          /\ particles (pointed h e) = particles e)
    /\ (forall f e',
          processGestures rnd f e = Some e' ->
          (forall lms rest h,
              landmarks f = Some (lms :: rest) -> handPoints lms = Some h ->
              requested (mode (state e)) h = mode (state e)) ->
          mode (state e') = mode (state e)
          /\ focusTargetId e' = focusTargetId e
          /\ particles e' = particles e).
Proof.
  intros rnd e. split; [apply requestMode_same |]. split.
  - intros lms h Hh Hreq. rewrite handleHand_points, Hh.
    replace (requested (mode (state e)) h) with (mode (state (pointed h e)))
      by (now rewrite Hreq).
    rewrite requestMode_same. now repeat split.
  - intros f e'. unfold processGestures.
    destruct (negb (ready f e)); [returned |].
    destruct (negb (Reqb (currentTime f) (lastVideoTime e))); [| returned].
    destruct (landmarks f) as [[| lms rest] |]; try returned.
    rewrite handleHand_points. destruct (handPoints lms) as [h |] eqn:Hh; [| discriminate].
    intros H Hreq. specialize (Hreq lms rest h eq_refl Hh).
    cbn [state withLastVideoTime] in H. rewrite Hreq in H.
    change (mode (state e))
      with (mode (state (pointed h (withLastVideoTime (currentTime f) e)))) in H at 1.
    rewrite requestMode_same in H. injection H as <-. now repeat split.
Qed.

Lemma gestureMode_FOCUS cur p a : p < 0.05 -> gestureMode cur p a = FOCUS.
Proof. intros H. unfold gestureMode. now rewrite Rltb_true. Qed.

Lemma gestureMode_TREE cur p a :
  0.05 <= p -> a < 0.25 -> gestureMode cur p a = TREE.
Proof.
  intros Hp Ha. unfold gestureMode. rewrite Rltb_false by lra. now rewrite Rltb_true.
Qed.

Lemma gestureMode_SCATTER cur p a :
  0.05 <= p -> 0.4 < a -> gestureMode cur p a = SCATTER.
Proof.
  intros Hp Ha. unfold gestureMode. rewrite !Rltb_false by lra. now rewrite Rltb_true.
Qed.

Lemma gestureMode_keep cur p a :
  0.05 <= p -> 0.25 <= a <= 0.4 -> gestureMode cur p a = cur.
Proof. intros Hp Ha. unfold gestureMode. now rewrite !Rltb_false by lra. Qed.

(** C6.  The requested mode is decided in a fixed order: a pinch distance
    below 0.05 requests FOCUS whatever the extension is (so 0.03 with
    extension 0.5 requests FOCUS); otherwise an average extension below 0.25
    requests TREE; otherwise one above 0.4 requests SCATTER; otherwise, with
    the extension in [0.25, 0.4], the requested mode is the current one: no
    transition.  The pinch distance is the planar distance between thumb tip
    and index tip, the average extension the mean of the four planar
    distances from the wrist to the tips, and it is this mode that the hand
    block passes on. *)
Theorem gesture_precedence :
  forall (cur : ExperienceMode) (pinchDist avgTipDist : R),
    (pinchDist < 0.05 -> gestureMode cur pinchDist avgTipDist = FOCUS)
    /\ (0.05 <= pinchDist -> avgTipDist < 0.25 ->
        gestureMode cur pinchDist avgTipDist = TREE)
    /\ (0.05 <= pinchDist -> 0.4 < avgTipDist ->
        gestureMode cur pinchDist avgTipDist = SCATTER)
    /\ (0.05 <= pinchDist -> 0.25 <= avgTipDist <= 0.4 ->
        gestureMode cur pinchDist avgTipDist = cur)
    /\ gestureMode cur 0.03 0.5 = FOCUS
    /\ (forall h,
          requested cur h
          = gestureMode cur
              (sqrt ((lx (thumb h) - lx (index h)) * (lx (thumb h) - lx (index h))
                     + (ly (thumb h) - ly (index h)) * (ly (thumb h) - ly (index h))))
              ((hypot (lx (tip12 h) - lx (wrist h)) (ly (tip12 h) - ly (wrist h))
                + hypot (lx (tip16 h) - lx (wrist h)) (ly (tip16 h) - ly (wrist h))
                + hypot (lx (tip20 h) - lx (wrist h)) (ly (tip20 h) - ly (wrist h))
                + hypot (lx (index h) - lx (wrist h)) (ly (index h) - ly (wrist h))) / 4))
    /\ (forall rnd lms h e,
          handPoints lms = Some h ->
          handleHand rnd lms e
          = requestMode rnd (requested (mode (state e)) h) (pointed h e)).
Proof.
  intros cur p a.
  split; [| split; [| split; [| split; [| split; [| split]]]]].
  - apply gestureMode_FOCUS.
  - apply gestureMode_TREE.
  - apply gestureMode_SCATTER.
  - apply gestureMode_keep.
  - apply gestureMode_FOCUS. lra.
  - intros h. unfold requested, pinchOf, extensionOf, pinchDistOf, avgTipDistOf, hypot.
    cbn [fold_left]. now rewrite Rplus_0_l.
  - intros rnd lms h e Hh. now rewrite handleHand_points, Hh.
Qed.

Lemma processGestures_fresh_hand rnd f e lms rest h :
  ready f e = true ->
  currentTime f <> lastVideoTime e ->
  landmarks f = Some (lms :: rest) ->
  handPoints lms = Some h ->
  processGestures rnd f e
  = requestMode rnd (requested (mode (state e)) h)
      (pointed h (withLastVideoTime (currentTime f) e)).
Proof.
  intros Hready Ht Hl Hh. unfold processGestures.
  rewrite Hready, Hl. cbn [negb].
  destruct (Reqb (currentTime f) (lastVideoTime e)) eqn:E;
    [apply Reqb_eq in E; contradiction |].
  cbn [negb]. now rewrite handleHand_points, Hh.
Qed.

Lemma hypot_0 (a b : R) : hypot (a - a) (b - b) = 0.
Proof.
  unfold hypot. replace ((a - a) * (a - a) + (b - b) * (b - b)) with 0 by ring.
  apply sqrt_0.
Qed.

Lemma pinch_requests_FOCUS cur h :
  thumb h = index h -> requested cur h = FOCUS.
Proof.
  intros E. unfold requested, gestureMode, pinchOf, pinchDistOf. rewrite E, hypot_0.
  now rewrite Rltb_true by lra.
Qed.

Lemma withMode_same (s : State) : withMode (mode s) s = s.
Proof. now destruct s. Qed.

(** A fresh frame with a hand, seen by a ready interpreter: the call
    returns, the pointer is the remapped landmark 9, the mode is the one the
    gesture requests, and the time of the frame is recorded. *)
Lemma processGestures_commit rnd f e lms rest h :
  in_unit rnd ->
  ready f e = true ->
  currentTime f <> lastVideoTime e ->
  landmarks f = Some (lms :: rest) ->
  handPoints lms = Some h ->
  exists e',
    processGestures rnd f e = Some e'
    /\ state e' = withMode (requested (mode (state e)) h) (state (pointed h e))
    /\ lastVideoTime e' = currentTime f
    /\ map id (particles e') = map id (particles e)
    /\ map type (particles e') = map type (particles e)
    /\ map mesh (particles e') = map mesh (particles e).
Proof.
  intros Hr Hready Ht Hl Hh.
  rewrite (processGestures_fresh_hand rnd f e lms rest h Hready Ht Hl Hh).
  destruct (requestMode_total rnd (requested (mode (state e)) h)
              (pointed h (withLastVideoTime (currentTime f) e)) Hr) as [e' He'].
  exists e'. split; [exact He' |].
  destruct (requestMode_frame _ _ _ _ He') as (H1 & _ & _ & _ & _ & H6 & H7 & H8).
  split; [| now repeat split].
  destruct (requestMode_inv _ _ _ _ He') as [[Hm ->] | [_ Hc]].
  - rewrite Hm. symmetry. apply withMode_same.
  - destruct (calculateTargets_frame _ _ _ Hc) as (Hst & _). exact Hst.
Qed.

(** C8.  For a frame the tracker can deliver (at most [numHands] hands, and
    [numHands] is 1): when the result holds no hand or more than one, the
    call returns and the whole [state] record (mode, pointer coordinates,
    flags), the focus target and the particles are those of before. *)
Theorem no_update_without_exactly_one_hand :
  forall (rnd : nat -> R) (f : Frame) (e : Experience),
    delivered f ->
    handCount f = 0%nat \/ (1 < handCount f)%nat ->
    exists e',
      processGestures rnd f e = Some e'
      /\ state e' = state e
      /\ focusTargetId e' = focusTargetId e
      /\ particles e' = particles e.
Proof.
  intros rnd f e Hd Hc.
  assert (H : landmarks f = None \/ landmarks f = Some []).
  { unfold delivered, handCount, numHands in *.
    destruct (landmarks f) as [hands |]; [| now left].
    specialize (Hd hands eq_refl). right.
    destruct hands as [| h hands]; [reflexivity |]. cbn [List.length] in *. lia. }
  unfold processGestures.
  destruct (negb (ready f e)); [now exists e |].
  destruct (negb (Reqb (currentTime f) (lastVideoTime e))); [| now exists e].
  destruct H as [-> | ->]; eexists; (split; [reflexivity | now repeat split]).
Qed.

(** X2.  A ready interpreter given a fresh frame with a hand returns; the
    pointer is landmark 9 remapped by (v - 0.5) * 2, so it lies in [-1, 1]
    when the landmark lies in [0, 1]; the mode is the one the gesture of the
    first hand requests; the time of the frame is recorded; the particles
    keep their ids, types and meshes. *)
Theorem gesture_frame_sets_pointer_and_mode :
  forall (rnd : nat -> R) (f : Frame) (e : Experience)
         (lms : list NormalizedLandmark) (rest : list (list NormalizedLandmark))
         (h : HandPoints),
    in_unit rnd ->
    ready f e = true ->
    currentTime f <> lastVideoTime e ->
    landmarks f = Some (lms :: rest) ->
    handPoints lms = Some h ->
    exists e',
      processGestures rnd f e = Some e'
      /\ handX (state e') = (lx (center h) - 0.5) * 2
      /\ handY (state e') = (ly (center h) - 0.5) * 2
      /\ (0 <= lx (center h) <= 1 -> -1 <= handX (state e') <= 1)
      /\ (0 <= ly (center h) <= 1 -> -1 <= handY (state e') <= 1)
      /\ mode (state e') = requested (mode (state e)) h
      /\ lastVideoTime e' = currentTime f
      /\ map id (particles e') = map id (particles e)
      /\ map type (particles e') = map type (particles e)
      /\ map mesh (particles e') = map mesh (particles e).
Proof.
  intros rnd f e lms rest h Hr Hready Ht Hl Hh.
  destruct (processGestures_commit rnd f e lms rest h Hr Hready Ht Hl Hh)
    as (e' & H & Hst & Htime & Hi & Hty & Hm).
  exists e'. split; [exact H |]. rewrite Hst.
  cbn [handX handY mode withMode withHand state pointed withState].
  repeat split; try assumption; lra.
Qed.

(** X3.  With draws in [0,1) and at least 21 landmarks in the first hand,
    nothing throws: [calculateTargets], [processGestures] and [animate] all
    return. *)
Theorem frame_never_throws :
  forall (rnd : nat -> R) (f : Frame) (e : Experience),
    in_unit rnd ->
    (forall lms rest, landmarks f = Some (lms :: rest) -> (21 <= List.length lms)%nat) ->
    (exists e1, calculateTargets rnd e = Some e1)
    /\ (exists e2, processGestures rnd f e = Some e2)
    /\ (exists e3, animate rnd f e = Some e3).
Proof.
  intros rnd f e Hr Hhand.
  assert (Hpg : exists e2, processGestures rnd f e = Some e2).
  { unfold processGestures.
    destruct (negb (ready f e)); [now eexists |].
    destruct (negb (Reqb (currentTime f) (lastVideoTime e))); [| now eexists].
    destruct (landmarks f) as [[| lms rest] |] eqn:El; try (now eexists).
    destruct (handPoints_total lms (Hhand lms rest eq_refl)) as [h Hh].
    rewrite handleHand_points, Hh. now apply requestMode_total. }
  split; [now apply calculateTargets_total |]. split; [exact Hpg |].
  destruct Hpg as [e2 He2]. unfold animate. rewrite He2. now eexists.
Qed.

(** ** The focus target in reachable states *)

Lemma keys_of {A B C : Type} (f : A -> B) (g : A -> C) (l l' : list A) :
  map f l' = map f l -> map g l' = map g l ->
  map (fun a => (f a, g a)) l' = map (fun a => (f a, g a)) l.
Proof.
  revert l'. induction l as [| a l IH]; intros [| a' l'] Hf Hg; cbn in *;
    try discriminate; [reflexivity |].
  injection Hf as Hf1 Hf2. injection Hg as Hg1 Hg2.
  now rewrite Hf1, Hg1, (IH l').
Qed.

Lemma hasPhoto_key s ps :
  hasPhoto s ps <-> In (s, PHOTO) (map (fun p => (id p, type p)) ps).
Proof.
  unfold hasPhoto. rewrite in_map_iff. split.
  - intros (p & Hin & Ht & Hid). exists p. now rewrite Ht, Hid.
  - intros (p & E & Hin). injection E as Hid Ht. now exists p.
Qed.

Lemma hasPhoto_same_keys s ps ps' :
  map id ps' = map id ps -> map type ps' = map type ps ->
  hasPhoto s ps -> hasPhoto s ps'.
Proof.
  intros Hi Ht. rewrite !hasPhoto_key. now rewrite (keys_of id type ps ps' Hi Ht).
Qed.

Lemma hasPhoto_app s ps l : hasPhoto s ps -> hasPhoto s (ps ++ l).
Proof.
  intros (p & Hin & H). exists p. split; [apply in_or_app; now left | exact H].
Qed.

(** The focus target [calculateTargets] leaves behind. *)
Lemma calculateTargets_focus rnd e e' :
  calculateTargets rnd e = Some e' ->
  (mode (state e) <> FOCUS -> focusTargetId e' = None)
  /\ (mode (state e) = FOCUS -> truthy (focusTargetId e) = true ->
      focusTargetId e' = focusTargetId e)
  /\ (forall s, focusTargetId e' = Some s ->
        mode (state e) = FOCUS
        /\ (focusTargetId e = Some s \/ hasPhoto s (particles e))).
Proof.
  intros H. destruct (calculateTargets_inv _ _ _ H) as (fid & d & Hsel & ->).
  cbn [focusTargetId withParticles withFocusTargetId].
  unfold selectFocus in Hsel.
  destruct (mode (state e)).
  - injection Hsel as <- <-. repeat split; congruence.
  - injection Hsel as <- <-. repeat split; congruence.
  - destruct (truthy (focusTargetId e)) eqn:Et; cbn [negb andb] in Hsel.
    + injection Hsel as <- <-. repeat split; try congruence. now left.
    + split; [congruence |]. split; [discriminate |].
      intros s Hs. split; [reflexivity |].
      destruct (0 <? List.length (photosOf (particles e)))%nat.
      * destruct (arrayGet _ _) as [p |] eqn:Eg; [| discriminate].
        injection Hsel as <- <-. injection Hs as <-.
        apply arrayGet_In, photosOf_In in Eg. right. exists p. now destruct Eg.
      * injection Hsel as <- <-. now left.
Qed.

Lemma calculateTargets_focusInv rnd e e' :
  focusValid e -> calculateTargets rnd e = Some e' -> focusInv e'.
Proof.
  intros Hv H.
  destruct (calculateTargets_focus _ _ _ H) as (Hclear & _ & Hfrom).
  destruct (calculateTargets_frame _ _ _ H) as (Hst & _ & _ & _ & _ & _ & Hi & Ht & _).
  split.
  - rewrite Hst. exact Hclear.
  - intros s Hs. apply (hasPhoto_same_keys s (particles e)); [exact Hi | exact Ht |].
    destruct (Hfrom s Hs) as [_ [Hold | Hnew]]; [now apply Hv | exact Hnew].
Qed.

Lemma requestMode_focusInv rnd m e e' :
  focusInv e -> requestMode rnd m e = Some e' -> focusInv e'.
Proof.
  intros Hinv H. destruct (requestMode_inv _ _ _ _ H) as [[_ ->] | [_ Hc]];
    [exact Hinv |].
  eapply calculateTargets_focusInv; [| exact Hc]. exact (proj2 Hinv).
Qed.

Lemma processGestures_focusInv rnd f e e' :
  focusInv e -> processGestures rnd f e = Some e' -> focusInv e'.
Proof.
  intros Hinv. unfold processGestures.
  destruct (negb (ready f e)); [intros H; now injection H as <- |].
  destruct (negb (Reqb (currentTime f) (lastVideoTime e)));
    [| intros H; now injection H as <-].
  destruct (landmarks f) as [[| lms rest] |];
    try (intros H; injection H as <-; exact Hinv).
  rewrite handleHand_points. destruct (handPoints lms) as [h |]; [| discriminate].
  apply requestMode_focusInv. exact Hinv.
Qed.

Lemma animate_focusInv rnd f e e' :
  focusInv e -> animate rnd f e = Some e' -> focusInv e'.
Proof.
  intros Hinv. unfold animate.
  destruct (processGestures rnd f e) as [e1 |] eqn:E; [| discriminate].
  intros H. injection H as <-.
  destruct (processGestures_focusInv _ _ _ _ Hinv E) as [Ha Hb].
  split; [exact Ha |].
  intros s Hs. cbn [focusTargetId particles] in *.
  apply (hasPhoto_same_keys s (particles e1)).
  - rewrite map_map. apply map_ext. intros p. apply update_id.
  - rewrite map_map. apply map_ext. intros p. apply update_type.
  - now apply Hb.
Qed.

Lemma reachable_focusInv e : reachable e -> focusInv e.
Proof.
  induction 1 as [| rnd idText e _ IH _ | rnd idText e e' _ IH _ H
                  | rnd e e' _ IH _ H | e _ IH | e _ IH | rnd f e e' _ IH _ H].
  - split; [reflexivity | intros s; discriminate].
  - destruct IH as [Ha Hb]. unfold addDecoration.
    destruct (if Rltb (rnd 0%nat) 0.5 then (BOX, 2%nat)
              else if Rltb (rnd 0%nat) 0.85 then (SPHERE, 2%nat) else (CANDY, 1%nat))
      as [t d].
    split; [exact Ha |].
    intros s Hs. cbn [focusTargetId particles withParticles] in *.
    apply hasPhoto_app. now apply Hb.
  - unfold addPhotoToScene in H. eapply calculateTargets_focusInv; [| exact H].
    intros s Hs. cbn [focusTargetId particles withParticles] in *.
    apply hasPhoto_app. now apply (proj2 IH).
  - eapply calculateTargets_focusInv; [| exact H]. exact (proj2 IH).
  - exact IH.
  - exact IH.
  - eapply animate_focusInv; eauto.
Qed.

(** X1.  The focus target of a reachable state: null outside FOCUS mode; when
    non-null, the id of a PHOTO particle of the scene.  [calculateTargets]
    clears it when it runs in another mode, and in FOCUS mode keeps a target
    that is set and not the empty string. *)
Theorem focus_target_invariant :
  forall e : Experience,
    reachable e ->
    (mode (state e) <> FOCUS -> focusTargetId e = None)
    /\ (forall s, focusTargetId e = Some s ->
          exists p, In p (particles e) /\ type p = PHOTO /\ id p = s)
    /\ (forall rnd e',
          calculateTargets rnd e = Some e' ->
          (mode (state e) <> FOCUS -> focusTargetId e' = None)
          /\ (forall s, mode (state e) = FOCUS -> focusTargetId e = Some s ->
                s <> EmptyString -> focusTargetId e' = Some s)).
Proof.
  intros e Hreach. destruct (reachable_focusInv e Hreach) as [Ha Hb].
  split; [exact Ha |]. split; [exact Hb |].
  intros rnd e' H. destruct (calculateTargets_focus _ _ _ H) as (Hclear & Hkeep & _).
  split; [exact Hclear |].
  intros s Hm Hs Hne. rewrite <- Hs. apply Hkeep; [exact Hm |].
  rewrite Hs. cbn. apply negb_true_iff. now apply String.eqb_neq.
Qed.

(** ** Mode transitions *)

Lemma processGestures_transition rnd f e h :
  ready f e = true ->
  currentTime f <> lastVideoTime e ->
  sees f h ->
  requested (mode (state e)) h <> mode (state e) ->
  processGestures rnd f e
  = calculateTargets rnd (committed (requested (mode (state e)) h) h f e).
Proof.
  intros Hready Ht (lms & rest & Hl & Hh) Hne.
  rewrite (processGestures_fresh_hand rnd f e lms rest h Hready Ht Hl Hh).
  unfold requestMode.
  destruct (ExperienceMode_eqb _ _) eqn:E; [| reflexivity].
  apply ExperienceMode_eqb_eq in E. contradiction.
Qed.


(** ** Sample runs *)

Lemma zeroTape_in_unit : in_unit zeroTape.
Proof. intros k. unfold zeroTape. lra. Qed.

(** On the zero tape the selection takes the first photo. *)
Lemma selectFocus_zeroTape cur p l :
  truthy cur = false ->
  selectFocus zeroTape FOCUS cur (p :: l) = Some (Some (id p), 1%nat).
Proof.
  intros Ht. unfold selectFocus. rewrite Ht. cbn [negb andb List.length Nat.ltb Nat.leb].
  unfold zeroTape. rewrite Rmult_0_l, floor_0. reflexivity.
Qed.

Lemma handPoints_flatHand cx cy :
  handPoints (flatHand cx cy) = Some (flatPoints cx cy).
Proof. reflexivity. Qed.

(** A fresh frame whose first hand is a pinch, in a state that is not in
    FOCUS mode: the call returns in FOCUS mode with the pointer moved. *)
Lemma first_hand_pinch rnd f e rest cx cy :
  in_unit rnd ->
  ready f e = true ->
  currentTime f <> lastVideoTime e ->
  landmarks f = Some (flatHand cx cy :: rest) ->
  exists e',
    processGestures rnd f e = Some e'
    /\ mode (state e') = FOCUS
    /\ handX (state e') = (cx - 0.5) * 2
    /\ handY (state e') = (cy - 0.5) * 2.
Proof.
  intros Hr Hready Ht Hl.
  destruct (processGestures_commit rnd f e _ rest _ Hr Hready Ht Hl
              (handPoints_flatHand cx cy)) as (e' & H & Hst & _).
  exists e'. split; [exact H |]. rewrite Hst.
  rewrite pinch_requests_FOCUS by reflexivity. now repeat split.
Qed.

Lemma two_photos ps (s1 s2 : string) :
  map id ps = [s1; s2] -> map type ps = [PHOTO; PHOTO] ->
  exists a b, ps = [a; b] /\ id a = s1 /\ id b = s2 /\ photosOf ps = [a; b].
Proof.
  destruct ps as [| a [| b [| c ps]]]; cbn; try discriminate.
  intros Hi Ht. injection Hi as Ha Hb. injection Ht as Hta Htb.
  exists a, b. unfold photosOf. cbn. now rewrite Hta, Htb.
Qed.

Lemma startScene_reachable : reachable startScene.
Proof.
  apply reach_video, reach_tracker.
  apply (reach_photo zeroTape "c3" initial);
    [exact reach_initial | exact zeroTape_in_unit | reflexivity].
Qed.

Lemma startScene_fresh (f : Frame) :
  currentTime f = 0 -> currentTime f <> lastVideoTime startScene.
Proof. intros ->. cbn. lra. Qed.

Lemma twinPhotos_reachable : reachable twinPhotos.
Proof.
  apply reach_video, reach_tracker.
  apply (reach_photo zeroTape "7k2p9x" (afterPhoto "7k2p9x" initial));
    [| exact zeroTape_in_unit | reflexivity].
  apply (reach_photo zeroTape "7k2p9x" initial);
    [exact reach_initial | exact zeroTape_in_unit | reflexivity].
Qed.

(** C3, the failing runs: two particles at (0, 2, 35).  In the scene
    [twins] a decoration and the only photo carry the same id; after
    [calculateTargets] in FOCUS mode both particles have the target
    (0, 2, 35).  And from the start of the program: after two photos whose
    ids came out equal were added, a reachable state, a pinch enters FOCUS
    mode, [calculateTargets] runs, and both photos have the target
    (0, 2, 35). *)
Lemma focus_layout_shared_id :
  (mode (state twins) = FOCUS
   /\ (exists p, In p (particles twins) /\ type p = PHOTO)
   /\ exists e' p q,
        calculateTargets zeroTape twins = Some e'
        /\ particles e' = [p; q]
        /\ type p = BOX /\ type q = PHOTO
        /\ targetPos p = front /\ targetPos q = front)
  /\ (reachable twinPhotos
      /\ exists e' p q,
           processGestures zeroTape pinchFrame twinPhotos = Some e'
           /\ mode (state e') = FOCUS
           /\ particles e' = [p; q]
           /\ type p = PHOTO /\ type q = PHOTO
           /\ targetPos p = front /\ targetPos q = front).
Proof.
  split.
  - split; [reflexivity |]. split.
    + exists (photo "7k2p9x"). split; [right; now left | reflexivity].
    + unfold calculateTargets.
      change (photosOf (particles twins)) with [photo "7k2p9x"].
      rewrite selectFocus_zeroTape by reflexivity.
      do 3 eexists. split; [reflexivity |]. now repeat split.
  - split; [exact twinPhotos_reachable |].
    destruct (two_photos (particles twinPhotos) "7k2p9x" "7k2p9x" eq_refl eq_refl)
      as (a & b & Hps & Ha & Hb & Hph).
    assert (Hta : type a = PHOTO /\ type b = PHOTO).
    { assert (H : map type (particles twinPhotos) = [PHOTO; PHOTO]) by reflexivity.
      rewrite Hps in H. cbn in H. split; congruence. }
    rewrite (processGestures_transition zeroTape pinchFrame twinPhotos (flatPoints 1 1)
               eq_refl (startScene_fresh pinchFrame eq_refl));
      [| exists (flatHand 1 1), []; now split
       | rewrite pinch_requests_FOCUS by reflexivity; discriminate].
    rewrite pinch_requests_FOCUS by reflexivity.
    unfold calculateTargets.
    change (particles (committed FOCUS (flatPoints 1 1) pinchFrame twinPhotos))
      with (particles twinPhotos).
    change (mode (state (committed FOCUS (flatPoints 1 1) pinchFrame twinPhotos)))
      with FOCUS.
    rewrite Hph, Hps.
    rewrite selectFocus_zeroTape by reflexivity.
    cbn [forEachTarget layoutTarget List.length]. rewrite Ha, Hb.
    cbn [idIs String.eqb Ascii.eqb Bool.eqb].
    do 3 eexists. split; [reflexivity |].
    cbn [particles mode state withParticles withFocusTargetId committed withState
         withMode type targetPos ParticleOps.setTarget].
    now repeat split.
Qed.

(** The empty id on a scene given outright: in FOCUS mode the focus target
    is the photo whose id is the empty string -- a valid, non-null target in
    a scene of distinct ids -- and [calculateTargets], run again while the
    mode stays FOCUS, replaces it by the id of the other photo. *)
Lemma focus_reselected_when_id_empty :
  mode (state emptyIdScene) = FOCUS
  /\ focusTargetId emptyIdScene = Some EmptyString
  /\ focusValid emptyIdScene
  /\ NoDup (map id (particles emptyIdScene))
  /\ exists e',
       calculateTargets zeroTape emptyIdScene = Some e'
       /\ mode (state e') = FOCUS
       /\ focusTargetId e' = Some "k3v1"%string.
Proof.
  split; [reflexivity |]. split; [reflexivity |]. split; [| split].
  - intros s Hs. injection Hs as <-. exists (photo EmptyString).
    split; [right; now left | now split].
  - cbn. repeat constructor; cbn; intuition discriminate.
  - unfold calculateTargets.
    change (photosOf (particles emptyIdScene)) with [photo "k3v1"; photo EmptyString].
    rewrite selectFocus_zeroTape by reflexivity.
    eexists. split; [reflexivity |]. now split.
Qed.

(** C7, the claim as stated fails.  In a reachable state (one photo, tracker
    and video bound, mode TREE, pointer at 0) the first call is made while
    the video is still loading (readyState 1): it stops at the readiness
    guard and records nothing.  The second call sees the same timestamp 0
    with the video ready and a pinching hand, and it changes the mode from
    TREE to FOCUS and the pointer abscissa from 0 to 1. *)
Lemma duplicate_timestamp_after_skipped_frame :
  reachable startScene
  /\ currentTime pinchFrame = currentTime loadingFrame
  /\ processGestures zeroTape loadingFrame startScene = Some startScene
  /\ mode (state startScene) = TREE
  /\ handX (state startScene) = 0
  /\ exists e2,
       processGestures zeroTape pinchFrame startScene = Some e2
       /\ mode (state e2) = FOCUS
       /\ handX (state e2) = 1.
Proof.
  split; [exact startScene_reachable |].
  split; [reflexivity |]. split; [reflexivity |].
  split; [reflexivity |]. split; [reflexivity |].
  destruct (first_hand_pinch zeroTape pinchFrame startScene [] 1 1 zeroTape_in_unit
              eq_refl (startScene_fresh pinchFrame eq_refl) eq_refl)
    as (e2 & H & Hm & Hx & _).
  exists e2. split; [exact H |]. split; [exact Hm |]. rewrite Hx. lra.
Qed.

(** ** A run that reaches the empty focus id *)

Lemma skip_in_unit n rnd : in_unit rnd -> in_unit (skip n rnd).
Proof. intros H k. apply H. Qed.

Lemma halfTape_in_unit : in_unit halfTape.
Proof. intros k. unfold halfTape. lra. Qed.

Lemma addPhotoToScene_spec rnd s e :
  in_unit rnd ->
  exists e',
    addPhotoToScene rnd s e = Some e'
    /\ state e' = state e
    /\ lastVideoTime e' = lastVideoTime e
    /\ handLandmarker e' = handLandmarker e
    /\ video e' = video e
    /\ map id (particles e') = map id (particles e) ++ [s]
    /\ map type (particles e') = map type (particles e) ++ [PHOTO].
Proof.
  intros Hr. unfold addPhotoToScene.
  destruct (calculateTargets_total (skip 4 rnd) (skip_in_unit 4 rnd Hr)
              (withParticles (particles e ++ [ParticleOps.new rnd s freshObject PHOTO]) e))
    as [e' He'].
  exists e'. split; [exact He' |].
  destruct (calculateTargets_frame _ _ _ He') as (H1 & H2 & H3 & H4 & _ & _ & H7 & H8 & _).
  cbn [particles withParticles] in H7, H8. rewrite map_app in H7, H8.
  now repeat split.
Qed.

Lemma floor_half_of_3 : floor (0.5 * INR 3) = 1%Z.
Proof. unfold floor. symmetry. apply Int_part_spec. cbn [INR]. lra. Qed.

(** The scene of two photos, the first with the empty id, after a pinch:
    a reachable state in FOCUS mode whose focus target is the empty id. *)
Lemma empty_focus_id_reachable :
  exists e,
    reachable e
    /\ mode (state e) = FOCUS
    /\ focusTargetId e = Some EmptyString
    /\ map id (particles e) = [EmptyString; "k3v1"%string]
    /\ map type (particles e) = [PHOTO; PHOTO].
Proof.
  destruct (addPhotoToScene_spec zeroTape EmptyString initial zeroTape_in_unit)
    as (s1 & E1 & Hst1 & Ht1 & _ & _ & Hi1 & Hty1).
  destruct (addPhotoToScene_spec zeroTape "k3v1" s1 zeroTape_in_unit)
    as (s2 & E2 & Hst2 & Ht2 & _ & _ & Hi2 & Hty2).
  assert (R2 : reachable s2).
  { eapply reach_photo; [| exact zeroTape_in_unit | exact E2].
    eapply reach_photo; [exact reach_initial | exact zeroTape_in_unit | exact E1]. }
  set (s3 := bindVideo (bindHandLandmarker s2)).
  assert (R3 : reachable s3) by (apply reach_video, reach_tracker, R2).
  rewrite Hi1 in Hi2. rewrite Hty1 in Hty2. cbn [particles initial map app] in Hi2, Hty2.
  destruct (two_photos _ _ _ Hi2 Hty2) as (a & b & Hps & Ha & Hb & Hph).
  assert (Hmode : mode (state s3) = TREE) by (cbn; now rewrite Hst2, Hst1).
  assert (Hfresh : currentTime pinchFrame <> lastVideoTime s3).
  { cbn. rewrite Ht2, Ht1. cbn. lra. }
  pose proof (processGestures_fresh_hand zeroTape pinchFrame s3 _ [] _ eq_refl Hfresh
                eq_refl (handPoints_flatHand 1 1)) as Hpg.
  rewrite pinch_requests_FOCUS in Hpg by reflexivity.
  unfold requestMode in Hpg.
  replace (ExperienceMode_eqb FOCUS _) with false in Hpg
    by (cbn [pointed state withState withHand mode withLastVideoTime];
        fold s3; now rewrite Hmode).
  cbn [negb] in Hpg. unfold calculateTargets in Hpg.
  cbn [pointed state withState withHand withMode mode particles focusTargetId
       withLastVideoTime bindVideo bindHandLandmarker] in Hpg.
  unfold s3 in Hpg.
  cbn [particles focusTargetId bindVideo bindHandLandmarker] in Hpg.
  rewrite Hph in Hpg.
  rewrite selectFocus_zeroTape in Hpg.
  2:{ destruct (reachable_focusInv s2 R2) as [Hnull _].
      rewrite Hnull; [reflexivity |]. rewrite Hst2, Hst1. discriminate. }
  rewrite Ha in Hpg.
  eexists. split; [| split; [| split; [| split]]].
  - eapply reach_frame; [exact R3 | exact zeroTape_in_unit |].
    unfold animate, s3. rewrite Hpg. reflexivity.
  - reflexivity.
  - reflexivity.
  - cbn [particles withParticles]. rewrite map_map.
    rewrite (map_ext _ id) by (intros p; apply update_id).
    now rewrite forEachTarget_ids.
  - cbn [particles withParticles]. rewrite map_map.
    rewrite (map_ext _ type) by (intros p; apply update_type).
    now rewrite forEachTarget_types.
Qed.

(** C2, the failing run from the start of the program: a state reached by
    two photo insertions and a pinch is in FOCUS mode with the empty id as
    focus target; the next photo insertion, which runs [calculateTargets]
    while the mode stays FOCUS, changes the focus target to another photo. *)
Theorem focus_reselected_in_reachable_state :
  exists e e',
    reachable e
    /\ mode (state e) = FOCUS
    /\ focusTargetId e = Some EmptyString
    /\ addPhotoToScene halfTape "z9" e = Some e'
    /\ mode (state e') = FOCUS
    /\ focusTargetId e' = Some "k3v1"%string.
Proof.
  destruct empty_focus_id_reachable as (e & Hreach & Hmode & Hfid & Hi & Hty).
  destruct (two_photos _ _ _ Hi Hty) as (a & b & Hps & Ha & Hb & _).
  exists e. unfold addPhotoToScene, calculateTargets.
  cbn [particles state focusTargetId withParticles].
  rewrite Hmode, Hfid, Hps.
  assert (Hta : type a = PHOTO) by (rewrite Hps in Hty; cbn in Hty; congruence).
  assert (Htb : type b = PHOTO) by (rewrite Hps in Hty; cbn in Hty; congruence).
  unfold photosOf. cbn [app filter ParticleOps.new type]. rewrite Hta, Htb.
  cbn [isPHOTO selectFocus truthy String.eqb negb andb List.length Nat.ltb Nat.leb].
  change (skip 4 halfTape 0%nat) with 0.5.
  rewrite floor_half_of_3. cbn [arrayGet Z.ltb Z.compare Z.to_nat Pos.to_nat
                                 Pos.iter_op Nat.add nth_error].
  eexists. split; [exact Hreach |]. split; [reflexivity |]. split; [reflexivity |].
  split; [reflexivity |]. cbn. split; [exact Hmode | now rewrite Hb].
Qed.

(** ** The theorems at sample scenes *)

Lemma Reqb_neq (a b : R) : a <> b -> Reqb a b = false.
Proof. intros H. unfold Reqb. destruct (Req_dec_T a b); [contradiction | reflexivity]. Qed.

Lemma tree_layout_witness :
  exists e',
    calculateTargets zeroTape treeScene = Some e'
    /\ map id (particles e') = map id (particles treeScene)
    /\ (forall i p', nth_error (particles e') i = Some p' ->
          targetPos p' = TreeSpec.position i (List.length (particles treeScene)))
    /\ ((0 < List.length (particles treeScene))%nat ->
          TreeSpec.radius 0 (List.length (particles treeScene)) = 14
          /\ TreeSpec.height 0 (List.length (particles treeScene)) = -14
          /\ TreeSpec.position 0 (List.length (particles treeScene)) = mkVector3 14 (-14) 0
          /\ TreeSpec.radius (List.length (particles treeScene) - 1)
                             (List.length (particles treeScene))
             = 14 / INR (List.length (particles treeScene))
          /\ TreeSpec.height (List.length (particles treeScene) - 1)
                             (List.length (particles treeScene))
             = 14 - 28 / INR (List.length (particles treeScene)))
    /\ ((1501 <= List.length (particles treeScene))%nat ->
          0 < TreeSpec.radius (List.length (particles treeScene) - 1)
                              (List.length (particles treeScene)) < 0.01
          /\ 0 < 14 - TreeSpec.height (List.length (particles treeScene) - 1)
                                      (List.length (particles treeScene)) < 0.02).
Proof. apply (tree_layout zeroTape treeScene). reflexivity. Defined.

Lemma duplicate_timestamp_witness :
  processGestures zeroTape pinchFrame (withLastVideoTime 0 treeScene)
  = Some (withLastVideoTime 0 treeScene).
Proof.
  apply (duplicate_timestamp_after_sampled_frame zeroTape zeroTape noHandFrame pinchFrame
           treeScene (withLastVideoTime 0 treeScene)).
  - reflexivity.
  - unfold processGestures. cbn [ready treeScene scene handLandmarker video readyState
                                 noHandFrame Nat.ltb Nat.leb andb negb].
    rewrite Reqb_neq by (cbn; lra). reflexivity.
  - reflexivity.
Defined.

Lemma same_mode_request_witness :
  handleHand zeroTape (flatHand 1 1) focusScene
  = Some (withState (withHand ((1 - 0.5) * 2) ((1 - 0.5) * 2) (state focusScene))
                    focusScene).
Proof.
  apply (proj1 (proj2 (same_mode_request_is_noop zeroTape focusScene))
           (flatHand 1 1) _ (handPoints_flatHand 1 1)).
  apply pinch_requests_FOCUS. reflexivity.
Defined.

Lemma no_update_without_exactly_one_hand_witness :
  delivered noHandFrame
  /\ handCount noHandFrame = 0%nat
  /\ exists e',
       processGestures zeroTape noHandFrame treeScene = Some e'
       /\ state e' = state treeScene
       /\ focusTargetId e' = focusTargetId treeScene
       /\ particles e' = particles treeScene.
Proof.
  assert (Hd : delivered noHandFrame).
  { intros hands H. injection H as <-. cbn. unfold numHands. lia. }
  split; [exact Hd |]. split; [reflexivity |].
  apply (no_update_without_exactly_one_hand zeroTape noHandFrame treeScene Hd).
  left. reflexivity.
Defined.

Lemma gesture_frame_witness :
  exists e',
    processGestures zeroTape pinchFrame treeScene = Some e'
    /\ handX (state e') = (1 - 0.5) * 2
    /\ handY (state e') = (1 - 0.5) * 2
    /\ (0 <= 1 <= 1 -> -1 <= handX (state e') <= 1)
    /\ (0 <= 1 <= 1 -> -1 <= handY (state e') <= 1)
    /\ mode (state e') = requested TREE (flatPoints 1 1)
    /\ lastVideoTime e' = 0
    /\ map id (particles e') = map id (particles treeScene)
    /\ map type (particles e') = map type (particles treeScene)
    /\ map mesh (particles e') = map mesh (particles treeScene).
Proof.
  apply (gesture_frame_sets_pointer_and_mode zeroTape pinchFrame treeScene
           (flatHand 1 1) [] (flatPoints 1 1)).
  - intros k. unfold zeroTape. lra.
  - reflexivity.
  - cbn. lra.
  - reflexivity.
  - reflexivity.
Defined.

Lemma frame_never_throws_witness :
  (exists e1, calculateTargets zeroTape focusScene = Some e1)
  /\ (exists e2, processGestures zeroTape twoHandsFrame focusScene = Some e2)
  /\ (exists e3, animate zeroTape twoHandsFrame focusScene = Some e3).
Proof.
  apply (frame_never_throws zeroTape twoHandsFrame focusScene).
  - intros k. unfold zeroTape. lra.
  - intros lms rest H. injection H as <- _. cbn. lia.
Defined.

Lemma handPoints_spreadHand d : handPoints (spreadHand d) = Some (spreadPoints d).
Proof. reflexivity. Qed.





Lemma focus_target_invariant_witness :
  exists e,
    reachable e
    /\ mode (state e) = FOCUS
    /\ focusTargetId e = Some EmptyString
    /\ exists p, In p (particles e) /\ type p = PHOTO /\ id p = EmptyString.
Proof.
  destruct empty_focus_id_reachable as (e & Hreach & Hmode & Hfid & _).
  exists e. split; [exact Hreach |]. split; [exact Hmode |]. split; [exact Hfid |].
  exact (proj1 (proj2 (focus_target_invariant e Hreach)) EmptyString Hfid).
Defined.

(** * More of the program *)

(** ** What update keeps of a particle *)

Lemma update_randomVelocity md fid p :
  randomVelocity (ParticleOps.update md fid p) = randomVelocity p.
Proof. unfold ParticleOps.update. destruct md, (type p), (idIs fid (id p)); reflexivity. Qed.

Lemma update_initialScale md fid p :
  initialScale (ParticleOps.update md fid p) = initialScale p.
Proof. unfold ParticleOps.update. destruct md, (type p), (idIs fid (id p)); reflexivity. Qed.

Lemma update_identity md fid p : identity (ParticleOps.update md fid p) = identity p.
Proof.
  unfold identity.
  now rewrite update_id, update_type, update_initialScale, update_randomVelocity.
Qed.

Lemma update_scale md fid p :
  scale (mesh (ParticleOps.update md fid p))
  = Vector3Ops.lerp (scale (mesh p)) (scaleGoal md fid p) 0.1.
Proof.
  unfold ParticleOps.update, scaleGoal.
  destruct md, (type p), (idIs fid (id p)); reflexivity.
Qed.



(** ** Bounds *)

Lemma between_lerp lo hi a b t :
  0 <= t <= 1 -> between lo hi a -> between lo hi b ->
  between lo hi (Vector3Ops.lerp a b t).
Proof.
  intros Ht (Ax & Ay & Az) (Bx & By & Bz).
  unfold between, Vector3Ops.lerp; cbn [x y z].
  repeat split; nra.
Qed.

Lemma between_wider lo hi lo' hi' v :
  lo' <= lo -> hi <= hi' -> between lo hi v -> between lo' hi' v.
Proof. intros Hl Hh (Hx & Hy & Hz). unfold between. repeat split; lra. Qed.

Lemma unit_product a b : -1 <= a <= 1 -> -1 <= b <= 1 -> -1 <= a * b <= 1.
Proof. intros Ha Hb. split; nra. Qed.

Lemma scaled_unit r a : 0 <= r -> -1 <= a <= 1 -> - r <= r * a <= r.
Proof. intros Hr Ha. split; nra. Qed.

Lemma tree_fraction i n : (i < n)%nat -> 0 <= INR i / INR n < 1.
Proof.
  intros H.
  assert (Hn : 0 < INR n) by (apply lt_0_INR; lia).
  assert (Hi : 0 <= INR i) by apply pos_INR.
  assert (Hlt : INR i < INR n) by (now apply lt_INR).
  split.
  - apply Rmult_le_pos; [exact Hi | left; now apply Rinv_0_lt_compat].
  - apply (Rmult_lt_reg_r (INR n)); [exact Hn |].
    unfold Rdiv. rewrite Rmult_assoc, Rinv_l by lra. lra.
Qed.

Section TapeBounds.

Variable rnd : nat -> R.
Hypothesis rnd_unit : in_unit rnd.

(** Whatever the mode, the target of the particle at an index below the
    length is in the cube of half-side 60. *)
Lemma layoutTarget_between md fid n i k p :
  (i < n)%nat -> between (-60) 60 (fst (layoutTarget rnd md fid n i k p)).
Proof.
  intros Hi. unfold layoutTarget. destruct md; cbn [fst].
  - pose proof (tree_fraction i n Hi) as Ht.
    set (t := INR i / INR n) in *.
    pose proof (COS_bound (t * 50 * PI)) as Hc. pose proof (SIN_bound (t * 50 * PI)) as Hs.
    unfold between, maxRadius, height; cbn [x y z].
    assert (Hr : 0 <= 14 * (1 - t) <= 14) by lra.
    pose proof (scaled_unit (14 * (1 - t)) (cos (t * 50 * PI)) (proj1 Hr) Hc) as Hx.
    pose proof (scaled_unit (14 * (1 - t)) (sin (t * 50 * PI)) (proj1 Hr) Hs) as Hz.
    rewrite (Rmult_comm (cos _)), (Rmult_comm (sin _)).
    repeat split; lra.
  - pose proof (rnd_unit (k + 2)%nat) as H2.
    set (r := 10 + rnd (k + 2)%nat * 15) in *.
    set (phi := acos (2 * rnd (k + 1)%nat - 1)). set (theta := rnd k * PI * 2).
    pose proof (unit_product _ _ (SIN_bound phi) (COS_bound theta)) as Hx.
    pose proof (unit_product _ _ (SIN_bound phi) (SIN_bound theta)) as Hy.
    assert (Hr : 0 <= r < 25) by (unfold r; lra).
    pose proof (scaled_unit r _ (proj1 Hr) Hx) as Bx.
    pose proof (scaled_unit r _ (proj1 Hr) Hy) as By.
    pose proof (scaled_unit r _ (proj1 Hr) (COS_bound phi)) as Bz.
    unfold between; cbn [x y z]. rewrite !Rmult_assoc.
    repeat split; lra.
  - destruct (idIs fid (id p)); cbn [fst].
    + unfold between, front; cbn [x y z]. repeat split; lra.
    + pose proof (rnd_unit (k + 1)%nat) as H1. pose proof (rnd_unit (k + 2)%nat) as H2.
      set (r := 40 + rnd (k + 1)%nat * 20) in *.
      set (a := rnd k * PI * 2).
      assert (Hr : 0 <= r < 60) by (unfold r; lra).
      pose proof (scaled_unit r _ (proj1 Hr) (COS_bound a)) as Bx.
      pose proof (scaled_unit r _ (proj1 Hr) (SIN_bound a)) as Bz.
      unfold between; cbn [x y z]. rewrite (Rmult_comm (cos a)), (Rmult_comm (sin a)).
      repeat split; lra.
Qed.

Lemma forEachTarget_between md fid k ps q :
  In q (forEachTarget rnd md fid (List.length ps) 0 k ps) ->
  between (-60) 60 (targetPos q).
Proof.
  intros H. apply In_nth_error in H. destruct H as [j H].
  destruct (forEachTarget_nth _ _ _ _ _ _ _ _ _ H) as (p & k' & Hp & ->).
  cbn [targetPos ParticleOps.setTarget]. apply layoutTarget_between.
  cbn [Nat.add]. apply nth_error_Some. congruence.
Qed.

End TapeBounds.

Lemma saneParticle_setTarget v p :
  between (-60) 60 v -> saneParticle p -> saneParticle (ParticleOps.setTarget v p).
Proof. intros Hv (H1 & H2 & H3 & _ & H5). exact (conj H1 (conj H2 (conj H3 (conj Hv H5)))). Qed.

Lemma scaleGoal_between md fid p :
  initialScale p = mkVector3 1 1 1 -> between 0.001 4.5 (scaleGoal md fid p).
Proof.
  intros H. unfold scaleGoal, between, Vector3Ops.multiplyScalar, ParticleOps.tiny.
  rewrite H.
  destruct md; try destruct (isPHOTO (type p) && idIs fid (id p));
    cbn [x y z]; repeat split; lra.
Qed.

Lemma saneParticle_update md fid p :
  saneParticle p -> saneParticle (ParticleOps.update md fid p).
Proof.
  intros (H1 & H2 & H3 & H4 & H5).
  unfold saneParticle.
  rewrite update_initialScale, update_scale, update_position, update_targetPos,
    update_randomVelocity.
  split; [exact H1 |]. split; [| split; [| split; [exact H4 | exact H5]]].
  - apply between_lerp; [lra | exact H2 | now apply scaleGoal_between].
  - apply between_lerp; [lra | exact H3 | exact H4].
Qed.

Lemma between_zero lo hi : lo <= 0 <= hi -> between lo hi Vector3Ops.zero.
Proof. intros H. unfold between, Vector3Ops.zero; cbn [x y z]. repeat split; lra. Qed.

(** A particle fresh from the constructor, on an object of unit scale
    placed in the cube. *)
Lemma saneParticle_new rnd idText m t :
  in_unit rnd ->
  scale m = mkVector3 1 1 1 ->
  between (-60) 60 (position m) ->
  saneParticle (ParticleOps.new rnd idText m t).
Proof.
  intros Hr Hs Hp. unfold saneParticle, ParticleOps.new; cbn.
  pose proof (Hr 0%nat). pose proof (Hr 1%nat). pose proof (Hr 2%nat).
  split; [exact Hs |]. rewrite Hs.
  split; [unfold between; cbn [x y z]; repeat split; lra |].
  split; [exact Hp |]. split; [apply between_zero; lra |].
  unfold between; cbn [x y z]. repeat split; lra.
Qed.

Lemma calculateTargets_sane rnd e e' :
  in_unit rnd -> saneScene e -> calculateTargets rnd e = Some e' -> saneScene e'.
Proof.
  intros Hr Hs H. destruct (calculateTargets_inv _ _ _ H) as (fid & d & _ & ->).
  intros q Hq. cbn [particles withParticles] in Hq.
  pose proof (forEachTarget_between rnd Hr _ _ _ _ _ Hq) as Hb.
  destruct (forEachTarget_In _ _ _ _ _ _ _ _ Hq) as (p & j & k' & Hp & E).
  rewrite E in Hb |- *. cbn [targetPos ParticleOps.setTarget] in Hb.
  apply saneParticle_setTarget; [exact Hb | apply Hs, Hp].
Qed.

(** ** Sessions *)

Lemma run_invariant (P : Experience -> Prop) (Q : Event -> Prop) :
  (forall ev e e', Q ev -> P e -> fire ev e = Some e' -> P e') ->
  forall evs e e', Forall Q evs -> P e -> run evs e = Some e' -> P e'.
Proof.
  intros Hstep evs. induction evs as [| ev evs IH]; intros e e' HQ HP H; cbn [run] in H.
  - now injection H as <-.
  - destruct (fire ev e) as [e1 |] eqn:E; [| discriminate].
    inversion HQ as [| ? ? Hev Hevs]; subst.
    apply (IH e1 e'); [exact Hevs | exact (Hstep ev e e1 Hev HP E) | exact H].
Qed.

Lemma run_app evs1 evs2 e :
  run (evs1 ++ evs2) e
  = match run evs1 e with Some e1 => run evs2 e1 | None => None end.
Proof.
  revert e. induction evs1 as [| ev evs1 IH]; intros e; cbn [run app]; [reflexivity |].
  destruct (fire ev e); [apply IH | reflexivity].
Qed.

(** The three ways a call of [processGestures] returns: it did nothing; it
    recorded the time of a frame without a hand; it recorded the time, moved
    the pointer to the hand and either kept the mode or committed the
    requested one and laid the particles out again. *)
Lemma processGestures_inv rnd f e e' :
  processGestures rnd f e = Some e' ->
  e' = e
  \/ (ready f e = true
      /\ (e' = withLastVideoTime (currentTime f) e
          \/ exists h, sees f h
               /\ (e' = pointed h (withLastVideoTime (currentTime f) e)
                   \/ calculateTargets rnd
                        (committed (requested (mode (state e)) h) h f e) = Some e'))).
Proof.
  unfold processGestures.
  destruct (ready f e); cbn [negb]; [| intros H; injection H as <-; now left].
  destruct (negb (Reqb _ _)); [| intros H; injection H as <-; now left].
  intros H. right. split; [reflexivity |].
  destruct (landmarks f) as [[| lms rest] |] eqn:El;
    try (injection H as <-; now left).
  rewrite handleHand_points in H.
  destruct (handPoints lms) as [h |] eqn:Eh; [| discriminate].
  right. exists h. split; [now exists lms, rest |].
  destruct (requestMode_inv _ _ _ _ H) as [[_ ->] | [_ Hc]]; [now left | right; exact Hc].
Qed.

Lemma animate_inv rnd f e e' :
  animate rnd f e = Some e' ->
  exists e1,
    processGestures rnd f e = Some e1
    /\ particles e' = map (ParticleOps.update (mode (state e1)) (focusTargetId e1))
                         (particles e1)
    /\ handLandmarker e' = handLandmarker e1
    /\ video e' = video e1
    /\ lastVideoTime e' = lastVideoTime e1
    /\ state e' = state e1
    /\ focusTargetId e' = focusTargetId e1
    /\ mainGroupRotation e'
       = mkVector3
           (MathUtils.lerp (x (mainGroupRotation e1)) (handY (state e1) * 0.8) 0.05)
           (MathUtils.lerp (y (mainGroupRotation e1)) (handX (state e1) * 1.5) 0.05)
           (z (mainGroupRotation e1))
    /\ dustRotationY e' = dustRotationY e1 + 0.001.
Proof.
  unfold animate. destruct (processGestures rnd f e) as [e1 |]; [| discriminate].
  intros H. injection H as <-. exists e1. now repeat split.
Qed.

Lemma fire_reachable ev e e' :
  tapeOk ev -> reachable e -> fire ev e = Some e' -> reachable e'.
Proof.
  destruct ev as [rnd s | rnd f | |]; cbn [tapeOk fire]; intros Hr He H.
  - exact (reach_photo rnd s e e' He Hr H).
  - exact (reach_frame rnd f e e' He Hr H).
  - injection H as <-. now apply reach_tracker.
  - injection H as <-. now apply reach_video.
Qed.

Lemma run_reachable evs e e' :
  Forall tapeOk evs -> reachable e -> run evs e = Some e' -> reachable e'.
Proof. apply (run_invariant reachable tapeOk). exact fire_reachable. Qed.

(** With tapes in [0,1) and full hands no event throws. *)
Lemma animate_total rnd f e :
  in_unit rnd -> handsOk (Tick rnd f) -> exists e', animate rnd f e = Some e'.
Proof.
  intros Hr Hh. unfold animate.
  assert (Hp : exists e1, processGestures rnd f e = Some e1).
  { unfold processGestures.
    destruct (negb (ready f e)); [now eexists |].
    destruct (negb (Reqb _ _)); [| now eexists].
    destruct (landmarks f) as [[| lms rest] |] eqn:El; try (now eexists).
    rewrite handleHand_points.
    destruct (handPoints_total lms (Hh lms rest El)) as [h ->].
    now apply requestMode_total. }
  destruct Hp as [e1 ->]. now eexists.
Qed.

Lemma fire_total ev e : tapeOk ev -> handsOk ev -> exists e', fire ev e = Some e'.
Proof.
  destruct ev as [rnd s | rnd f | |]; cbn [tapeOk fire]; intros Hr Hh.
  - destruct (addPhotoToScene_spec rnd s e Hr) as (e' & H & _). now exists e'.
  - now apply animate_total.
  - now eexists.
  - now eexists.
Qed.

Lemma run_total evs e :
  Forall tapeOk evs -> Forall handsOk evs -> exists e', run evs e = Some e'.
Proof.
  revert e. induction evs as [| ev evs IH]; intros e Ht Hh; cbn [run]; [now eexists |].
  inversion Ht; subst. inversion Hh; subst.
  destruct (fire_total ev e) as [e1 ->]; auto.
Qed.

(** ** The layout follows the mode *)

Lemma forEachTarget_length rnd md fid n i k ps :
  List.length (forEachTarget rnd md fid n i k ps) = List.length ps.
Proof. apply same_ids_same_length, forEachTarget_ids. Qed.

(** Whatever the state before, [calculateTargets] leaves the layout of the
    mode behind. *)
Lemma calculateTargets_laidOut rnd e e' :
  in_unit rnd -> calculateTargets rnd e = Some e' -> laidOut e'.
Proof.
  intros Hr H. destruct (calculateTargets_inv _ _ _ H) as (fid & d & _ & ->).
  unfold laidOut. cbn [state mode particles focusTargetId withParticles withFocusTargetId].
  destruct (mode (state e)).
  - intros i p Hp. rewrite forEachTarget_length.
    now rewrite (forEachTarget_TREE _ _ _ _ _ _ _ _ Hp).
  - intros p Hp. pose proof (forEachTarget_SCATTER rnd Hr _ _ _ _ _ _ Hp). lra.
  - intros p Hp. destruct (forEachTarget_FOCUS rnd Hr _ _ _ _ _ _ Hp) as [H1 H2].
    split; [exact H1 |]. intros NE. destruct (H2 NE) as (H3 & H4 & _).
    split; [exact H3 | lra].
Qed.






Lemma shortSession_ok : Forall tapeOk shortSession /\ Forall handsOk shortSession.
Proof.
  split.
  - apply Forall_cons; [exact zeroTape_in_unit |].
    apply Forall_cons; [exact zeroTape_in_unit |].
    apply Forall_cons; [exact halfTape_in_unit | apply Forall_nil].
  - apply Forall_cons; [| apply Forall_cons; [exact I |]].
    + intros lms rest H. injection H as <- _. cbn. lia.
    + apply Forall_cons; [| apply Forall_nil]. intros lms rest H. discriminate.
Qed.



(** ** Nothing leaves the stage *)

Lemma addDecoration_inv rnd s e :
  exists t d,
    t <> PHOTO
    /\ (1 <= d <= 2)%nat
    /\ addDecoration rnd s e
       = withParticles
           (particles e
            ++ [ParticleOps.new (skip (d + 3) rnd) s
                  {| position := mkVector3 ((rnd d - 0.5) * 60)
                                           ((rnd (d + 1)%nat - 0.5) * 60)
                                           ((rnd (d + 2)%nat - 0.5) * 60);
                     rotation := Vector3Ops.zero;
                     scale := mkVector3 1 1 1 |} t]) e.
Proof.
  unfold addDecoration.
  destruct (Rltb (rnd 0%nat) 0.5); [| destruct (Rltb (rnd 0%nat) 0.85)].
  - exists BOX, 2%nat. split; [discriminate |]. split; [lia | reflexivity].
  - exists SPHERE, 2%nat. split; [discriminate |]. split; [lia | reflexivity].
  - exists CANDY, 1%nat. split; [discriminate |]. split; [lia | reflexivity].
Qed.

(** A decoration starts in the cube of half-side 30. *)
Lemma decoration_position rnd d :
  in_unit rnd ->
  between (-30) 30 (mkVector3 ((rnd d - 0.5) * 60) ((rnd (d + 1)%nat - 0.5) * 60)
                              ((rnd (d + 2)%nat - 0.5) * 60)).
Proof.
  intros Hr. pose proof (Hr d). pose proof (Hr (d + 1)%nat). pose proof (Hr (d + 2)%nat).
  unfold between; cbn [x y z]. repeat split; lra.
Qed.

Lemma saneScene_app e p :
  saneScene e -> saneParticle p -> saneScene (withParticles (particles e ++ [p]) e).
Proof.
  intros He Hp q Hq. cbn [particles withParticles] in Hq.
  apply in_app_or in Hq. destruct Hq as [Hq | [<- | []]]; [now apply He | exact Hp].
Qed.

Lemma addDecoration_sane rnd s e :
  in_unit rnd -> saneScene e -> saneScene (addDecoration rnd s e).
Proof.
  intros Hr He. destruct (addDecoration_inv rnd s e) as (t & d & _ & _ & ->).
  apply saneScene_app; [exact He |].
  apply saneParticle_new; [now apply skip_in_unit | reflexivity |].
  cbn [position]. apply (between_wider (-30) 30); [lra | lra |].
  now apply decoration_position.
Qed.

Lemma addPhotoToScene_sane rnd s e e' :
  in_unit rnd -> saneScene e -> addPhotoToScene rnd s e = Some e' -> saneScene e'.
Proof.
  intros Hr He H. unfold addPhotoToScene in H.
  apply (calculateTargets_sane _ _ _ (skip_in_unit 4 rnd Hr)) in H; [exact H |].
  apply saneScene_app; [exact He |].
  apply saneParticle_new; [exact Hr | reflexivity |].
  cbn [position freshObject]. apply between_zero. lra.
Qed.

Lemma processGestures_sane rnd f e e' :
  in_unit rnd -> saneScene e -> processGestures rnd f e = Some e' -> saneScene e'.
Proof.
  intros Hr He H.
  destruct (processGestures_inv _ _ _ _ H) as [-> | [_ [-> | (h & _ & [-> | Hc])]]];
    [exact He | exact He | exact He |].
  apply (calculateTargets_sane _ _ _ Hr) in Hc; [exact Hc | exact He].
Qed.

Lemma animate_sane rnd f e e' :
  in_unit rnd -> saneScene e -> animate rnd f e = Some e' -> saneScene e'.
Proof.
  intros Hr He H. destruct (animate_inv _ _ _ _ H) as (e1 & Hp & Hps & _).
  pose proof (processGestures_sane _ _ _ _ Hr He Hp) as H1.
  intros q Hq. rewrite Hps in Hq. apply in_map_iff in Hq.
  destruct Hq as (p & <- & Hin). apply saneParticle_update. now apply H1.
Qed.

Lemma reachable_sane e : reachable e -> saneScene e.
Proof.
  induction 1 as [| rnd idText e _ IH Hr | rnd idText e e' _ IH Hr H
                  | rnd e e' _ IH Hr H | e _ IH | e _ IH | rnd f e e' _ IH Hr H].
  - intros p [].
  - now apply addDecoration_sane.
  - exact (addPhotoToScene_sane _ _ _ _ Hr IH H).
  - exact (calculateTargets_sane _ _ _ Hr IH H).
  - exact IH.
  - exact IH.
  - exact (animate_sane _ _ _ _ Hr IH H).
Qed.

(** X8.  In every reachable state every particle is on the stage: its
    scale is between 0.001 and 4.5 on every axis (so never zero or
    negative), its position and its target are in the cube of half-side 60
    around the origin, its initial scale is 1 and its drift at most 0.02 per
    axis and frame. *)
Theorem scene_stays_in_bounds :
  forall e : Experience,
    reachable e ->
    forall p, In p (particles e) ->
      initialScale p = mkVector3 1 1 1
      /\ between 0.001 4.5 (scale (mesh p))
      /\ between (-60) 60 (position (mesh p))
      /\ between (-60) 60 (targetPos p)
      /\ between (-0.02) 0.02 (randomVelocity p).
Proof. intros e He p Hp. exact (reachable_sane e He p Hp). Qed.

Lemma scene_stays_in_bounds_witness :
  reachable startScene
  /\ exists p,
       In p (particles startScene)
       /\ initialScale p = mkVector3 1 1 1
       /\ between 0.001 4.5 (scale (mesh p))
       /\ between (-60) 60 (position (mesh p))
       /\ between (-60) 60 (targetPos p)
       /\ between (-0.02) 0.02 (randomVelocity p).
Proof.
  split; [exact startScene_reachable |].
  exists (hd (photo "c3") (particles startScene)).
  assert (Hin : In (hd (photo "c3") (particles startScene)) (particles startScene))
    by (left; reflexivity).
  split; [exact Hin |].
  exact (scene_stays_in_bounds startScene startScene_reachable _ Hin).
Defined.

(** ** The flags of the state record *)

Lemma calculateTargets_flags rnd e e' :
  calculateTargets rnd e = Some e' -> flags (state e') = flags (state e).
Proof.
  intros H. destruct (calculateTargets_frame _ _ _ H) as (-> & _). reflexivity.
Qed.

Lemma processGestures_flags rnd f e e' :
  processGestures rnd f e = Some e' -> flags (state e') = flags (state e).
Proof.
  intros H.
  destruct (processGestures_inv _ _ _ _ H) as [-> | [_ [-> | (h & _ & [-> | Hc])]]];
    try reflexivity.
  now rewrite (calculateTargets_flags _ _ _ Hc).
Qed.

Lemma animate_flags rnd f e e' :
  animate rnd f e = Some e' -> flags (state e') = flags (state e).
Proof.
  intros H. destruct (animate_inv _ _ _ _ H) as (e1 & Hp & _ & _ & _ & _ & -> & _).
  exact (processGestures_flags _ _ _ _ Hp).
Qed.

Lemma reachable_flags e : reachable e -> flags (state e) = (false, false, false, true).
Proof.
  induction 1 as [| rnd idText e _ IH Hr | rnd idText e e' _ IH Hr H
                  | rnd e e' _ IH Hr H | e _ IH | e _ IH | rnd f e e' _ IH Hr H].
  - reflexivity.
  - destruct (addDecoration_inv rnd idText e) as (t & d & _ & _ & ->). exact IH.
  - unfold addPhotoToScene in H. now rewrite (calculateTargets_flags _ _ _ H).
  - now rewrite (calculateTargets_flags _ _ _ H).
  - exact IH.
  - exact IH.
  - now rewrite (animate_flags _ _ _ _ H).
Qed.

(** X9.  The flags [pinchDetected], [fistDetected] and [openHandDetected]
    of the state record are never set, whatever gesture is seen, and
    [controlsVisible] is never cleared: in every reachable state they have
    the values of the field initialiser.  A gesture shows in [mode], [handX]
    and [handY] only. *)
Theorem gesture_flags_are_never_written :
  forall e : Experience,
    reachable e ->
    pinchDetected (state e) = false
    /\ fistDetected (state e) = false
    /\ openHandDetected (state e) = false
    /\ controlsVisible (state e) = true.
Proof.
  intros e He. pose proof (reachable_flags e He) as H. unfold flags in H.
  injection H as -> -> -> ->. now repeat split.
Qed.

Lemma gesture_flags_witness :
  exists e,
    reachable e
    /\ mode (state e) = FOCUS
    /\ pinchDetected (state e) = false
    /\ fistDetected (state e) = false
    /\ openHandDetected (state e) = false
    /\ controlsVisible (state e) = true.
Proof.
  destruct empty_focus_id_reachable as (e & Hreach & Hmode & _).
  exists e. split; [exact Hreach |]. split; [exact Hmode |].
  exact (gesture_flags_are_never_written e Hreach).
Defined.

(** ** Particles are only added *)

Lemma calculateTargets_identity rnd e e' :
  calculateTargets rnd e = Some e' ->
  map identity (particles e') = map identity (particles e).
Proof.
  intros H. destruct (calculateTargets_inv _ _ _ H) as (fid & d & _ & ->).
  cbn [particles withParticles withFocusTargetId]. now apply forEachTarget_map.
Qed.

Lemma processGestures_identity rnd f e e' :
  processGestures rnd f e = Some e' ->
  map identity (particles e') = map identity (particles e).
Proof.
  intros H.
  destruct (processGestures_inv _ _ _ _ H) as [-> | [_ [-> | (h & _ & [-> | Hc])]]];
    try reflexivity.
  exact (calculateTargets_identity _ _ _ Hc).
Qed.

Lemma animate_identity rnd f e e' :
  animate rnd f e = Some e' ->
  map identity (particles e') = map identity (particles e).
Proof.
  intros H. destruct (animate_inv _ _ _ _ H) as (e1 & Hp & -> & _).
  rewrite map_map, <- (processGestures_identity _ _ _ _ Hp).
  apply map_ext. intros p. apply update_identity.
Qed.

Lemma fire_identity ev e e' :
  fire ev e = Some e' ->
  exists added,
    map identity (particles e') = map identity (particles e ++ added)
    /\ map id added = uploadIds [ev]
    /\ (forall p, In p added -> type p = PHOTO /\ initialScale p = mkVector3 1 1 1).
Proof.
  destruct ev as [rnd s | rnd f | |]; cbn [fire uploadIds flat_map app]; intros H.
  - exists [ParticleOps.new rnd s freshObject PHOTO].
    unfold addPhotoToScene in H. rewrite (calculateTargets_identity _ _ _ H).
    split; [reflexivity |]. split; [reflexivity |].
    intros p [<- | []]. now split.
  - exists []. rewrite app_nil_r. split; [exact (animate_identity _ _ _ _ H) |].
    split; [reflexivity | intros p []].
  - injection H as <-. exists []. rewrite app_nil_r.
    split; [reflexivity |]. split; [reflexivity | intros p []].
  - injection H as <-. exists []. rewrite app_nil_r.
    split; [reflexivity |]. split; [reflexivity | intros p []].
Qed.

Lemma run_identity evs e e' :
  run evs e = Some e' ->
  exists added,
    map identity (particles e') = map identity (particles e ++ added)
    /\ map id added = uploadIds evs
    /\ (forall p, In p added -> type p = PHOTO /\ initialScale p = mkVector3 1 1 1).
Proof.
  revert e. induction evs as [| ev evs IH]; intros e H; cbn [run] in H.
  - injection H as <-. exists []. rewrite app_nil_r.
    split; [reflexivity |]. split; [reflexivity | intros p []].
  - destruct (fire ev e) as [e1 |] eqn:E; [| discriminate].
    destruct (fire_identity _ _ _ E) as (a1 & H1 & I1 & P1).
    destruct (IH e1 H) as (a2 & H2 & I2 & P2).
    exists (a1 ++ a2). split; [| split].
    + rewrite H2, map_app, H1, app_assoc, !map_app. reflexivity.
    + rewrite map_app, I1, I2. change (ev :: evs) with ([ev] ++ evs).
      unfold uploadIds. now rewrite flat_map_app.
    + intros p Hp. apply in_app_or in Hp. destruct Hp; [now apply P1 | now apply P2].
Qed.

(** X10.  A session never removes or reorders a particle and never changes
    what identifies one: after any events the ids, types, initial scales
    and drifts of the particles are those of before, in the same order,
    followed by one PHOTO particle of unit initial scale per upload, in
    upload order.  So the number of particles is the old number plus the
    number of uploads. *)
Theorem particles_are_only_added :
  forall (evs : list Event) (e e' : Experience),
    run evs e = Some e' ->
    exists added,
      map identity (particles e') = map identity (particles e ++ added)
      /\ map id added = uploadIds evs
      /\ (forall p, In p added -> type p = PHOTO /\ initialScale p = mkVector3 1 1 1)
      /\ List.length (particles e')
         = (List.length (particles e) + List.length (uploadIds evs))%nat.
Proof.
  intros evs e e' H. destruct (run_identity _ _ _ H) as (added & H1 & H2 & H3).
  exists added. split; [exact H1 |]. split; [exact H2 |]. split; [exact H3 |].
  apply (f_equal (@List.length _)) in H1. rewrite !length_map, length_app in H1.
  rewrite H1, <- H2, length_map. reflexivity.
Qed.

Lemma particles_are_only_added_witness :
  exists e' added,
    run shortSession startScene = Some e'
    /\ map identity (particles e') = map identity (particles startScene ++ added)
    /\ map id added = ["d4"%string]
    /\ (forall p, In p added -> type p = PHOTO /\ initialScale p = mkVector3 1 1 1)
    /\ List.length (particles e') = 2%nat.
Proof.
  destruct shortSession_ok as [Ht Hh].
  destruct (run_total shortSession startScene Ht Hh) as [e' He'].
  destruct (particles_are_only_added shortSession startScene e' He')
    as (added & H1 & H2 & H3 & H4).
  exists e', added.
  split; [exact He' |]. split; [exact H1 |]. split; [exact H2 |].
  split; [exact H3 | exact H4].
Defined.

(** ** Without hand tracking *)

Lemma blind_not_ready e rnd f evs : blind e (Tick rnd f :: evs) -> ready f e = false.
Proof.
  unfold ready. intros [[H _] | [[H _] | H]].
  - now rewrite H.
  - rewrite H. now rewrite andb_false_r.
  - specialize (H rnd f (or_introl eq_refl)). apply Nat.ltb_lt in H. rewrite H.
    now rewrite andb_false_r.
Qed.

Lemma processGestures_not_ready rnd f e :
  ready f e = false -> processGestures rnd f e = Some e.
Proof. intros H. unfold processGestures. now rewrite H. Qed.

Lemma blind_step ev evs e e1 :
  blind e (ev :: evs) -> fire ev e = Some e1 ->
  blind e1 evs
  /\ state e1 = state e
  /\ lastVideoTime e1 = lastVideoTime e
  /\ z (mainGroupRotation e1) = z (mainGroupRotation e)
  /\ (handX (state e) = 0 -> handY (state e) = 0 ->
      x (mainGroupRotation e) = 0 -> y (mainGroupRotation e) = 0 ->
      x (mainGroupRotation e1) = 0 /\ y (mainGroupRotation e1) = 0).
Proof.
  intros Hb H.
  assert (Hrest : handLandmarker e1 = handLandmarker e -> video e1 = video e ->
                  blind e1 evs).
  { intros Hl Hv. destruct Hb as [[Hb Hn] | [[Hb Hn] | Hb]].
    - left. split; [congruence | intros Hin; apply Hn; now right].
    - right; left. split; [congruence | intros Hin; apply Hn; now right].
    - right; right. intros rnd f Hin. apply (Hb rnd f). now right. }
  destruct ev as [rnd s | rnd f | |]; cbn [fire] in H.
  - unfold addPhotoToScene in H.
    destruct (calculateTargets_frame _ _ _ H) as (H1 & H2 & H3 & H4 & H5 & _).
    cbn in H1, H2, H3, H4, H5. rewrite H5.
    split; [now apply Hrest |]. now repeat split.
  - pose proof (blind_not_ready _ _ _ _ Hb) as Hn. unfold animate in H.
    rewrite (processGestures_not_ready _ _ _ Hn) in H. injection H as <-.
    cbn. split; [now apply Hrest |]. split; [reflexivity |]. split; [reflexivity |].
    split; [reflexivity |].
    intros Hx Hy Rx Ry. rewrite Hx, Hy, Rx, Ry. unfold MathUtils.lerp. split; lra.
  - injection H as <-.
    split; [| cbn; now repeat split].
    destruct Hb as [[Hb Hn] | [[Hb Hn] | Hb]].
    + exfalso. apply Hn. now left.
    + right; left. split; [exact Hb | intros Hin; apply Hn; now right].
    + right; right. intros rnd f Hin. apply (Hb rnd f). now right.
  - injection H as <-.
    split; [| cbn; now repeat split].
    destruct Hb as [[Hb Hn] | [[Hb Hn] | Hb]].
    + left. split; [exact Hb | intros Hin; apply Hn; now right].
    + exfalso. apply Hn. now left.
    + right; right. intros rnd f Hin. apply (Hb rnd f). now right.
Qed.

Lemma blind_run evs e e' :
  blind e evs -> run evs e = Some e' ->
  state e' = state e
  /\ lastVideoTime e' = lastVideoTime e
  /\ z (mainGroupRotation e') = z (mainGroupRotation e)
  /\ (handX (state e) = 0 -> handY (state e) = 0 ->
      x (mainGroupRotation e) = 0 -> y (mainGroupRotation e) = 0 ->
      x (mainGroupRotation e') = 0 /\ y (mainGroupRotation e') = 0).
Proof.
  revert e. induction evs as [| ev evs IH]; intros e Hb H; cbn [run] in H.
  - injection H as <-. now repeat split.
  - destruct (fire ev e) as [e1 |] eqn:E; [| discriminate].
    destruct (blind_step _ _ _ _ Hb E) as (Hb1 & S1 & T1 & Z1 & R1).
    destruct (IH e1 Hb1 H) as (S2 & T2 & Z2 & R2).
    split; [congruence |]. split; [congruence |]. split; [congruence |].
    intros Hx Hy Rx Ry. destruct (R1 Hx Hy Rx Ry) as [Rx1 Ry1].
    apply R2; [now rewrite S1 | now rewrite S1 | exact Rx1 | exact Ry1].
Qed.

(** X11.  When hand tracking is not available -- the tracker failed to
    load, or the video element was not bound, or the camera delivers no
    frame with data -- no frame and no upload changes the state record or
    the recorded timestamp: the mode stays what it was, the pointer does not
    move.  A main group that is at rest under a centred pointer stays at
    rest.  Uploads still work, and the particles still glide. *)
Theorem no_tracking_no_interaction :
  forall (evs : list Event) (e e' : Experience),
    blind e evs ->
    run evs e = Some e' ->
    state e' = state e
    /\ lastVideoTime e' = lastVideoTime e
    /\ z (mainGroupRotation e') = z (mainGroupRotation e)
    /\ (handX (state e) = 0 -> handY (state e) = 0 ->
        x (mainGroupRotation e) = 0 -> y (mainGroupRotation e) = 0 ->
        x (mainGroupRotation e') = 0 /\ y (mainGroupRotation e') = 0).
Proof. intros evs e e' Hb H. exact (blind_run evs e e' Hb H). Qed.

Lemma no_tracking_no_interaction_witness :
  blind (afterPhoto "c3" initial) shortSession
  /\ exists e',
       run shortSession (afterPhoto "c3" initial) = Some e'
       /\ state e' = state initial
       /\ lastVideoTime e' = -1
       /\ x (mainGroupRotation e') = 0 /\ y (mainGroupRotation e') = 0.
Proof.
  assert (Hb : blind (afterPhoto "c3" initial) shortSession).
  { left. split; [reflexivity |].
    intros [H | [H | [H | []]]]; discriminate. }
  destruct shortSession_ok as [Ht Hh].
  destruct (run_total shortSession (afterPhoto "c3" initial) Ht Hh) as [e' He'].
  destruct (no_tracking_no_interaction shortSession _ e' Hb He') as (H1 & H2 & _ & H4).
  split; [exact Hb |]. exists e'. split; [exact He' |].
  split; [exact H1 |]. split; [exact H2 |].
  apply H4; reflexivity.
Defined.

(** ** Frames that bring nothing new *)








(** ** The main group never turns far *)

Lemma lerp_between lo hi a b t :
  0 <= t <= 1 -> lo <= a <= hi -> lo <= b <= hi -> lo <= MathUtils.lerp a b t <= hi.
Proof. intros Ht Ha Hb. unfold MathUtils.lerp. split; nra. Qed.

Lemma processGestures_steady rnd f e e' :
  pointerInView (Tick rnd f) ->
  steady e ->
  processGestures rnd f e = Some e' ->
  steady e' /\ mainGroupRotation e' = mainGroupRotation e.
Proof.
  intros Hv Hs H.
  assert (Hp : forall h, sees f h ->
            steady (pointed h (withLastVideoTime (currentTime f) e))).
  { intros h Hh. destruct (Hv h Hh) as [Hx Hy]. destruct Hs as (_ & _ & Ry & Rx).
    unfold steady. cbn. repeat split; lra. }
  destruct (processGestures_inv _ _ _ _ H) as [-> | [_ [-> | (h & Hh & [-> | Hc])]]].
  - now split.
  - now split.
  - split; [now apply Hp | reflexivity].
  - destruct (calculateTargets_frame _ _ _ Hc) as (Hst & _ & _ & _ & Hr & _).
    split; [| exact Hr].
    specialize (Hp h Hh). unfold steady in *. rewrite Hst, Hr. exact Hp.
Qed.

Lemma fire_steady ev e e' :
  pointerInView ev -> steady e -> fire ev e = Some e' ->
  steady e' /\ z (mainGroupRotation e') = z (mainGroupRotation e).
Proof.
  destruct ev as [rnd s | rnd f | |]; cbn [fire]; intros Hv Hs H.
  - unfold addPhotoToScene in H.
    destruct (calculateTargets_frame _ _ _ H) as (Hst & _ & _ & _ & Hr & _).
    unfold steady. rewrite Hst, Hr. now split.
  - destruct (animate_inv _ _ _ _ H) as (e1 & Hp & _ & _ & _ & _ & Hst & _ & Hr & _).
    destruct (processGestures_steady _ _ _ _ Hv Hs Hp) as [(Hx & Hy & Ry & Rx) Hr1].
    unfold steady. rewrite Hst, Hr, <- Hr1. cbn [x y z].
    split; [| reflexivity].
    split; [exact Hx |]. split; [exact Hy |].
    split; apply lerp_between; try lra.
  - injection H as <-. now split.
  - injection H as <-. now split.
Qed.

Lemma run_steady evs e e' :
  Forall pointerInView evs -> steady e -> run evs e = Some e' ->
  steady e' /\ z (mainGroupRotation e') = z (mainGroupRotation e).
Proof.
  intros Hv Hs H.
  apply (run_invariant
           (fun e1 => steady e1 /\ z (mainGroupRotation e1) = z (mainGroupRotation e))
           pointerInView) with (evs := evs) (e := e); [| exact Hv | now split | exact H].
  intros ev e1 e2 Hev [Hs1 Hz1] Hf.
  destruct (fire_steady _ _ _ Hev Hs1 Hf) as [Hs2 Hz2].
  split; [exact Hs2 | congruence].
Qed.

(** X13.  As long as the palm centre of every tracked hand lies inside the
    image (landmark 9 with x and y in [0,1]), the pointer stays in [-1,1]
    on both axes and the main group never turns by more than 1.5 about the
    vertical axis or 0.8 about the horizontal one; it never rolls (its
    rotation about z is never written). *)
Theorem scene_rotation_is_bounded :
  forall (evs : list Event) (e e' : Experience),
    steady e ->
    Forall pointerInView evs ->
    run evs e = Some e' ->
    -1 <= handX (state e') <= 1
    /\ -1 <= handY (state e') <= 1
    /\ -1.5 <= y (mainGroupRotation e') <= 1.5
    /\ -0.8 <= x (mainGroupRotation e') <= 0.8
    /\ z (mainGroupRotation e') = z (mainGroupRotation e).
Proof.
  intros evs e e' Hs Hv H.
  destruct (run_steady evs e e' Hv Hs H) as [(Hx & Hy & Ry & Rx) Hz].
  split; [exact Hx |]. split; [exact Hy |]. split; [exact Ry |]. split; [exact Rx | exact Hz].
Qed.

Lemma shortSession_inView : Forall pointerInView shortSession.
Proof.
  apply Forall_cons; [| apply Forall_cons; [exact I | apply Forall_cons; [| apply Forall_nil]]].
  - intros h (lms & rest & Hl & Hh). unfold pinchFrame in Hl. cbn [landmarks] in Hl.
    injection Hl as <- <-.
    rewrite handPoints_flatHand in Hh. injection Hh as <-. cbn. lra.
  - intros h (lms & rest & Hl & Hh). discriminate.
Qed.

Lemma startScene_steady : steady startScene.
Proof. unfold steady. cbn. lra. Qed.

Lemma scene_rotation_is_bounded_witness :
  steady startScene
  /\ Forall pointerInView shortSession
  /\ exists e',
       run shortSession startScene = Some e'
       /\ -1 <= handX (state e') <= 1
       /\ -1 <= handY (state e') <= 1
       /\ -1.5 <= y (mainGroupRotation e') <= 1.5
       /\ -0.8 <= x (mainGroupRotation e') <= 0.8
       /\ z (mainGroupRotation e') = 0.
Proof.
  destruct shortSession_ok as [Ht Hh].
  destruct (run_total shortSession startScene Ht Hh) as [e' He'].
  split; [exact startScene_steady |]. split; [exact shortSession_inView |].
  exists e'. split; [exact He' |].
  exact (scene_rotation_is_bounded shortSession startScene e'
           startScene_steady shortSession_inView He').
Defined.

(** ** initContent *)

Lemma nth_error_same {A B : Type} (f : A -> B) (l l' : list A) k p :
  map f l = map f l' -> nth_error l k = Some p ->
  exists q, nth_error l' k = Some q /\ f q = f p.
Proof.
  intros E H. apply (map_nth_error f) in H. rewrite E, nth_error_map in H.
  destruct (nth_error l' k) as [q |]; [| discriminate].
  cbn in H. injection H as H. now exists q.
Qed.

Lemma calculateTargets_body rnd e e' :
  calculateTargets rnd e = Some e' -> map body (particles e') = map body (particles e).
Proof.
  intros H. destruct (calculateTargets_inv _ _ _ H) as (fid & d & _ & ->).
  cbn [particles withParticles withFocusTargetId]. now apply forEachTarget_map.
Qed.

Lemma withParticles_same e : withParticles (particles e) e = e.
Proof. now destruct e. Qed.

Lemma decorate_fst n rnd ids e :
  fst (decorate (S n) rnd ids e)
  = fst (decorate n (skip (decorationDraws rnd) rnd) (fun k => ids (S k))
           (addDecoration rnd (ids O) e)).
Proof.
  cbn [decorate].
  now destruct (decorate n (skip (decorationDraws rnd) rnd) (fun k => ids (S k))
                  (addDecoration rnd (ids O) e)).
Qed.

(** The loop appends [n] decorations with the ids [ids 0], ..., and touches
    nothing else. *)
Lemma decorate_spec n :
  forall rnd ids e,
    in_unit rnd ->
    exists l,
      fst (decorate n rnd ids e) = withParticles (particles e ++ l) e
      /\ map id l = map ids (seq 0 n)
      /\ (forall p, In p l -> decoration p).
Proof.
  induction n as [| n IH]; intros rnd ids e Hr.
  - exists []. cbn [decorate fst seq map]. rewrite app_nil_r, withParticles_same.
    split; [reflexivity |]. split; [reflexivity | intros p []].
  - rewrite decorate_fst.
    destruct (addDecoration_inv rnd (ids O) e) as (t & d & Ht & _ & ->).
    match goal with |- context [particles e ++ [?q]] => set (p0 := q) end.
    destruct (IH (skip (decorationDraws rnd) rnd) (fun k => ids (S k))
                (withParticles (particles e ++ [p0]) e) (skip_in_unit _ rnd Hr))
      as (l & E & Hi & Hd).
    exists (p0 :: l). split; [| split].
    + rewrite E. cbn [particles withParticles]. rewrite <- app_assoc. reflexivity.
    + cbn [map seq]. rewrite Hi, <- seq_shift, map_map. reflexivity.
    + intros p [<- | Hp]; [| now apply Hd].
      unfold decoration, p0. cbn [type mesh ParticleOps.new rotation scale position].
      split; [exact Ht |]. split; [reflexivity |]. split; [reflexivity |].
      now apply decoration_position.
Qed.

Lemma decorate_reachable n :
  forall rnd ids e,
    in_unit rnd -> reachable e -> reachable (fst (decorate n rnd ids e)).
Proof.
  induction n as [| n IH]; intros rnd ids e Hr He; [exact He |].
  rewrite decorate_fst. apply IH; [now apply skip_in_unit |].
  now apply reach_decoration.
Qed.

Lemma dustPositions_spec rnd :
  in_unit rnd ->
  List.length (dustPositions rnd) = (2500 * 3)%nat
  /\ forall v, In v (dustPositions rnd) -> -50 <= v <= 50.
Proof.
  intros Hr. unfold dustPositions. split; [now rewrite length_map, length_seq |].
  intros v Hv. apply in_map_iff in Hv. destruct Hv as (i & <- & _).
  pose proof (Hr i). lra.
Qed.

(** [initContent] returns; its result is the last of two layouts of the
    decorations followed by the default photo. *)
Lemma initContent_inv rnd ids :
  in_unit rnd ->
  exists l photo0 e2 e r2 r3 r4,
    map id l = map ids (seq 0 1500)
    /\ (forall p, In p l -> decoration p)
    /\ photo0 = ParticleOps.new r2 (ids 1500%nat) freshObject PHOTO
    /\ in_unit r3 /\ in_unit r4
    /\ reachable e
    /\ calculateTargets r3 (withParticles (l ++ [photo0]) initial) = Some e2
    /\ calculateTargets r4 e2 = Some e
    /\ in_unit (skip (snd (decorate 1500 rnd ids initial) + 4) rnd)
    /\ initContent rnd ids
       = Some (e, dustPositions (skip (snd (decorate 1500 rnd ids initial) + 4) rnd)).
Proof.
  intros Hr. unfold initContent.
  destruct (decorate_spec 1500 rnd ids initial Hr) as (l & E & Hi & Hd).
  pose proof (decorate_reachable 1500 rnd ids initial Hr reach_initial) as Hreach.
  destruct (decorate 1500 rnd ids initial) as [e1 d]. cbn [fst snd] in *. subst e1.
  cbn [particles initial app] in *.
  unfold addPhotoToScene. cbn [particles withParticles].
  set (photo0 := ParticleOps.new (skip d rnd) (ids 1500%nat) freshObject PHOTO).
  set (e1 := withParticles (l ++ [photo0])
               (withParticles l initial)).
  assert (E1 : e1 = withParticles (l ++ [photo0]) initial) by reflexivity.
  destruct (calculateTargets_total (skip 4 (skip d rnd))
              (skip_in_unit 4 _ (skip_in_unit d rnd Hr)) e1) as [e2 H2].
  destruct (calculateTargets_total (skip (d + 4 + 2500 * 3) rnd)
              (skip_in_unit _ rnd Hr) e2) as [e H3].
  rewrite H2, H3.
  exists l, photo0, e2, e, (skip d rnd), (skip 4 (skip d rnd)),
    (skip (d + 4 + 2500 * 3) rnd).
  split; [exact Hi |]. split; [exact Hd |]. split; [reflexivity |].
  split; [apply skip_in_unit; now apply skip_in_unit |].
  split; [now apply skip_in_unit |].
  split.
  { apply (reach_layout (skip (d + 4 + 2500 * 3) rnd) e2 e);
      [| now apply skip_in_unit | exact H3].
    apply (reach_photo (skip d rnd) (ids 1500%nat) (withParticles l initial) e2 Hreach);
      [now apply skip_in_unit | exact H2]. }
  rewrite <- E1. split; [exact H2 |]. split; [exact H3 |].
  split; [now apply skip_in_unit | reflexivity].
Qed.

(** X14.  [initContent], run on the freshly initialised object with draws
    in [0,1), returns (no index is out of range).  It leaves 1501 particles:
    1500 decorations, none of type PHOTO, each unrotated, of unit scale and
    placed in the cube of half-side 30, followed by the default photo at the
    origin.  The k-th particle has the k-th id made.  The mode is TREE and
    every particle has the spiral target of its index; no focus target is
    set, tracker and video are unbound, nothing is rotated.  The dust has
    2500 * 3 coordinates, each between -50 and 50.  The state is reachable,
    laid out and steady, so what holds of such states holds from here on. *)
Theorem initContent_builds_the_tree :
  forall (rnd : nat -> R) (ids : nat -> string),
    in_unit rnd ->
    exists e dust,
      initContent rnd ids = Some (e, dust)
      /\ map id (particles e) = map ids (seq 0 1501)
      /\ (forall k p, nth_error (particles e) k = Some p ->
            (type p = PHOTO <-> k = 1500%nat)
            /\ targetPos p = TreeSpec.position k 1501
            /\ rotation (mesh p) = Vector3Ops.zero
            /\ scale (mesh p) = mkVector3 1 1 1
            /\ between (-30) 30 (position (mesh p))
            /\ (k = 1500%nat -> position (mesh p) = Vector3Ops.zero))
      /\ state e = state initial
      /\ focusTargetId e = None
      /\ handLandmarker e = false
      /\ video e = false
      /\ lastVideoTime e = -1
      /\ mainGroupRotation e = Vector3Ops.zero
      /\ dustRotationY e = 0
      /\ List.length dust = (2500 * 3)%nat
      /\ (forall v, In v dust -> -50 <= v <= 50)
      /\ reachable e /\ laidOut e /\ steady e.
Proof.
  intros rnd ids Hr.
  destruct (initContent_inv rnd ids Hr)
    as (l & photo0 & e2 & e & r2 & r3 & r4 & Hi & Hd & Hp0 & Hr3 & Hr4 & Hreach
        & H2 & H3 & Hrd & Hinit).
  destruct (dustPositions_spec _ Hrd) as [Hdl Hdv].
  exists e, (dustPositions (skip (snd (decorate 1500 rnd ids initial) + 4) rnd)).
  destruct (calculateTargets_frame _ _ _ H2) as (S2 & T2 & L2 & V2 & R2 & D2 & I2 & _).
  destruct (calculateTargets_frame _ _ _ H3) as (S3 & T3 & L3 & V3 & R3 & D3 & I3 & _).
  cbn [state lastVideoTime handLandmarker video mainGroupRotation dustRotationY
       particles withParticles] in S2, T2, L2, V2, R2, D2, I2.
  assert (Hst : state e = state initial) by congruence.
  assert (Hlen : List.length l = 1500%nat).
  { apply (f_equal (@List.length _)) in Hi. now rewrite !length_map, length_seq in Hi. }
  assert (Hb : map body (particles e) = map body (l ++ [photo0])).
  { rewrite (calculateTargets_body _ _ _ H3), (calculateTargets_body _ _ _ H2).
    reflexivity. }
  assert (Hn : List.length (particles e) = 1501%nat).
  { apply (f_equal (@List.length _)) in Hb.
    rewrite !length_map, length_app, Hlen in Hb. exact Hb. }
  pose proof (calculateTargets_laidOut _ _ _ Hr4 H3) as Hl.
  assert (Hfid : focusTargetId e = None).
  { destruct (calculateTargets_focus _ _ _ H3) as (Hclear & _). apply Hclear.
    rewrite S2. discriminate. }
  split; [exact Hinit |].
  split.
  { rewrite I3, I2, map_app, Hi. change 1501%nat with (S 1500).
    rewrite seq_S, map_app, Hp0. reflexivity. }
  split.
  { intros k p Hk.
    assert (Ht : targetPos p = TreeSpec.position k 1501).
    { unfold laidOut in Hl. rewrite Hst in Hl. cbn [mode state initial] in Hl.
      rewrite <- Hn. now apply Hl. }
    destruct (nth_error_same body _ _ k p Hb Hk) as (q & Hq & E).
    unfold body, identity in E. injection E as Eid Ety Eis Erv Eme.
    rewrite <- Ety, <- Eme.
    destruct (Nat.lt_ge_cases k (List.length l)) as [Hlt | Hge].
    - rewrite nth_error_app1 in Hq by exact Hlt.
      apply nth_error_In in Hq. destruct (Hd q Hq) as (D1 & D2' & D3' & D4).
      split; [split; [intros Hph; contradiction | intros ->; lia] |].
      split; [exact Ht |]. split; [exact D2' |]. split; [exact D3' |].
      split; [exact D4 | intros ->; lia].
    - rewrite nth_error_app2 in Hq by exact Hge.
      destruct (k - List.length l)%nat as [| m] eqn:Ek;
        [| destruct m; discriminate].
      cbn [nth_error] in Hq. injection Hq as <-. rewrite Hp0.
      cbn [type mesh ParticleOps.new freshObject rotation scale position].
      assert (k = 1500%nat) by lia.
      split; [split; [intros _; assumption | reflexivity] |].
      split; [exact Ht |]. split; [reflexivity |]. split; [reflexivity |].
      split; [apply between_zero; lra | reflexivity]. }
  split; [exact Hst |]. split; [exact Hfid |].
  split; [now rewrite L3, L2 |]. split; [now rewrite V3, V2 |].
  split; [now rewrite T3, T2 |]. split; [now rewrite R3, R2 |].
  split; [now rewrite D3, D2 |]. split; [exact Hdl |]. split; [exact Hdv |].
  split; [exact Hreach |]. split; [exact Hl |].
  unfold steady. rewrite Hst, R3, R2. cbn. lra.
Qed.

Lemma initContent_builds_the_tree_witness :
  in_unit zeroTape
  /\ exists e dust,
       initContent zeroTape (fun _ => EmptyString) = Some (e, dust)
       /\ focusTargetId e = None
       /\ state e = state initial
       /\ List.length dust = (2500 * 3)%nat.
Proof.
  split; [exact zeroTape_in_unit |].
  destruct (initContent_builds_the_tree zeroTape (fun _ => EmptyString) zeroTape_in_unit)
    as (e & dust & H1 & _ & _ & H4 & H5 & _ & _ & _ & _ & _ & H11 & _).
  exists e, dust. split; [exact H1 |]. split; [exact H5 |]. split; [exact H4 | exact H11].
Defined.

(** ** The key handler of App *)

Lemma lowerAscii_h c :
  String.eqb (String (lowerAscii c) EmptyString) "h"
  = String.eqb (String c EmptyString) "h" || String.eqb (String c EmptyString) "H".
Proof. destruct c as [[] [] [] [] [] [] [] []]; reflexivity. Qed.

Lemma toLowerCase_h key : String.eqb (toLowerCase key) "h" = isH key.
Proof.
  unfold isH. destruct key as [| c [| c' key]].
  - reflexivity.
  - apply lowerAscii_h.
  - cbn [toLowerCase String.eqb].
    repeat match goal with
           | |- context [Ascii.eqb ?a ?b] => destruct (Ascii.eqb a b)
           end; reflexivity.
Qed.

Lemma handleKeyDown_isH key v : handleKeyDown key v = xorb v (isH key).
Proof.
  unfold handleKeyDown. rewrite toLowerCase_h. destruct (isH key), v; reflexivity.
Qed.

Lemma keyPresses_parity keys :
  forall v, keyPresses keys v = xorb v (Nat.odd (List.length (filter isH keys))).
Proof.
  induction keys as [| k keys IH]; intros v.
  - cbn. now destruct v.
  - unfold keyPresses in *. cbn [fold_left filter]. rewrite IH, handleKeyDown_isH.
    destruct (isH k); cbn [List.length].
    + rewrite Nat.odd_succ, <- Nat.negb_odd. destruct v, (Nat.odd _); reflexivity.
    + now rewrite xorb_false_r.
Qed.

(** X15.  The key handler of the page: a key event whose key is [h] or [H]
    flips the visibility of the controls, any other key (the empty key, a
    longer key name such as Shift, another letter) leaves it alone.  So
    after any sequence of key events the controls are as at the start when
    the number of h and H keys is even and flipped when it is odd, and the
    overlay is hidden exactly when they are not visible. *)
Theorem h_key_toggles_controls :
  forall (keys : list string) (v : bool),
    (forall key, handleKeyDown key v = if isH key then negb v else v)
    /\ (forall key, isH key = true <-> key = "h"%string \/ key = "H"%string)
    /\ keyPresses keys v = xorb v (Nat.odd (List.length (filter isH keys)))
    /\ uiHidden (keyPresses keys v)
       = xorb (uiHidden v) (Nat.odd (List.length (filter isH keys))).
Proof.
  intros keys v. split; [| split; [| split]].
  - intros key. rewrite handleKeyDown_isH. destruct (isH key), v; reflexivity.
  - intros key. unfold isH. rewrite orb_true_iff, !String.eqb_eq. reflexivity.
  - apply keyPresses_parity.
  - unfold uiHidden. rewrite keyPresses_parity.
    destruct v, (Nat.odd _); reflexivity.
Qed.

(** ** When the state record changes *)

Lemma processGestures_state rnd f e e' :
  processGestures rnd f e = Some e' ->
  state e' = state e
  \/ (ready f e = true
      /\ currentTime f <> lastVideoTime e
      /\ exists h,
           sees f h
           /\ state e' = withMode (requested (mode (state e)) h) (state (pointed h e))).
Proof.
  unfold processGestures.
  destruct (ready f e); cbn [negb]; [| intros H; injection H as <-; now left].
  destruct (Reqb (currentTime f) (lastVideoTime e)) eqn:Et; cbn [negb];
    [intros H; injection H as <-; now left |].
  assert (Hne : currentTime f <> lastVideoTime e).
  { intros E. rewrite E, Reqb_refl in Et. discriminate. }
  destruct (landmarks f) as [[| lms rest] |] eqn:El;
    try (intros H; injection H as <-; now left).
  rewrite handleHand_points.
  destruct (handPoints lms) as [h |] eqn:Eh; [| discriminate].
  intros H. right. split; [reflexivity |]. split; [exact Hne |].
  exists h. split; [now exists lms, rest |].
  destruct (requestMode_inv _ _ _ _ H) as [[Hm ->] | [_ Hc]].
  - cbn [mode state pointed withState withHand withLastVideoTime] in Hm |- *.
    rewrite Hm.
    exact (eq_sym (withMode_same
                     (withHand ((lx (center h) - 0.5) * 2) ((ly (center h) - 0.5) * 2)
                        (state e)))).
  - destruct (calculateTargets_frame _ _ _ Hc) as (Hst & _). exact Hst.
Qed.

(** X16.  An event changes the state record only if it is a frame that
    passes the readiness guard, carries a timestamp other than the recorded
    one and shows a hand; then the pointer is landmark 9 of the first hand
    remapped by (v - 0.5) * 2 and the mode is the one that hand's gesture
    requests.  Uploads, bindings, stale frames, frames without a hand and
    frames stopped by the guard leave mode, pointer and flags as they
    are. *)
Theorem state_changes_only_on_a_seen_hand :
  forall (ev : Event) (e e' : Experience),
    fire ev e = Some e' ->
    state e' = state e
    \/ exists rnd f h,
         ev = Tick rnd f
         /\ ready f e = true
         /\ currentTime f <> lastVideoTime e
         /\ sees f h
         /\ mode (state e') = requested (mode (state e)) h
         /\ handX (state e') = (lx (center h) - 0.5) * 2
         /\ handY (state e') = (ly (center h) - 0.5) * 2
         /\ flags (state e') = flags (state e).
Proof.
  intros ev e e' H. destruct ev as [rnd s | rnd f | |]; cbn [fire] in H.
  - left. unfold addPhotoToScene in H.
    now destruct (calculateTargets_frame _ _ _ H) as (Hst & _).
  - destruct (animate_inv _ _ _ _ H) as (e1 & Hp & _ & _ & _ & _ & Hst & _).
    destruct (processGestures_state _ _ _ _ Hp) as [E | (Hr & Ht & h & Hh & E)].
    + left. congruence.
    + right. exists rnd, f, h. rewrite Hst, E. now repeat split.
  - left. now injection H as <-.
  - left. now injection H as <-.
Qed.

Lemma state_changes_only_on_a_seen_hand_witness :
  exists e',
    fire (Tick zeroTape pinchFrame) startScene = Some e'
    /\ (state e' = state startScene
        \/ exists rnd f h,
             Tick zeroTape pinchFrame = Tick rnd f
             /\ ready f startScene = true
             /\ currentTime f <> lastVideoTime startScene
             /\ sees f h
             /\ mode (state e') = requested (mode (state startScene)) h
             /\ handX (state e') = (lx (center h) - 0.5) * 2
             /\ handY (state e') = (ly (center h) - 0.5) * 2
             /\ flags (state e') = flags (state startScene)).
Proof.
  destruct shortSession_ok as [Ht Hh].
  destruct (fire_total (Tick zeroTape pinchFrame) startScene
              (Forall_inv Ht) (Forall_inv Hh)) as [e' He'].
  exists e'. split; [exact He' |].
  exact (state_changes_only_on_a_seen_hand _ _ _ He').
Defined.

(** * The program in rounded arithmetic *)

Lemma exact_Standard : Standard exact 0 0 0.
Proof.
  constructor; cbn [fl Math_sin Math_cos exact]; intros; try lra; try reflexivity.
  - unfold Rminus. rewrite Rplus_opp_r, Rabs_R0. lra.
  - apply SIN_bound.
  - apply COS_bound.
  - unfold Rminus. rewrite Rplus_opp_r, Rabs_R0. lra.
  - unfold Rminus. rewrite Rplus_opp_r, Rabs_R0. lra.
Qed.

(** The exact reading of [update] and of [calculateTargets] is the rounded
    one on the machine that does not round. *)
Lemma update_exact md fid p : Rounded.update exact md fid p = ParticleOps.update md fid p.
Proof. reflexivity. Qed.

Lemma layoutTarget_exact rnd md fid n i k p :
  Rounded.layoutTarget exact rnd md fid n i k p = layoutTarget rnd md fid n i k p.
Proof. reflexivity. Qed.

Lemma forEachTarget_exact rnd md fid n i k ps :
  Rounded.forEachTarget exact rnd md fid n i k ps = forEachTarget rnd md fid n i k ps.
Proof.
  revert i k. induction ps as [| p ps IH]; intros i k; [reflexivity |].
  cbn [Rounded.forEachTarget forEachTarget]. rewrite layoutTarget_exact.
  destruct (layoutTarget rnd md fid n i k p) as [v d]. now rewrite IH.
Qed.

Lemma calculateTargets_exact rnd e :
  Rounded.calculateTargets exact rnd e = calculateTargets rnd e.
Proof.
  unfold Rounded.calculateTargets, calculateTargets.
  change (Rounded.selectFocus exact rnd (mode (state e)) (focusTargetId e)
            (photosOf (particles e)))
    with (selectFocus rnd (mode (state e)) (focusTargetId e) (photosOf (particles e))).
  destruct (selectFocus _ _ _ _) as [[fid d] |]; [| reflexivity].
  now rewrite forEachTarget_exact.
Qed.

Lemma two_sided a b : Rabs a <= b -> - b <= a <= b.
Proof. intros H. unfold Rabs in H. destruct (Rcase_abs a); lra. Qed.

Lemma prod_bound g e G E :
  - G <= g <= G -> - E <= e <= E -> - (G * E) <= g * e <= G * E.
Proof. intros Hg He. split; nra. Qed.

(** ** The fixed-point machine *)

Lemma floor_spec (t : R) : IZR (floor t) <= t < IZR (floor t) + 1.
Proof. unfold floor. destruct (base_Int_part t). lra. Qed.

Lemma floor_unique (t : R) (n : Z) : IZR n <= t < IZR n + 1 -> floor t = n.
Proof. intros H. unfold floor. symmetry. apply Int_part_spec. lra. Qed.

Lemma floor_mono (s t : R) : s <= t -> (floor s <= floor t)%Z.
Proof.
  intros H. pose proof (floor_spec s). pose proof (floor_spec t).
  apply Z.lt_succ_r. apply lt_IZR. rewrite succ_IZR. lra.
Qed.

Lemma floor_IZR (n : Z) : floor (IZR n + / 2) = n.
Proof. apply floor_unique. lra. Qed.

Lemma nearest_IZR (n : Z) : nearest (IZR n) = n.
Proof.
  unfold nearest. destruct (Rle_dec 0 (IZR n)).
  - apply floor_IZR.
  - rewrite <- opp_IZR, floor_IZR. lia.
Qed.

Lemma nearest_near (t : R) : Rabs (IZR (nearest t) - t) <= / 2.
Proof.
  unfold nearest. destruct (Rle_dec 0 t).
  - pose proof (floor_spec (t + / 2)). apply Rabs_le. lra.
  - pose proof (floor_spec (- t + / 2)). rewrite opp_IZR. apply Rabs_le. lra.
Qed.

Lemma nearest_opp (t : R) : nearest (- t) = (- nearest t)%Z.
Proof.
  unfold nearest. destruct (Rle_dec 0 t), (Rle_dec 0 (- t)).
  - assert (t = 0) by lra. subst t. rewrite Ropp_0, Rplus_0_l.
    assert (E : floor (/ 2) = 0%Z) by (apply floor_unique; lra). rewrite E. reflexivity.
  - rewrite Ropp_involutive. reflexivity.
  - lia.
  - lra.
Qed.

Lemma nearest_mono (s t : R) : s <= t -> (nearest s <= nearest t)%Z.
Proof.
  intros H. unfold nearest. destruct (Rle_dec 0 s), (Rle_dec 0 t).
  - apply floor_mono. lra.
  - lra.
  - assert (0 <= floor (- s + / 2))%Z.
    { replace 0%Z with (floor (/ 2)) by (apply floor_unique; lra). apply floor_mono. lra. }
    assert (0 <= floor (t + / 2))%Z.
    { replace 0%Z with (floor (/ 2)) by (apply floor_unique; lra). apply floor_mono. lra. }
    lia.
  - assert (floor (- t + / 2) <= floor (- s + / 2))%Z by (apply floor_mono; lra). lia.
Qed.

Lemma onGrid_IZR (n : Z) : onGrid (IZR n / grid) = IZR n / grid.
Proof.
  unfold onGrid. replace (IZR n / grid * grid) with (IZR n) by (unfold grid; field).
  now rewrite nearest_IZR.
Qed.

Lemma onGrid_near (a : R) : Rabs (onGrid a - a) <= / 2097152.
Proof.
  unfold onGrid. pose proof (nearest_near (a * grid)) as H.
  apply two_sided in H. apply Rabs_le. unfold grid in *. lra.
Qed.

Lemma onGrid_mono (a b : R) : a <= b -> onGrid a <= onGrid b.
Proof.
  intros H. unfold onGrid.
  assert (Hn : (nearest (a * grid) <= nearest (b * grid))%Z)
    by (apply nearest_mono; unfold grid; lra).
  apply IZR_le in Hn. unfold Rdiv. apply Rmult_le_compat_r; [| exact Hn].
  unfold grid. lra.
Qed.

Lemma onGrid_int (n : Z) : onGrid (IZR n) = IZR n.
Proof.
  replace (IZR n) with (IZR (n * 1048576) / grid) at 1 2
    by (rewrite mult_IZR; unfold grid; field).
  apply onGrid_IZR.
Qed.

(** The fixed-point machine is standard, with no relative error. *)
Lemma fixedPoint_Standard : Standard fixedPoint 0 (/ 2097152) (/ 2097152).
Proof.
  constructor; cbn [fl Math_sin Math_cos fixedPoint].
  - lra.
  - lra.
  - lra.
  - exact onGrid_mono.
  - intros a. unfold onGrid at 2. apply onGrid_IZR.
  - intros a. unfold onGrid. replace (- a * grid) with (- (a * grid)) by ring.
    rewrite nearest_opp, opp_IZR. unfold grid. lra.
  - intros n _. apply onGrid_int.
  - intros n _. replace (IZR n / 2) with (IZR (n * 524288) / grid)
      by (rewrite mult_IZR; unfold grid; field).
    apply onGrid_IZR.
  - intros a _. pose proof (onGrid_near a). pose proof (Rabs_pos a). lra.
  - intros a b Ha Hb Hab. unfold onGrid in Ha, Hb.
    assert (Hn : (nearest (a * grid) < nearest (b * grid))%Z).
    { apply lt_IZR. unfold grid in *. lra. }
    assert (Hn' : (nearest (a * grid) + 1 <= nearest (b * grid))%Z) by lia.
    apply IZR_le in Hn'. rewrite plus_IZR in Hn'. unfold grid in *. lra.
  - intros a. pose proof (SIN_bound a) as [H1 H2].
    apply onGrid_mono in H1. apply onGrid_mono in H2.
    change (-1) with (IZR (-1)) in H1. rewrite onGrid_int in H1, H2. cbn in H1. lra.
  - intros a. pose proof (COS_bound a) as [H1 H2].
    apply onGrid_mono in H1. apply onGrid_mono in H2.
    change (-1) with (IZR (-1)) in H1. rewrite onGrid_int in H1, H2. cbn in H1. lra.
  - intros a. apply onGrid_near.
  - intros a. apply onGrid_near.
Qed.

Section StandardModel.

Variable M : Machine.
Variables u eta eps : R.
Hypothesis HM : Standard M u eta eps.

Lemma fl_int (n : Z) : (Z.abs n <= 1000)%Z -> fl M (IZR n) = IZR n.
Proof. intros H. apply (fl_integer _ _ _ _ HM). lia. Qed.

Lemma fl_0 : fl M 0 = 0.
Proof. apply (fl_int 0). cbn. lia. Qed.

Lemma fl_le a b : a <= b -> isDouble M b -> fl M a <= b.
Proof. intros H Hb. rewrite <- Hb. now apply (fl_monotone _ _ _ _ HM). Qed.

Lemma fl_ge a b : a <= b -> isDouble M a -> a <= fl M b.
Proof. intros H Ha. rewrite <- Ha. now apply (fl_monotone _ _ _ _ HM). Qed.

Lemma fl_isDouble a : isDouble M (fl M a).
Proof. apply (fl_idempotent _ _ _ _ HM). Qed.

(** The error of one rounding, for an exact result of magnitude at most [B]. *)
Lemma fl_near a B :
  - B <= a <= B -> B <= 1000000 ->
  - (u * B + eta) <= fl M a - a <= u * B + eta.
Proof.
  intros Ha HB. destruct (unit_roundoff _ _ _ _ HM) as [Hu _].
  assert (Hab : Rabs a <= B) by (apply Rabs_le; lra).
  pose proof (fl_error _ _ _ _ HM a ltac:(lra)) as He.
  apply two_sided. assert (u * Rabs a <= u * B) by now apply Rmult_le_compat_l.
  lra.
Qed.

(** The error of one rounding relative to a non-negative exact result. *)
Lemma fl_rel a :
  0 <= a <= 1000000 -> - (u * a + eta) <= fl M a - a <= u * a + eta.
Proof.
  intros Ha. pose proof (fl_error _ _ _ _ HM a) as He.
  rewrite (Rabs_pos_eq a) in He by lra. apply two_sided. apply He. lra.
Qed.

(** *** One coordinate of a lerp *)

(** The factor [alpha] is a decimal literal of the source, 0.08, 0.1 or
    0.05; [a0] is its exact value. *)
Lemma lit_factor a0 :
  0 < a0 <= 1 / 10 ->
  0 <= fl M a0 <= 11 / 100
  /\ - (u / 10 + eta) <= fl M a0 - a0 <= u / 10 + eta.
Proof.
  intros Ha. destruct (unit_roundoff _ _ _ _ HM) as [Hu Hu'].
  destruct (underflow_unit _ _ _ _ HM) as [He He'].
  pose proof (fl_near a0 (1 / 10) ltac:(lra) ltac:(lra)) as Hn.
  split; [split |].
  - rewrite <- fl_0. apply (fl_monotone _ _ _ _ HM). lra.
  - lra.
  - lra.
Qed.

Lemma lerp1_odd xx t a :
  Rounded.lerp1 M (- xx) (- t) a = - Rounded.lerp1 M xx t a.
Proof.
  unfold Rounded.lerp1, Rounded.add, Rounded.mul, Rounded.sub.
  replace (- t - - xx) with (- (t - xx)) by ring.
  rewrite (fl_odd _ _ _ _ HM).
  replace (- fl M (t - xx) * a) with (- (fl M (t - xx) * a)) by ring.
  rewrite (fl_odd _ _ _ _ HM).
  replace (- xx + - fl M (fl M (t - xx) * a))
    with (- (xx + fl M (fl M (t - xx) * a))) by ring.
  apply (fl_odd _ _ _ _ HM).
Qed.

Lemma lerp1_isDouble xx t a : isDouble M (Rounded.lerp1 M xx t a).
Proof. apply fl_isDouble. Qed.

(** Upwards: the new coordinate is not below the old one and not above the
    target. *)
Lemma lerp1_up a0 xx t :
  0 < a0 <= 1 / 10 ->
  isDouble M xx -> isDouble M t ->
  -60 <= xx <= 60 -> -60 <= t <= 60 ->
  xx <= t ->
  xx <= Rounded.lerp1 M xx t (fl M a0) <= t.
Proof.
  intros Ha Dx Dt Bx Bt Hle.
  destruct (unit_roundoff _ _ _ _ HM) as [Hu Hu'].
  destruct (underflow_unit _ _ _ _ HM) as [He He'].
  destruct (lit_factor a0 Ha) as [[Ha0 Ha1] _].
  unfold Rounded.lerp1, Rounded.add, Rounded.mul, Rounded.sub.
  set (a := fl M a0) in *. set (g := t - xx).
  assert (Hg : 0 <= g <= 120) by (unfold g; lra).
  set (d := fl M g).
  assert (Hd0 : 0 <= d) by (unfold d; rewrite <- fl_0; apply (fl_monotone _ _ _ _ HM); lra).
  assert (Hm0 : 0 <= fl M (d * a)).
  { rewrite <- fl_0. apply (fl_monotone _ _ _ _ HM). now apply Rmult_le_pos. }
  split.
  - apply fl_ge; [lra | exact Dx].
  - apply fl_le; [| exact Dt].
    destruct (Req_dec xx t) as [E | NE].
    + assert (Hg0 : g = 0) by (unfold g; lra).
      unfold d. rewrite Hg0, fl_0, Rmult_0_l, fl_0. lra.
    + assert (Hsp : 2 * eta <= g).
      { unfold g. apply (fl_spacing _ _ _ _ HM xx t Dx Dt). lra. }
      pose proof (fl_near g 120 ltac:(lra) ltac:(lra)) as Hn. fold d in Hn.
      assert (Hd1 : d <= g + u * g + eta).
      { pose proof (fl_rel g ltac:(lra)) as Her. fold d in Her. lra. }
      assert (Hug : u * g <= g / 1000000) by nra.
      assert (Hda : d * a <= (g + u * g + eta) * (11 / 100)).
      { apply Rmult_le_compat; lra. }
      assert (Hda' : 0 <= d * a <= 14) by (split; [now apply Rmult_le_pos | nra]).
      pose proof (fl_rel (d * a) ltac:(lra)) as Her.
      assert (u * (d * a) <= d * a / 1000000) by nra.
      assert (Eg : g = t - xx) by reflexivity.
      lra.
Qed.

Lemma lerp1_down a0 xx t :
  0 < a0 <= 1 / 10 ->
  isDouble M xx -> isDouble M t ->
  -60 <= xx <= 60 -> -60 <= t <= 60 ->
  t <= xx ->
  t <= Rounded.lerp1 M xx t (fl M a0) <= xx.
Proof.
  intros Ha Dx Dt Bx Bt Hle.
  assert (Dx' : isDouble M (- xx)) by (unfold isDouble; rewrite (fl_odd _ _ _ _ HM), Dx; ring).
  assert (Dt' : isDouble M (- t)) by (unfold isDouble; rewrite (fl_odd _ _ _ _ HM), Dt; ring).
  pose proof (lerp1_up a0 (- xx) (- t) Ha Dx' Dt' ltac:(lra) ltac:(lra) ltac:(lra)) as H.
  rewrite lerp1_odd in H. lra.
Qed.

Lemma lerp1_betwixt a0 xx t :
  0 < a0 <= 1 / 10 ->
  isDouble M xx -> isDouble M t ->
  -60 <= xx <= 60 -> -60 <= t <= 60 ->
  betwixt xx t (Rounded.lerp1 M xx t (fl M a0)).
Proof.
  intros Ha Dx Dt Bx Bt. unfold betwixt, Rmin, Rmax.
  destruct (Rle_dec xx t) as [H | H].
  - now apply lerp1_up.
  - apply lerp1_down; try assumption. lra.
Qed.

(** The remaining gap is [1 - a0] times the old one, up to [slack]. *)
Lemma lerp1_gap a0 xx t :
  0 < a0 <= 1 / 10 ->
  -60 <= xx <= 60 -> -60 <= t <= 60 ->
  - slack u eta
  <= (t - Rounded.lerp1 M xx t (fl M a0)) - (1 - a0) * (t - xx)
  <= slack u eta.
Proof.
  intros Ha Bx Bt.
  destruct (unit_roundoff _ _ _ _ HM) as [Hu Hu'].
  destruct (underflow_unit _ _ _ _ HM) as [He He'].
  destruct (lit_factor a0 Ha) as [[Ha0 Ha1] Hea].
  unfold Rounded.lerp1, Rounded.add, Rounded.mul, Rounded.sub, slack.
  set (a := fl M a0) in *. set (g := t - xx).
  assert (Hg : -120 <= g <= 120) by (unfold g; lra).
  pose proof (fl_near g 120 ltac:(lra) ltac:(lra)) as H1.
  set (d := fl M g) in *.
  assert (Hd : -121 <= d <= 121) by lra.
  assert (Hda : -14 <= d * a <= 14) by (split; nra).
  pose proof (fl_near (d * a) 14 ltac:(lra) ltac:(lra)) as H2.
  set (m := fl M (d * a)) in *.
  assert (Hm : -15 <= m <= 15) by lra.
  pose proof (fl_near (xx + m) 75 ltac:(lra) ltac:(lra)) as H3.
  set (x' := fl M (xx + m)) in *.
  pose proof (prod_bound g (a - a0) 120 (u / 10 + eta) ltac:(lra) ltac:(lra)) as P1.
  pose proof (prod_bound (d - g) a (u * 120 + eta) (11 / 100) ltac:(lra) ltac:(lra)) as P2.
  assert (E : t - x' - (1 - a0) * g
              = - (g * (a - a0)) - (d - g) * a - (m - d * a) - (x' - (xx + m)))
    by (unfold g; ring).
  rewrite E. lra.
Qed.

(** *** Norms *)

Lemma norm3_nonneg a b c : 0 <= norm3 a b c.
Proof. apply sqrt_pos. Qed.

Lemma norm3_sq a b c : norm3 a b c * norm3 a b c = a * a + b * b + c * c.
Proof. unfold norm3. apply sqrt_sqrt. nra. Qed.

Lemma norm3_le a b c r : 0 <= r -> a * a + b * b + c * c <= r * r -> norm3 a b c <= r.
Proof.
  intros Hr H. unfold norm3. rewrite <- (sqrt_square r Hr).
  apply sqrt_le_1; nra.
Qed.

Lemma cauchy3 a1 a2 a3 b1 b2 b3 :
  a1 * b1 + a2 * b2 + a3 * b3 <= norm3 a1 a2 a3 * norm3 b1 b2 b3.
Proof.
  pose proof (norm3_nonneg a1 a2 a3) as HA. pose proof (norm3_nonneg b1 b2 b3) as HB.
  pose proof (norm3_sq a1 a2 a3) as EA. pose proof (norm3_sq b1 b2 b3) as EB.
  set (A := norm3 a1 a2 a3) in *. set (B := norm3 b1 b2 b3) in *.
  set (s := a1 * b1 + a2 * b2 + a3 * b3).
  assert (Hs : s * s <= (A * B) * (A * B)).
  { replace (A * B * (A * B)) with ((A * A) * (B * B)) by ring.
    rewrite EA, EB. unfold s.
    pose proof (Rle_0_sqr (a1 * b2 - a2 * b1)) as S1.
    pose proof (Rle_0_sqr (a1 * b3 - a3 * b1)) as S2.
    pose proof (Rle_0_sqr (a2 * b3 - a3 * b2)) as S3.
    unfold Rsqr in S1, S2, S3. lra. }
  assert (HAB : 0 <= A * B) by now apply Rmult_le_pos.
  destruct (Rle_dec s (A * B)) as [H | H]; [exact H |].
  exfalso. nra.
Qed.

Lemma norm3_triangle a1 a2 a3 b1 b2 b3 :
  norm3 (a1 + b1) (a2 + b2) (a3 + b3) <= norm3 a1 a2 a3 + norm3 b1 b2 b3.
Proof.
  pose proof (norm3_nonneg a1 a2 a3) as HA. pose proof (norm3_nonneg b1 b2 b3) as HB.
  pose proof (norm3_sq a1 a2 a3) as EA. pose proof (norm3_sq b1 b2 b3) as EB.
  pose proof (cauchy3 a1 a2 a3 b1 b2 b3) as HC.
  apply norm3_le; [lra |]. nra.
Qed.

(** Two points whose coordinates differ by at most [E] have norms that
    differ by at most [2 * E]. *)
Lemma norm3_close a1 a2 a3 b1 b2 b3 E :
  - E <= b1 - a1 <= E -> - E <= b2 - a2 <= E -> - E <= b3 - a3 <= E ->
  - (2 * E) <= norm3 b1 b2 b3 - norm3 a1 a2 a3 <= 2 * E.
Proof.
  intros H1 H2 H3.
  assert (He : norm3 (b1 - a1) (b2 - a2) (b3 - a3) <= 2 * E).
  { apply norm3_le; [lra |]. nra. }
  assert (He' : norm3 (a1 - b1) (a2 - b2) (a3 - b3) <= 2 * E).
  { apply norm3_le; [lra |]. nra. }
  pose proof (norm3_triangle a1 a2 a3 (b1 - a1) (b2 - a2) (b3 - a3)) as T1.
  pose proof (norm3_triangle b1 b2 b3 (a1 - b1) (a2 - b2) (a3 - b3)) as T2.
  replace (a1 + (b1 - a1)) with b1 in T1 by ring.
  replace (a2 + (b2 - a2)) with b2 in T1 by ring.
  replace (a3 + (b3 - a3)) with b3 in T1 by ring.
  replace (b1 + (a1 - b1)) with a1 in T2 by ring.
  replace (b2 + (a2 - b2)) with a2 in T2 by ring.
  replace (b3 + (a3 - b3)) with a3 in T2 by ring.
  lra.
Qed.

Lemma norm3_scale c a1 a2 a3 :
  0 <= c -> norm3 (c * a1) (c * a2) (c * a3) = c * norm3 a1 a2 a3.
Proof.
  intros Hc. unfold norm3.
  replace (c * a1 * (c * a1) + c * a2 * (c * a2) + c * a3 * (c * a3))
    with (c * c * (a1 * a1 + a2 * a2 + a3 * a3)) by ring.
  now apply sqrt_scaled.
Qed.

(** A point whose coordinates are each at least as near to 0 is at least
    as near to the origin. *)
Lemma norm3_mono a1 a2 a3 b1 b2 b3 :
  a1 * a1 <= b1 * b1 -> a2 * a2 <= b2 * b2 -> a3 * a3 <= b3 * b3 ->
  norm3 a1 a2 a3 <= norm3 b1 b2 b3.
Proof. intros H1 H2 H3. unfold norm3. apply sqrt_le_1; nra. Qed.

(** *** The steps of a lerp *)

Lemma betwixt_range a b v lo hi :
  lo <= a <= hi -> lo <= b <= hi -> betwixt a b v -> lo <= v <= hi.
Proof.
  unfold betwixt, Rmin, Rmax. intros Ha Hb. destruct (Rle_dec a b); lra.
Qed.

Lemma betwixt_step a t v v' : betwixt a t v -> betwixt v t v' -> betwixt a t v'.
Proof.
  unfold betwixt, Rmin, Rmax.
  destruct (Rle_dec a t), (Rle_dec v t); lra.
Qed.

(** Nearer to the target, coordinate by coordinate. *)
Lemma betwixt_nearer a t v : betwixt a t v -> (t - v) * (t - v) <= (t - a) * (t - a).
Proof.
  unfold betwixt, Rmin, Rmax. destruct (Rle_dec a t); intros H; nra.
Qed.

Lemma tracks_0 a0 c t x0 : isDouble M x0 -> tracks M u eta a0 c t x0 0 x0.
Proof.
  intros D. unfold tracks, betwixt, Rmin, Rmax. cbn [pow].
  split; [exact D |]. split; [destruct (Rle_dec x0 t); lra | lra].
Qed.

Lemma tracks_S a0 c t x0 k xk :
  0 < a0 <= 1 / 10 -> c * a0 = 1 ->
  isDouble M t -> -60 <= t <= 60 -> -60 <= x0 <= 60 ->
  tracks M u eta a0 c t x0 k xk ->
  tracks M u eta a0 c t x0 (S k) (Rounded.lerp1 M xk t (fl M a0)).
Proof.
  intros Ha Hc Dt Bt Bx (Dk & Bk & Ek).
  pose proof (betwixt_range _ _ _ _ _ Bx Bt Bk) as Bxk.
  split; [apply lerp1_isDouble |]. split.
  - apply (betwixt_step _ _ xk); [exact Bk |]. now apply lerp1_betwixt.
  - pose proof (lerp1_gap a0 xk t Ha Bxk Bt) as Hg.
    rewrite <- tech_pow_Rmult.
    set (x' := Rounded.lerp1 M xk t (fl M a0)) in *.
    set (Q := (1 - a0) ^ k) in *.
    assert (HQ : 0 <= Q <= 1).
    { unfold Q. split; [apply pow_le; lra |].
      apply Rle_trans with (1 ^ k); [apply pow_incr; lra | rewrite pow1; lra]. }
    set (W := c * slack u eta) in *.
    assert (HW : slack u eta = W * a0).
    { unfold W. replace (c * slack u eta * a0) with (c * a0 * slack u eta) by ring.
      rewrite Hc. ring. }
    pose proof (prod_bound (1 - a0) (t - xk - Q * (t - x0)) 1 (W * (1 - Q))) as P.
    assert (Hq : 0 <= 1 - a0 <= 1) by lra.
    assert (P' : - ((1 - a0) * (W * (1 - Q)))
                 <= (1 - a0) * (t - xk - Q * (t - x0))
                 <= (1 - a0) * (W * (1 - Q))).
    { split.
      - replace (- ((1 - a0) * (W * (1 - Q)))) with ((1 - a0) * - (W * (1 - Q))) by ring.
        apply Rmult_le_compat_l; lra.
      - apply Rmult_le_compat_l; lra. }
    rewrite HW in Hg.
    replace (t - x' - (1 - a0) * Q * (t - x0))
      with ((t - x' - (1 - a0) * (t - xk)) + (1 - a0) * (t - xk - Q * (t - x0)))
      by ring.
    replace (W * (1 - (1 - a0) * Q))
      with (W * a0 + (1 - a0) * (W * (1 - Q))) by ring.
    lra.
Qed.

Lemma rupdate_targetPos md fid p :
  targetPos (Rounded.update M md fid p) = targetPos p.
Proof. unfold Rounded.update. destruct md, (type p), (idIs fid (id p)); reflexivity. Qed.

Lemma rupdate_position md fid p :
  position (mesh (Rounded.update M md fid p))
  = Rounded.lerp M (position (mesh p)) (targetPos p) (fl M 0.08).
Proof. unfold Rounded.update. destruct md, (type p), (idIs fid (id p)); reflexivity. Qed.

Lemma rupdate_identity md fid p : identity (Rounded.update M md fid p) = identity p.
Proof.
  unfold Rounded.update, identity.
  destruct md, (type p), (idIs fid (id p)); reflexivity.
Qed.

Lemma rupdates_snoc calls c p :
  Rounded.updates M (calls ++ [c]) p
  = Rounded.update M (fst c) (snd c) (Rounded.updates M calls p).
Proof. unfold Rounded.updates. now rewrite fold_left_app. Qed.

Lemma rupdates_targetPos calls p : targetPos (Rounded.updates M calls p) = targetPos p.
Proof.
  induction calls as [| c calls IH] using rev_ind; [reflexivity |].
  now rewrite rupdates_snoc, rupdate_targetPos.
Qed.

Lemma rupdates_identity calls p : identity (Rounded.updates M calls p) = identity p.
Proof.
  induction calls as [| c calls IH] using rev_ind; [reflexivity |].
  now rewrite rupdates_snoc, rupdate_identity.
Qed.

Lemma tracks3_0 a0 c t v : doubles M v -> tracks3 M u eta a0 c t v 0 v.
Proof. intros (Dx & Dy & Dz). repeat split; now apply tracks_0. Qed.

Lemma tracks3_S a0 c t v0 k vk :
  0 < a0 <= 1 / 10 -> c * a0 = 1 ->
  doubles M t -> between (-60) 60 t -> between (-60) 60 v0 ->
  tracks3 M u eta a0 c t v0 k vk ->
  tracks3 M u eta a0 c t v0 (S k) (Rounded.lerp M vk t (fl M a0)).
Proof.
  intros Ha Hc (Dx & Dy & Dz) (Tx & Ty & Tz) (Vx & Vy & Vz) (Hx & Hy & Hz).
  unfold tracks3, Rounded.lerp; cbn [x y z].
  split; [| split]; now apply tracks_S.
Qed.

(** The position after the calls tracks the target. *)
Lemma rupdates_position calls p :
  doubles M (position (mesh p)) -> doubles M (targetPos p) ->
  between (-60) 60 (position (mesh p)) -> between (-60) 60 (targetPos p) ->
  tracks3 M u eta 0.08 12.5 (targetPos p) (position (mesh p)) (List.length calls)
    (position (mesh (Rounded.updates M calls p))).
Proof.
  intros Dp Dt Bp Bt.
  induction calls as [| c calls IH] using rev_ind.
  - now apply tracks3_0.
  - rewrite rupdates_snoc, rupdate_position, rupdates_targetPos, length_app.
    cbn [List.length]. rewrite Nat.add_1_r.
    apply tracks3_S; try assumption; lra.
Qed.

(** *** Distance to the target *)

Lemma distanceTo_norm3 a t :
  Vector3Ops.distanceTo a t = norm3 (x t - x a) (y t - y a) (z t - z a).
Proof. unfold Vector3Ops.distanceTo, norm3. f_equal. ring. Qed.

Lemma slack_nonneg : 0 <= slack u eta.
Proof.
  destruct (unit_roundoff _ _ _ _ HM) as [Hu _].
  destruct (underflow_unit _ _ _ _ HM) as [He _]. unfold slack. lra.
Qed.

Lemma pow_unit q k : 0 <= q <= 1 -> 0 <= q ^ k <= 1.
Proof.
  intros Hq. split; [apply pow_le; lra |].
  apply Rle_trans with (1 ^ k); [apply pow_incr; lra | rewrite pow1; lra].
Qed.

Lemma tracks3_distance a0 c t v0 k vk :
  0 < a0 <= 1 / 10 -> 0 <= c ->
  tracks3 M u eta a0 c t v0 k vk ->
  - (2 * (c * slack u eta))
  <= Vector3Ops.distanceTo vk t - (1 - a0) ^ k * Vector3Ops.distanceTo v0 t
  <= 2 * (c * slack u eta)
  /\ Vector3Ops.distanceTo vk t <= Vector3Ops.distanceTo v0 t.
Proof.
  intros Ha Hc ((_ & Bx & Ex) & (_ & By & Ey) & (_ & Bz & Ez)).
  pose proof slack_nonneg as Hs.
  pose proof (pow_unit (1 - a0) k ltac:(lra)) as HQ.
  set (Q := (1 - a0) ^ k) in *. set (W := c * slack u eta) in *.
  assert (HW : 0 <= W) by (unfold W; now apply Rmult_le_pos).
  assert (HWQ : W * (1 - Q) <= W) by nra.
  rewrite !distanceTo_norm3. split.
  - rewrite <- norm3_scale by lra. apply norm3_close; lra.
  - apply norm3_mono; now apply betwixt_nearer.
Qed.

(** Past any bound above the floor that rounding leaves, the distance
    stays below the bound. *)
Lemma rupdates_converge p bound :
  doubles M (position (mesh p)) -> doubles M (targetPos p) ->
  between (-60) 60 (position (mesh p)) -> between (-60) 60 (targetPos p) ->
  25 * slack u eta < bound ->
  exists K, forall calls,
    (K <= List.length calls)%nat ->
    Vector3Ops.distanceTo (position (mesh (Rounded.updates M calls p))) (targetPos p)
    < bound.
Proof.
  intros Dp Dt Bp Bt Hb.
  set (d := Vector3Ops.distanceTo (position (mesh p)) (targetPos p)).
  assert (Hd : 0 <= d) by apply distanceTo_nonneg.
  destruct (pow_lt_1_zero 0.92) with (y := (bound - 25 * slack u eta) / (d + 1))
    as [K HK].
  - rewrite Rabs_pos_eq; lra.
  - apply Rdiv_lt_0_compat; lra.
  - exists K. intros calls Hlen.
    destruct (tracks3_distance 0.08 12.5 _ _ _ _ ltac:(lra) ltac:(lra)
                (rupdates_position calls p Dp Dt Bp Bt)) as [[_ Hup] _].
    fold d in Hup.
    replace (1 - 0.08) with 0.92 in Hup by lra.
    specialize (HK (List.length calls) Hlen).
    pose proof (pow_unit 0.92 (List.length calls) ltac:(lra)) as Hc.
    rewrite Rabs_pos_eq in HK by lra.
    assert (Hlt : 0.92 ^ List.length calls * (d + 1) < bound - 25 * slack u eta).
    { apply (Rmult_lt_compat_r (d + 1)) in HK; [| lra].
      unfold Rdiv in HK. rewrite Rmult_assoc, Rinv_l, Rmult_1_r in HK by lra.
      exact HK. }
    nra.
Qed.

(** *** Scale *)

Lemma rupdate_scale md fid p :
  scale (mesh (Rounded.update M md fid p))
  = Rounded.lerp M (scale (mesh p)) (Rounded.scaleGoal M md fid p) (fl M 0.1).
Proof.
  unfold Rounded.update, Rounded.scaleGoal.
  destruct md, (type p), (idIs fid (id p)); reflexivity.
Qed.

Lemma rscaleGoal_update md fid md' fid' p :
  Rounded.scaleGoal M md fid (Rounded.update M md' fid' p) = Rounded.scaleGoal M md fid p.
Proof.
  pose proof (rupdate_identity md' fid' p) as H. unfold identity in H.
  injection H as Hi Ht Hs _. unfold Rounded.scaleGoal. now rewrite Hi, Ht, Hs.
Qed.

Lemma fl_range a lo hi :
  (Z.abs lo <= 1000)%Z -> (Z.abs hi <= 1000)%Z ->
  IZR lo <= a <= IZR hi -> IZR lo <= fl M a <= IZR hi.
Proof.
  intros Hlo Hhi Ha. split.
  - apply fl_ge; [lra | now apply fl_int].
  - apply fl_le; [lra | now apply fl_int].
Qed.

Lemma rscaleGoal_doubles md fid p :
  doubles M (initialScale p) -> doubles M (Rounded.scaleGoal M md fid p).
Proof.
  intros D. unfold Rounded.scaleGoal.
  destruct md; try exact D.
  destruct (isPHOTO (type p) && idIs fid (id p));
    unfold doubles, Rounded.multiplyScalar, Rounded.tiny, Rounded.mul, Rounded.lit;
    cbn [x y z]; repeat split; apply fl_isDouble.
Qed.

Lemma rscaleGoal_between md fid p :
  between (-10) 10 (initialScale p) ->
  between (-60) 60 (Rounded.scaleGoal M md fid p).
Proof.
  intros (Hx & Hy & Hz). unfold Rounded.scaleGoal.
  assert (Hi : between (-60) 60 (initialScale p)) by (unfold between; lra).
  destruct md; try exact Hi.
  destruct (isPHOTO (type p) && idIs fid (id p));
    unfold between, Rounded.multiplyScalar, Rounded.tiny, Rounded.mul, Rounded.lit;
    cbn [x y z].
  - pose proof (fl_range (x (initialScale p) * 4.5) (-45) 45 ltac:(lia) ltac:(lia)
                  ltac:(lra)).
    pose proof (fl_range (y (initialScale p) * 4.5) (-45) 45 ltac:(lia) ltac:(lia)
                  ltac:(lra)).
    pose proof (fl_range (z (initialScale p) * 4.5) (-45) 45 ltac:(lia) ltac:(lia)
                  ltac:(lra)).
    lra.
  - pose proof (fl_range 0.001 0 1 ltac:(lia) ltac:(lia) ltac:(lra)). lra.
Qed.

Lemma rupdateTimes_S k md fid p :
  Rounded.updateTimes M (S k) md fid p
  = Rounded.update M md fid (Rounded.updateTimes M k md fid p).
Proof.
  unfold Rounded.updateTimes. cbn [repeat]. rewrite repeat_cons.
  apply (rupdates_snoc (repeat (md, fid) k) (md, fid) p).
Qed.

Lemma rupdateTimes_identity k md fid p :
  identity (Rounded.updateTimes M k md fid p) = identity p.
Proof. apply rupdates_identity. Qed.

Lemma rscaleGoal_updateTimes k md fid p :
  Rounded.scaleGoal M md fid (Rounded.updateTimes M k md fid p)
  = Rounded.scaleGoal M md fid p.
Proof.
  induction k as [| k IH]; [reflexivity |].
  now rewrite rupdateTimes_S, rscaleGoal_update.
Qed.

(** The scale after the calls tracks its goal. *)
Lemma rupdateTimes_scale k md fid p :
  doubles M (scale (mesh p)) -> doubles M (initialScale p) ->
  between (-60) 60 (scale (mesh p)) -> between (-10) 10 (initialScale p) ->
  tracks3 M u eta 0.1 10 (Rounded.scaleGoal M md fid p) (scale (mesh p)) k
    (scale (mesh (Rounded.updateTimes M k md fid p))).
Proof.
  intros Ds Di Bs Bi.
  induction k as [| k IH].
  - now apply tracks3_0.
  - rewrite rupdateTimes_S, rupdate_scale, rscaleGoal_updateTimes.
    apply tracks3_S; try assumption; try lra.
    + now apply rscaleGoal_doubles.
    + now apply rscaleGoal_between.
Qed.

(** *** Rotation *)













(** *** The layouts *)

Lemma rforEachTarget_map {A : Type} (f : Particle -> A) rnd md fid n :
  (forall v p, f (ParticleOps.setTarget v p) = f p) ->
  forall i k ps, map f (Rounded.forEachTarget M rnd md fid n i k ps) = map f ps.
Proof.
  intros Hf i k ps. revert i k.
  induction ps as [| p ps IH]; intros i k; cbn [Rounded.forEachTarget]; [reflexivity |].
  destruct (Rounded.layoutTarget M rnd md fid n i k p) as [v d]. cbn [map].
  now rewrite Hf, IH.
Qed.

(** Every particle that comes out is a particle that went in, with the
    target the callback computes for it. *)
Lemma rforEachTarget_In rnd md fid n i k ps q :
  In q (Rounded.forEachTarget M rnd md fid n i k ps) ->
  exists p j k',
    In p ps
    /\ q = ParticleOps.setTarget (fst (Rounded.layoutTarget M rnd md fid n j k' p)) p.
Proof.
  revert i k. induction ps as [| p ps IH]; intros i k H; cbn [Rounded.forEachTarget] in H.
  - contradiction.
  - destruct (Rounded.layoutTarget M rnd md fid n i k p) as [v d] eqn:E.
    destruct H as [<- | H].
    + exists p, i, k. split; [now left |]. now rewrite E.
    + destruct (IH _ _ H) as (p' & j & k' & Hin & Hq).
      exists p', j, k'. split; [now right | exact Hq].
Qed.

Lemma length_norm3 v : Vector3Ops.length v = norm3 (x v) (y v) (z v).
Proof. reflexivity. Qed.

Lemma radial_norm3 v : radial v = norm3 (x v) 0 (z v).
Proof. unfold radial, hypot, norm3. f_equal. ring. Qed.

Lemma trig_near (a : R) :
  - eps <= Math_sin M a - sin a <= eps /\ - eps <= Math_cos M a - cos a <= eps.
Proof.
  split; apply two_sided;
    [apply (sin_accurate _ _ _ _ HM) | apply (cos_accurate _ _ _ _ HM)].
Qed.

(** The radius of a layout: [lo + Math.random() * w]. *)
Lemma radius_range lo w d :
  (0 <= lo <= 500)%Z -> (0 <= w <= 500)%Z -> 0 <= d < 1 ->
  IZR lo <= fl M (IZR lo + fl M (d * IZR w)) <= IZR (lo + w).
Proof.
  intros Hlo Hw Hd.
  assert (Hw' : 0 <= IZR w) by (apply IZR_le; lia).
  assert (Hdw : 0 <= d * IZR w <= IZR w) by (split; nra).
  assert (Hf : 0 <= fl M (d * IZR w) <= IZR w).
  { split; [rewrite <- fl_0; apply (fl_monotone _ _ _ _ HM); lra |].
    apply fl_le; [lra |]. apply fl_int. lia. }
  rewrite plus_IZR. split.
  - apply fl_ge; [lra |]. apply fl_int. lia.
  - rewrite <- plus_IZR. apply fl_le; [rewrite plus_IZR; lra |]. apply fl_int. lia.
Qed.

(** A product of a bounded number and a number of [-1,1], rounded. *)
Lemma mul_unit r c B :
  (0 <= B <= 1000)%Z -> - IZR B <= r <= IZR B -> -1 <= c <= 1 ->
  - IZR B <= fl M (r * c) <= IZR B
  /\ - (u * IZR B + eta) <= fl M (r * c) - r * c <= u * IZR B + eta.
Proof.
  intros HB Hr Hc.
  assert (HB' : 0 <= IZR B <= 1000) by (split; apply IZR_le; lia).
  assert (Hrc : - IZR B <= r * c <= IZR B) by (split; nra).
  split.
  - rewrite <- opp_IZR. apply fl_range; [lia | lia | rewrite opp_IZR; exact Hrc].
  - apply fl_near; lra.
Qed.

(** In SCATTER mode the target is within [tolerance] of the shell of radii
    10 and 25. *)
Lemma rlayoutTarget_SCATTER rnd fid n i k p :
  in_unit rnd ->
  10 - tolerance u eta eps
  <= Vector3Ops.length (fst (Rounded.layoutTarget M rnd SCATTER fid n i k p))
  <= 25 + tolerance u eta eps.
Proof.
  intros Hr.
  destruct (unit_roundoff _ _ _ _ HM) as [Hu Hu'].
  destruct (underflow_unit _ _ _ _ HM) as [He He'].
  destruct (trig_accuracy _ _ _ _ HM) as [Hp Hp'].
  unfold Rounded.layoutTarget, Rounded.add, Rounded.mul, Rounded.sub; cbn [fst].
  set (theta := fl M (fl M (rnd k * Rounded.Math_PI M) * 2)).
  set (phi := Math_acos M (fl M (fl M (2 * rnd (k + 1)%nat) - 1))).
  pose proof (radius_range 10 15 (rnd (k + 2)%nat) ltac:(lia) ltac:(lia) (Hr _)) as Hrad.
  cbn [Z.add Pos.add Pos.succ Pos.add_carry] in Hrad.
  set (r := fl M (10 + fl M (rnd (k + 2)%nat * 15))) in *.
  pose proof (sin_range _ _ _ _ HM phi) as S1. pose proof (cos_range _ _ _ _ HM phi) as C1.
  pose proof (sin_range _ _ _ _ HM theta) as S2. pose proof (cos_range _ _ _ _ HM theta) as C2.
  destruct (trig_near phi) as [Es1 Ec1]. destruct (trig_near theta) as [Es2 Ec2].
  pose proof (SIN_bound phi) as s1. pose proof (COS_bound phi) as c1.
  pose proof (SIN_bound theta) as s2. pose proof (COS_bound theta) as c2.
  destruct (mul_unit r (Math_sin M phi) 25 ltac:(lia) ltac:(lra) S1) as [P1 Q1].
  set (p1 := fl M (r * Math_sin M phi)) in *.
  destruct (mul_unit p1 (Math_cos M theta) 25 ltac:(lia) P1 C2) as [_ Qx].
  destruct (mul_unit p1 (Math_sin M theta) 25 ltac:(lia) P1 S2) as [_ Qy].
  destruct (mul_unit r (Math_cos M phi) 25 ltac:(lia) ltac:(lra) C1) as [_ Qz].
  rewrite length_norm3; cbn [x y z].
  set (X := r * sin phi * cos theta). set (Y := r * sin phi * sin theta).
  set (Z := r * cos phi).
  assert (HL : norm3 X Y Z = r).
  { exact (length_sphere r phi theta ltac:(lra)). }
  set (E := 50 * (u + eps) + 2 * eta).
  (* the parts of the error of a coordinate *)
  pose proof (prod_bound (p1 - r * Math_sin M phi) (Math_cos M theta) (u * 25 + eta) 1
                ltac:(lra) ltac:(lra)) as A1.
  pose proof (prod_bound (p1 - r * Math_sin M phi) (Math_sin M theta) (u * 25 + eta) 1
                ltac:(lra) ltac:(lra)) as A2.
  pose proof (prod_bound r (Math_sin M phi - sin phi) 25 eps ltac:(lra) ltac:(lra)) as B0.
  pose proof (prod_bound (r * (Math_sin M phi - sin phi)) (Math_cos M theta) (25 * eps) 1
                ltac:(lra) ltac:(lra)) as B1.
  pose proof (prod_bound (r * (Math_sin M phi - sin phi)) (Math_sin M theta) (25 * eps) 1
                ltac:(lra) ltac:(lra)) as B2.
  pose proof (prod_bound r (sin phi) 25 1 ltac:(lra) ltac:(lra)) as D0.
  pose proof (prod_bound (r * sin phi) (Math_cos M theta - cos theta) (25 * 1) eps
                ltac:(lra) ltac:(lra)) as D1.
  pose proof (prod_bound (r * sin phi) (Math_sin M theta - sin theta) (25 * 1) eps
                ltac:(lra) ltac:(lra)) as D2.
  pose proof (prod_bound r (Math_cos M phi - cos phi) 25 eps ltac:(lra) ltac:(lra)) as D3.
  assert (Hx : - E <= fl M (p1 * Math_cos M theta) - X <= E).
  { replace (fl M (p1 * Math_cos M theta) - X)
      with ((fl M (p1 * Math_cos M theta) - p1 * Math_cos M theta)
            + (p1 - r * Math_sin M phi) * Math_cos M theta
            + r * (Math_sin M phi - sin phi) * Math_cos M theta
            + r * sin phi * (Math_cos M theta - cos theta))
      by (unfold X; ring).
    unfold E. lra. }
  assert (Hy : - E <= fl M (p1 * Math_sin M theta) - Y <= E).
  { replace (fl M (p1 * Math_sin M theta) - Y)
      with ((fl M (p1 * Math_sin M theta) - p1 * Math_sin M theta)
            + (p1 - r * Math_sin M phi) * Math_sin M theta
            + r * (Math_sin M phi - sin phi) * Math_sin M theta
            + r * sin phi * (Math_sin M theta - sin theta))
      by (unfold Y; ring).
    unfold E. lra. }
  assert (Hz : - E <= fl M (r * Math_cos M phi) - Z <= E).
  { replace (fl M (r * Math_cos M phi) - Z)
      with ((fl M (r * Math_cos M phi) - r * Math_cos M phi)
            + r * (Math_cos M phi - cos phi))
      by (unfold Z; ring).
    unfold E. lra. }
  pose proof (norm3_close X Y Z _ _ _ E Hx Hy Hz) as Hc. rewrite HL in Hc.
  unfold tolerance. unfold E in Hc. lra.
Qed.

(** In FOCUS mode a particle that is not the focus target gets a target
    within [tolerance] of the ring of radii 40 and 60, at a height between
    -20 and 20; the target is not the point in front of the camera. *)
Lemma rlayoutTarget_FOCUS_miss rnd fid n i k p :
  in_unit rnd ->
  idIs fid (id p) = false ->
  fst (Rounded.layoutTarget M rnd FOCUS fid n i k p) <> front
  /\ 40 - tolerance u eta eps
     <= radial (fst (Rounded.layoutTarget M rnd FOCUS fid n i k p))
     <= 60 + tolerance u eta eps
  /\ -20 <= y (fst (Rounded.layoutTarget M rnd FOCUS fid n i k p)) <= 20.
Proof.
  intros Hr Hid.
  destruct (unit_roundoff _ _ _ _ HM) as [Hu Hu'].
  destruct (underflow_unit _ _ _ _ HM) as [He He'].
  destruct (trig_accuracy _ _ _ _ HM) as [Hp Hp'].
  unfold Rounded.layoutTarget. rewrite Hid.
  unfold Rounded.add, Rounded.mul, Rounded.sub; cbn [fst].
  set (a := fl M (fl M (rnd k * Rounded.Math_PI M) * 2)).
  pose proof (radius_range 40 20 (rnd (k + 1)%nat) ltac:(lia) ltac:(lia) (Hr _)) as Hrad.
  cbn [Z.add Pos.add Pos.succ Pos.add_carry] in Hrad.
  set (r := fl M (40 + fl M (rnd (k + 1)%nat * 20))) in *.
  pose proof (sin_range _ _ _ _ HM a) as S1. pose proof (cos_range _ _ _ _ HM a) as C1.
  destruct (trig_near a) as [Es Ec].
  destruct (mul_unit r (Math_cos M a) 60 ltac:(lia) ltac:(lra) C1) as [_ Qx].
  destruct (mul_unit r (Math_sin M a) 60 ltac:(lia) ltac:(lra) S1) as [_ Qz].
  rewrite (Rmult_comm r (Math_cos M a)) in Qx. rewrite (Rmult_comm r (Math_sin M a)) in Qz.
  assert (Hrad' : 40 - tolerance u eta eps
                  <= radial (mkVector3 (fl M (Math_cos M a * r))
                               (fl M (fl M (rnd (k + 2)%nat - 0.5) * 40))
                               (fl M (Math_sin M a * r)))
                  <= 60 + tolerance u eta eps).
  { rewrite radial_norm3; cbn [x z].
    assert (HL : norm3 (cos a * r) 0 (sin a * r) = r).
    { rewrite <- (hypot_circle a r ltac:(lra)) at 3.
      unfold norm3, hypot. f_equal. ring. }
    set (E := 60 * (u + eps) + eta).
    pose proof (prod_bound (Math_cos M a - cos a) r eps 60 ltac:(lra) ltac:(lra)) as D1.
    pose proof (prod_bound (Math_sin M a - sin a) r eps 60 ltac:(lra) ltac:(lra)) as D2.
    assert (Hx : - E <= fl M (Math_cos M a * r) - cos a * r <= E).
    { replace (fl M (Math_cos M a * r) - cos a * r)
        with ((fl M (Math_cos M a * r) - Math_cos M a * r) + (Math_cos M a - cos a) * r)
        by ring.
      unfold E. lra. }
    assert (Hz : - E <= fl M (Math_sin M a * r) - sin a * r <= E).
    { replace (fl M (Math_sin M a * r) - sin a * r)
        with ((fl M (Math_sin M a * r) - Math_sin M a * r) + (Math_sin M a - sin a) * r)
        by ring.
      unfold E. lra. }
    assert (H0 : - E <= 0 - 0 <= E) by (unfold E; lra).
    pose proof (norm3_close (cos a * r) 0 (sin a * r) _ _ _ E Hx H0 Hz) as Hc.
    rewrite HL in Hc. unfold tolerance. unfold E in Hc. lra. }
  split; [| split; [exact Hrad' |]].
  - intros E. rewrite E, radial_front in Hrad'. unfold tolerance in Hrad'. lra.
  - cbn [y].
    assert (Hh : fl M (1 / 2) = 1 / 2) by (apply (fl_halves _ _ _ _ HM 1); lia).
    assert (Hh' : fl M (- (1 / 2)) = - (1 / 2))
      by (rewrite (fl_odd _ _ _ _ HM), Hh; reflexivity).
    pose proof (Hr (k + 2)%nat) as Hd.
    assert (Hs : - (1 / 2) <= fl M (rnd (k + 2)%nat - 0.5) <= 1 / 2).
    { split; [apply fl_ge; [lra | exact Hh'] | apply fl_le; [lra | exact Hh]]. }
    apply (fl_range _ (-20) 20); [lia | lia | lra].
Qed.

End StandardModel.

(** ** The laws of the numbers, up to rounding *)

Lemma pow_092 k : (1 - 0.08) ^ k = 0.92 ^ k.
Proof. f_equal. lra. Qed.

Lemma pow_09 k : (1 - 0.1) ^ k = 0.9 ^ k.
Proof. f_equal. lra. Qed.

Lemma tracks_Rabs M u eta a0 c t x0 k xk :
  0 <= c * slack u eta ->
  0 < a0 <= 1 / 10 ->
  tracks M u eta a0 c t x0 k xk ->
  Rabs (t - xk - (1 - a0) ^ k * (t - x0)) <= c * slack u eta.
Proof.
  intros HW Ha (_ & _ & E).
  assert (HQ : 0 <= (1 - a0) ^ k <= 1).
  { split; [apply pow_le; lra |].
    apply Rle_trans with (1 ^ k); [apply pow_incr; lra | rewrite pow1; lra]. }
  apply Rabs_le. split; nra.
Qed.

(** C1, as amended.  On every standard machine, for a particle whose
    position and target are doubles inside the stage: after the k calls of
    [calls] (any modes, any focus ids) the target is the same; every
    coordinate of the position lies between where it began and the target
    (it moved towards the target or stayed, and did not pass it), so the
    distance to the target is not larger than it was; the remaining gap of
    every coordinate is 0.92^k times the first one up to 12.5 * slack, and
    the distance to the target is the first distance times 0.92^k up to
    25 * slack ([slack] is 120 u + 123 eta, about 1.3e-14 for binary64).
    The distance falls below every bound above 25 * slack after enough
    calls.  Without rounding (u = eta = 0) the distance is exactly the
    first distance times 0.92^k. *)
Theorem update_converges_up_to_rounding :
  forall (M : Machine) (u eta eps : R),
    Standard M u eta eps ->
    forall (calls : list (ExperienceMode * option string)) (p : Particle),
      doubles M (position (mesh p)) ->
      doubles M (targetPos p) ->
      between (-60) 60 (position (mesh p)) ->
      between (-60) 60 (targetPos p) ->
      targetPos (Rounded.updates M calls p) = targetPos p
      /\ 0 < 0.92 ^ List.length calls <= 1
      /\ betwixt3 (position (mesh p)) (targetPos p)
           (position (mesh (Rounded.updates M calls p)))
      /\ Rabs (x (targetPos p) - x (position (mesh (Rounded.updates M calls p)))
               - 0.92 ^ List.length calls * (x (targetPos p) - x (position (mesh p))))
         <= 12.5 * slack u eta
      /\ Rabs (y (targetPos p) - y (position (mesh (Rounded.updates M calls p)))
               - 0.92 ^ List.length calls * (y (targetPos p) - y (position (mesh p))))
         <= 12.5 * slack u eta
      /\ Rabs (z (targetPos p) - z (position (mesh (Rounded.updates M calls p)))
               - 0.92 ^ List.length calls * (z (targetPos p) - z (position (mesh p))))
         <= 12.5 * slack u eta
      /\ Rabs (Vector3Ops.distanceTo (position (mesh (Rounded.updates M calls p)))
                 (targetPos p)
               - Vector3Ops.distanceTo (position (mesh p)) (targetPos p)
                 * 0.92 ^ List.length calls)
         <= 25 * slack u eta
      /\ Vector3Ops.distanceTo (position (mesh (Rounded.updates M calls p))) (targetPos p)
         <= Vector3Ops.distanceTo (position (mesh p)) (targetPos p)
      /\ (forall bound, 25 * slack u eta < bound ->
            exists K, forall calls' : list (ExperienceMode * option string),
              (K <= List.length calls')%nat ->
              Vector3Ops.distanceTo (position (mesh (Rounded.updates M calls' p)))
                (targetPos p) < bound)
      /\ (u = 0 -> eta = 0 ->
          Vector3Ops.distanceTo (position (mesh (Rounded.updates M calls p))) (targetPos p)
          = Vector3Ops.distanceTo (position (mesh p)) (targetPos p)
            * 0.92 ^ List.length calls).
Proof.
  intros M u eta eps HM calls p Dp Dt Bp Bt.
  pose proof (rupdates_position M u eta eps HM calls p Dp Dt Bp Bt) as HT.
  pose proof (slack_nonneg M u eta eps HM) as Hs.
  destruct (tracks3_distance M u eta eps HM 0.08 12.5 _ _ _ _ ltac:(lra) ltac:(lra) HT)
    as [Hd Hle].
  rewrite pow_092 in Hd.
  assert (Hdist : Rabs (Vector3Ops.distanceTo
                          (position (mesh (Rounded.updates M calls p))) (targetPos p)
                        - Vector3Ops.distanceTo (position (mesh p)) (targetPos p)
                          * 0.92 ^ List.length calls)
                  <= 25 * slack u eta).
  { apply Rabs_le. lra. }
  destruct HT as (Hx & Hy & Hz).
  split; [apply rupdates_targetPos |].
  split; [apply pow_092_range |].
  split; [exact (conj (proj1 (proj2 Hx)) (conj (proj1 (proj2 Hy)) (proj1 (proj2 Hz)))) |].
  split; [rewrite <- pow_092;
          exact (tracks_Rabs M u eta 0.08 12.5 _ _ _ _ ltac:(lra) ltac:(lra) Hx) |].
  split; [rewrite <- pow_092;
          exact (tracks_Rabs M u eta 0.08 12.5 _ _ _ _ ltac:(lra) ltac:(lra) Hy) |].
  split; [rewrite <- pow_092;
          exact (tracks_Rabs M u eta 0.08 12.5 _ _ _ _ ltac:(lra) ltac:(lra) Hz) |].
  split; [exact Hdist |]. split; [exact Hle |].
  split; [intros bound Hb; now apply (rupdates_converge M u eta eps HM) |].
  intros Hu He. unfold slack in Hdist. rewrite Hu, He in Hdist.
  apply two_sided in Hdist. lra.
Qed.

Lemma update_converges_up_to_rounding_witness :
  Standard exact 0 0 0
  /\ doubles exact (position (mesh traveller))
  /\ doubles exact (targetPos traveller)
  /\ between (-60) 60 (position (mesh traveller))
  /\ between (-60) 60 (targetPos traveller)
  /\ Vector3Ops.distanceTo
       (position (mesh (Rounded.updates exact [(TREE, None); (FOCUS, Some "c3"%string)]
                          traveller)))
       (targetPos traveller)
     = Vector3Ops.distanceTo (position (mesh traveller)) (targetPos traveller) * 0.92 ^ 2.
Proof.
  assert (D1 : doubles exact (position (mesh traveller))) by (repeat split).
  assert (D2 : doubles exact (targetPos traveller)) by (repeat split).
  assert (B1 : between (-60) 60 (position (mesh traveller)))
    by (unfold between; cbn; lra).
  assert (B2 : between (-60) 60 (targetPos traveller))
    by (unfold between; cbn; lra).
  split; [exact exact_Standard |]. split; [exact D1 |]. split; [exact D2 |].
  split; [exact B1 |]. split; [exact B2 |].
  destruct (update_converges_up_to_rounding exact 0 0 0 exact_Standard
              [(TREE, None); (FOCUS, Some "c3"%string)] traveller D1 D2 B1 B2)
    as (_ & _ & _ & _ & _ & _ & _ & _ & _ & H).
  exact (H eq_refl eq_refl).
Defined.

(** C1, the claim as stated fails.  In binary64 a photo that starts at the
    origin and heads for (0, 2, 35) is at
    (0, 1.9999999999999987, 34.99999999999996) after 500 calls, and every
    further call leaves it there, below the target in two coordinates.
    The distance to the target is then the same before and after a call,
    and not zero, where the claim has it shrink by the factor 0.92. *)
Lemma update_stalls_short_of_target :
  Binary64.positionAfter 500 Binary64.origin Binary64.front = Binary64.rest
  /\ Binary64.positionAfter 501 Binary64.origin Binary64.front = Binary64.rest
  /\ (forall k, Binary64.positionAfter k Binary64.rest Binary64.front = Binary64.rest)
  /\ Binary64.below Binary64.rest Binary64.front = (false, true, true)
  /\ Binary64.rest <> Binary64.front.
Proof.
  split; [vm_compute; reflexivity |]. split; [vm_compute; reflexivity |].
  split.
  { induction k as [| k IH]; [reflexivity |].
    unfold Binary64.positionAfter in *. rewrite Nat.iter_succ, IH.
    vm_compute. reflexivity. }
  split; [vm_compute; reflexivity |].
  intros H. apply (f_equal (fun v => Binary64.below v Binary64.front)) in H.
  vm_compute in H. discriminate.
Qed.

Lemma tolerance_small M u eta eps :
  Standard M u eta eps -> 0 <= tolerance u eta eps <= 1 / 1000.
Proof.
  intros HM. destruct (unit_roundoff _ _ _ _ HM). destruct (underflow_unit _ _ _ _ HM).
  destruct (trig_accuracy _ _ _ _ HM). unfold tolerance. lra.
Qed.

(** C9, as amended.  On every standard machine, with draws in [0,1): in
    SCATTER mode [calculateTargets] returns, and every particle's target is
    at a distance from the origin of at least 10 and at most 25, within the
    tolerance of the arithmetic: [tolerance] is 150 (u + eps) + 6 eta, about
    5e-14 for binary64 and at most a thousandth on any standard machine; it
    is 0 where nothing is rounded. *)
Theorem scatter_layout_within_tolerance :
  forall (M : Machine) (u eta eps : R),
    Standard M u eta eps ->
    forall (rnd : nat -> R) (e : Experience),
      in_unit rnd ->
      mode (state e) = SCATTER ->
      exists e',
        Rounded.calculateTargets M rnd e = Some e'
        /\ map id (particles e') = map id (particles e)
        /\ (forall p', In p' (particles e') ->
              10 - tolerance u eta eps
              <= Vector3Ops.length (targetPos p')
              <= 25 + tolerance u eta eps)
        /\ 0 <= tolerance u eta eps <= 1 / 1000
        /\ tolerance 0 0 0 = 0.
Proof.
  intros M u eta eps HM rnd e Hr Hmode.
  unfold Rounded.calculateTargets. rewrite Hmode. cbn [Rounded.selectFocus].
  eexists. split; [reflexivity |]. cbn [particles withParticles withFocusTargetId].
  split; [now apply rforEachTarget_map |].
  split; [| split; [exact (tolerance_small M u eta eps HM) | unfold tolerance; lra]].
  intros p' H.
  destruct (rforEachTarget_In M _ _ _ _ _ _ _ _ H) as (p & j & k' & _ & ->).
  cbn [targetPos ParticleOps.setTarget].
  now apply (rlayoutTarget_SCATTER M u eta eps HM).
Qed.

Lemma scatter_layout_within_tolerance_witness :
  Standard exact 0 0 0
  /\ in_unit halfTape
  /\ mode (state scatterScene) = SCATTER
  /\ exists e',
       Rounded.calculateTargets exact halfTape scatterScene = Some e'
       /\ map id (particles e') = map id (particles scatterScene)
       /\ forall p', In p' (particles e') ->
            10 - tolerance 0 0 0 <= Vector3Ops.length (targetPos p')
            <= 25 + tolerance 0 0 0.
Proof.
  split; [exact exact_Standard |]. split; [exact halfTape_in_unit |].
  split; [reflexivity |].
  destruct (scatter_layout_within_tolerance exact 0 0 0 exact_Standard halfTape
              scatterScene halfTape_in_unit eq_refl) as (e' & H1 & H2 & H3 & _).
  exists e'. split; [exact H1 |]. split; [exact H2 | exact H3].
Defined.

(** C9, the claim as stated fails.  In binary64, for the draws 0,
    0.74609375 and 0 the SCATTER branch has theta = 0, phi =
    [Math.acos(0.4921875)] = 1.056195399217514 and r = 10, and the target
    is (8.704892100673908, 0, 4.921875).  The square of its distance from
    the origin, computed without rounding, is below 100 (by 5.7e-15): the
    target is inside the sphere of radius 10.  The double 10 itself is
    10 * 2^104 in the same scale. *)
Lemma scatter_target_inside_radius_10 :
  Binary64.scattered = Binary64.inside
  /\ Binary64.fixed Binary64.inner = Some (10 * 2 ^ 104)%Z
  /\ exists n,
       Binary64.squaredLength Binary64.inside = Some n
       /\ (n < 100 * 2 ^ 208)%Z.
Proof.
  split; [vm_compute; reflexivity |]. split; [vm_compute; reflexivity |].
  eexists. split; [vm_compute; reflexivity |]. vm_compute. reflexivity.
Qed.

(** C10.  On every standard machine, with draws in [0,1): in FOCUS mode
    with no PHOTO particle, in a state whose focus target is null or the id
    of a PHOTO particle (every reachable state is one), the focus target is
    null, [calculateTargets] returns, the focus target is still null, and
    every particle gets a target of the far ring: at a radial distance of
    at least 40 and at most 60 within the tolerance of the arithmetic, at
    a height between -20 and 20.  None gets the point (0, 2, 35). *)
Theorem focus_layout_without_photo_on_the_ring :
  forall (M : Machine) (u eta eps : R),
    Standard M u eta eps ->
    forall (rnd : nat -> R) (e : Experience),
      in_unit rnd ->
      mode (state e) = FOCUS ->
      (forall p, In p (particles e) -> type p <> PHOTO) ->
      focusValid e ->
      focusTargetId e = None
      /\ exists e',
        Rounded.calculateTargets M rnd e = Some e'
        /\ focusTargetId e' = None
        /\ map id (particles e') = map id (particles e)
        /\ forall p', In p' (particles e') ->
             targetPos p' <> front
             /\ 40 - tolerance u eta eps <= radial (targetPos p')
                <= 60 + tolerance u eta eps
             /\ -20 <= y (targetPos p') <= 20.
Proof.
  intros M u eta eps HM rnd e Hr Hmode Hnone Hvalid.
  assert (Hfid : focusTargetId e = None).
  { destruct (focusTargetId e) as [s |] eqn:E; [| reflexivity].
    destruct (Hvalid s E) as (p & Hin & Ht & _). now apply Hnone in Hin. }
  split; [exact Hfid |].
  unfold Rounded.calculateTargets. rewrite Hmode, Hfid, (photosOf_none _ Hnone).
  cbn [Rounded.selectFocus truthy negb andb List.length Nat.ltb Nat.leb].
  eexists. split; [reflexivity |].
  cbn [particles focusTargetId withParticles withFocusTargetId].
  split; [reflexivity |]. split; [now apply rforEachTarget_map |].
  intros p' H.
  destruct (rforEachTarget_In M _ _ _ _ _ _ _ _ H) as (p & j & k' & _ & ->).
  cbn [targetPos ParticleOps.setTarget].
  now apply (rlayoutTarget_FOCUS_miss M u eta eps HM).
Qed.

Lemma focus_layout_without_photo_on_the_ring_witness :
  Standard exact 0 0 0
  /\ in_unit zeroTape
  /\ mode (state boxesInFocus) = FOCUS
  /\ (forall p, In p (particles boxesInFocus) -> type p <> PHOTO)
  /\ focusValid boxesInFocus
  /\ exists e',
       Rounded.calculateTargets exact zeroTape boxesInFocus = Some e'
       /\ focusTargetId e' = None
       /\ forall p', In p' (particles e') -> targetPos p' <> front.
Proof.
  assert (Hn : forall p, In p (particles boxesInFocus) -> type p <> PHOTO).
  { intros p [<- | [<- | []]]; discriminate. }
  assert (Hv : focusValid boxesInFocus) by (intros s Hs; discriminate).
  split; [exact exact_Standard |]. split; [exact zeroTape_in_unit |].
  split; [reflexivity |]. split; [exact Hn |]. split; [exact Hv |].
  destruct (focus_layout_without_photo_on_the_ring exact 0 0 0 exact_Standard zeroTape
              boxesInFocus zeroTape_in_unit eq_refl Hn Hv) as (_ & e' & H1 & H2 & _ & H4).
  exists e'. split; [exact H1 |]. split; [exact H2 |].
  intros p' Hp'. exact (proj1 (H4 p' Hp')).
Defined.

(** X5.  On every standard machine, for a particle whose scale and initial
    scale are doubles, the scale inside the stage and the initial scale
    within 10: under [k] calls of [update] with the same mode and focus id
    the scale heads for its goal -- the initial scale times 4.5 (rounded)
    for the focus photo in FOCUS mode, the double nearest 0.001 on every
    axis for every other particle in FOCUS mode, the initial scale in TREE
    and SCATTER mode.  Every coordinate of the scale lies between where it
    began and the goal, and its gap to the goal is 0.9^k times the first gap
    up to 10 * slack.  The calls change neither id, type, initial scale nor
    drift. *)
Theorem scale_heads_for_its_goal :
  forall (M : Machine) (u eta eps : R),
    Standard M u eta eps ->
    forall (k : nat) (md : ExperienceMode) (fid : option string) (p : Particle),
      doubles M (scale (mesh p)) ->
      doubles M (initialScale p) ->
      between (-60) 60 (scale (mesh p)) ->
      between (-10) 10 (initialScale p) ->
      (md <> FOCUS -> Rounded.scaleGoal M md fid p = initialScale p)
      /\ (md = FOCUS -> type p = PHOTO -> fid = Some (id p) ->
          Rounded.scaleGoal M md fid p
          = mkVector3 (fl M (x (initialScale p) * 4.5)) (fl M (y (initialScale p) * 4.5))
                      (fl M (z (initialScale p) * 4.5)))
      /\ (md = FOCUS -> type p <> PHOTO \/ fid <> Some (id p) ->
          Rounded.scaleGoal M md fid p = mkVector3 (fl M 0.001) (fl M 0.001) (fl M 0.001))
      /\ betwixt3 (scale (mesh p)) (Rounded.scaleGoal M md fid p)
           (scale (mesh (Rounded.updateTimes M k md fid p)))
      /\ Rabs (x (Rounded.scaleGoal M md fid p)
               - x (scale (mesh (Rounded.updateTimes M k md fid p)))
               - 0.9 ^ k * (x (Rounded.scaleGoal M md fid p) - x (scale (mesh p))))
         <= 10 * slack u eta
      /\ Rabs (y (Rounded.scaleGoal M md fid p)
               - y (scale (mesh (Rounded.updateTimes M k md fid p)))
               - 0.9 ^ k * (y (Rounded.scaleGoal M md fid p) - y (scale (mesh p))))
         <= 10 * slack u eta
      /\ Rabs (z (Rounded.scaleGoal M md fid p)
               - z (scale (mesh (Rounded.updateTimes M k md fid p)))
               - 0.9 ^ k * (z (Rounded.scaleGoal M md fid p) - z (scale (mesh p))))
         <= 10 * slack u eta
      /\ identity (Rounded.updateTimes M k md fid p) = identity p.
Proof.
  intros M u eta eps HM k md fid p Ds Di Bs Bi.
  pose proof (slack_nonneg M u eta eps HM) as Hs.
  destruct (rupdateTimes_scale M u eta eps HM k md fid p Ds Di Bs Bi) as (Hx & Hy & Hz).
  split; [| split; [| split]].
  - intros H. unfold Rounded.scaleGoal. destruct md; congruence.
  - intros -> Ht Hf. unfold Rounded.scaleGoal. rewrite Ht.
    apply idIs_true in Hf. now rewrite Hf.
  - intros -> H. unfold Rounded.scaleGoal.
    destruct (isPHOTO (type p) && idIs fid (id p)) eqn:E; [| reflexivity].
    apply andb_prop in E. destruct E as [E1 E2]. apply idIs_true in E2.
    destruct H as [H | H]; [| contradiction].
    destruct (type p); cbn in E1; congruence.
  - split; [exact (conj (proj1 (proj2 Hx)) (conj (proj1 (proj2 Hy)) (proj1 (proj2 Hz)))) |].
    split; [rewrite <- pow_09;
            exact (tracks_Rabs M u eta 0.1 10 _ _ _ _ ltac:(lra) ltac:(lra) Hx) |].
    split; [rewrite <- pow_09;
            exact (tracks_Rabs M u eta 0.1 10 _ _ _ _ ltac:(lra) ltac:(lra) Hy) |].
    split; [rewrite <- pow_09;
            exact (tracks_Rabs M u eta 0.1 10 _ _ _ _ ltac:(lra) ltac:(lra) Hz) |].
    apply rupdateTimes_identity.
Qed.

Lemma scale_heads_for_its_goal_witness :
  Standard exact 0 0 0
  /\ doubles exact (scale (mesh tilted))
  /\ doubles exact (initialScale tilted)
  /\ between (-60) 60 (scale (mesh tilted))
  /\ between (-10) 10 (initialScale tilted)
  /\ Rounded.scaleGoal exact TREE None tilted = initialScale tilted
  /\ betwixt3 (scale (mesh tilted)) (Rounded.scaleGoal exact TREE None tilted)
       (scale (mesh (Rounded.updateTimes exact 3 TREE None tilted))).
Proof.
  assert (D1 : doubles exact (scale (mesh tilted))) by (repeat split).
  assert (D2 : doubles exact (initialScale tilted)) by (repeat split).
  assert (B1 : between (-60) 60 (scale (mesh tilted))) by (unfold between; cbn; lra).
  assert (B2 : between (-10) 10 (initialScale tilted)) by (unfold between; cbn; lra).
  split; [exact exact_Standard |]. split; [exact D1 |]. split; [exact D2 |].
  split; [exact B1 |]. split; [exact B2 |].
  destruct (scale_heads_for_its_goal exact 0 0 0 exact_Standard 3 TREE None tilted
              D1 D2 B1 B2) as (H1 & _ & _ & H4 & _).
  split; [apply H1; discriminate | exact H4].
Defined.


